(** * Captcha segmentation: a model of [extract_characters.py]

    The repository's core is one function, [extract_characters], that
    turns a BGR captcha image into a list of single-channel character
    images.  This development embeds that function and the numpy / OpenCV
    primitives it calls, and states the properties of the specification
    against the embedding.

    Conventions.
    - An 8-bit single-channel array is a list of rows of [Z] (values
      0..255); a BGR array is a list of rows of triples.
    - A Python [int] is a [Z]; a Python [float] is an IEEE-754 binary64
      value, computed with the Standard Library's [SpecFloat] operations
      (precision 53, maximal exponent 1024), so rounding is the machine's.
    - A Python [dict] object lives in a store and is referred to by a
      location: the caller's [params] dictionary is such an object.
    - A raised exception is the [Raise] outcome of a computation.
    - OpenCV routines are modelled on the inputs on which they return;
      their own argument checks, which raise [cv2.error], are outside the
      model: [cv2.erode] refuses a kernel tuple that holds 0, [cv2.resize]
      an empty source or a size that is not positive.  Bit operations,
      morphology, flood fill and nearest-neighbour resize are defined here
      from OpenCV's documented behaviour; grey conversion, box blur, Otsu
      thresholding and the clustering inside [groupRectangles] are fields
      of the [OpenCV] record, and every general statement holds for all
      their values.
    - The [debug] flag only draws on a canvas of its own; the model keeps
      the flag and the one place where the drawing code can raise.  The
      window that shows the canvas at the end of a [debug] call
      ([cv2.imshow], [cv2.waitKey(0)], [cv2.destroyWindow], lines 258-261)
      needs a display and a key press and is outside the model: with
      [debug] on, a returned value is what the call returns once the
      window is dismissed.

    - The callers of [extract_characters] are embedded as well: the loop
      of [generate_dataset.py] that builds the training set, the
      constructor and [predict] of [model.py], and the request handler of
      [flask_server.py].  A [str] they handle is the list of its code
      points; reading files, decoding images, the Keras network and the
      file system are parameters of the definitions.

    The file has two parts: the definitions (Python values, arrays, OpenCV
    routines, the pipeline, its callers, the notions the properties are
    stated with, and example inputs), then the lemmas and theorems. *)

From Stdlib Require Import ZArith QArith Lia Bool Sorted.
From Stdlib Require Import Floats.SpecFloat.
From stdpp Require Import base option list gmap strings.

Close Scope Q_scope.
Local Open Scope Z_scope.

(** ** Python values *)

Module Py.

(** Exceptions the function can raise. *)
Inductive exn : Type :=
| Exception (msg : string)
| ZeroDivisionError.

(** The outcome of a call: a returned value or a raised exception. *)
Inductive outcome (A : Type) : Type :=
| Return (a : A)
| Raise (e : exn).
Arguments Return {A} a.
Arguments Raise {A} e.

Definition bind {A B} (m : outcome A) (k : A -> outcome B) : outcome B :=
  match m with
  | Return a => k a
  | Raise e => Raise e
  end.

Definition raised {A} (m : outcome A) : bool :=
  match m with Return _ => false | Raise _ => true end.

(** [a[start:stop]]: a bound [i] of a slice over a sequence of length [n];
    a negative bound counts from the end, and bounds are clipped. *)
Definition slice_bound (n : nat) (i : Z) : nat :=
  if i <? 0 then Z.to_nat (Z.max 0 (i + Z.of_nat n))
  else Z.to_nat (Z.min i (Z.of_nat n)).

Definition slice {A} (l : list A) (start stop : Z) : list A :=
  let s := slice_bound (length l) start in
  let e := slice_bound (length l) stop in
  take (e - s)%nat (drop s l).

(** binary64 arithmetic. *)
Definition prec : Z := 53.
Definition emax : Z := 1024.

(** [float(n)], rounded to nearest even. *)
Definition float_of_int (n : Z) : spec_float :=
  binary_normalize prec emax n 0 false.

Definition fmul : spec_float -> spec_float -> spec_float := SFmul prec emax.
Definition fdiv : spec_float -> spec_float -> spec_float := SFdiv prec emax.

(** [a / b] on ints (true division): [ZeroDivisionError] when [b] is 0,
    else the quotient as a float (exact operands below 2^53). *)
Definition truediv (a b : Z) : outcome spec_float :=
  if b =? 0 then Raise ZeroDivisionError
  else Return (fdiv (float_of_int a) (float_of_int b)).

(** [a % b] on ints: [ZeroDivisionError] when [b] is 0; the result has the
    sign of [b], as [Z.modulo]. *)
Definition mod_ (a b : Z) : outcome Z :=
  if b =? 0 then Raise ZeroDivisionError else Return (a mod b).

(** [f < n] for a float [f] and an int [n]: Python compares the exact
    values. *)
Definition float_lt_int (f : spec_float) (n : Z) : bool :=
  match f with
  | S754_zero _ => 0 <? n
  | S754_infinity s => s
  | S754_nan => false
  | S754_finite s m e =>
      let v := if s then Z.neg m else Z.pos m in
      if 0 <=? e then v * 2 ^ e <? n else v <? n * 2 ^ (- e)
  end.

(** The largest integer not above a finite float (C's [floor]). *)
Definition floor (f : spec_float) : Z :=
  match f with
  | S754_finite s m e =>
      let v := if s then Z.neg m else Z.pos m in
      if 0 <=? e then v * 2 ^ e else v / 2 ^ (- e)
  | _ => 0
  end.

End Py.

Import Py.

#[global] Instance outcome_ret : MRet outcome := @Return.
#[global] Instance outcome_bind : MBind outcome := fun A B k m => Py.bind m k.

(** ** numpy arrays *)

Module Np.

(** [uint8] single-channel array: rows of values. *)
Abbreviation Gray := (list (list Z)).
(** One BGR pixel and a 3-channel array. *)
Abbreviation Pixel := (Z * Z * Z)%type.
Abbreviation Bgr := (list (list (Z * Z * Z))).

(** [a.shape[0]] and [a.shape[1]]. *)
Definition shape0 {A} (a : list (list A)) : nat := length a.
Definition shape1 {A} (a : list (list A)) : nat := length (default [] (head a)).

(** [a[y, x]] for indices inside the array ([None] outside). *)
Definition at2 {A} (a : list (list A)) (y x : Z) : option A :=
  if (0 <=? y) && (0 <=? x)
  then r ← a !! Z.to_nat y; r !! Z.to_nat x
  else None.

(** [np.zeros((h, w), dtype=np.uint8)]. *)
Definition zeros (h w : nat) : Gray := replicate h (replicate w 0).

(** [a[y0:y1, x0:x1]]. *)
Definition slice2 {A} (a : list (list A)) (y0 y1 x0 x1 : Z) : list (list A) :=
  (fun row => Py.slice row x0 x1) <$> Py.slice a y0 y1.

(** [a * k] on [uint8]: wraps modulo 256. *)
Definition mul_u8 (a : Gray) (k : Z) : Gray :=
  (fun row : list Z => (fun v => (v * k) mod 256) <$> row) <$> a.

(** Every element satisfies [P]. *)
Definition all2 {A} (P : A -> Prop) (a : list (list A)) : Prop :=
  Forall (Forall P) a.

(** Every row has [w] columns. *)
Definition rectangular {A} (w : nat) (a : list (list A)) : Prop :=
  Forall (fun row => length row = w) a.

End Np.

Import Np.

(** A rectangle [(x, y, w, h)], as OpenCV returns it to Python. *)
Record Rect : Type := mkRect { rect_x : Z; rect_y : Z; rect_w : Z; rect_h : Z }.

#[global] Instance Rect_eq_dec : EqDecision Rect.
Proof. solve_decision. Defined.

(** ** OpenCV routines *)

Module Cv.

(** [cv2.bitwise_and] and [cv2.bitwise_or] on single-channel arrays. *)
Definition bitwise_and (a b : Gray) : Gray := zip_with (zip_with Z.land) a b.
Definition bitwise_or (a b : Gray) : Gray := zip_with (zip_with Z.lor) a b.

(** [cv2.bitwise_and] on 3-channel arrays. *)
Definition pixel_and (p q : Pixel) : Pixel :=
  let '(b1, g1, r1) := p in
  let '(b2, g2, r2) := q in
  (Z.land b1 b2, Z.land g1 g2, Z.land r1 r2).
Definition bitwise_and_bgr (a b : Bgr) : Bgr := zip_with (zip_with pixel_and) a b.

(** [cv2.cvtColor(m, cv2.COLOR_GRAY2BGR)]. *)
Definition cvtColor_GRAY2BGR (m : Gray) : Bgr :=
  (fun row : list Z => (fun v => (v, v, v)) <$> row) <$> m.

(** [cv2.countNonZero]. *)
Definition countNonZero (m : Gray) : Z :=
  Z.of_nat (length (filter (fun v => v <> 0) (concat m))).

(** *** Morphology

    The source passes Python tuples as the [kernel] argument of
    [cv2.erode] and [cv2.dilate].  The binding turns a tuple of [n]
    numbers into an [n] x 1 matrix holding them, so [(3, 3)] is the
    column of two non-zero entries, not a 3 x 3 square.  The structuring
    element is the set of non-zero entries, anchored at the kernel centre
    [(cols / 2, rows / 2)].  OpenCV refuses a tuple that holds 0 (the
    element is then no rectangle, and its integer type is not accepted);
    the definitions are for the other tuples. *)
Definition kernel_of_tuple (t : Z * Z) : list (list Z) := [[t.1]; [t.2]].

(** Offsets [(dy, dx)] of the non-zero kernel entries from the anchor. *)
Definition structuring_offsets (kernel : list (list Z)) : list (Z * Z) :=
  let ay := Z.of_nat (shape0 kernel) / 2 in
  let ax := Z.of_nat (shape1 kernel) / 2 in
  concat (imap (fun ky row =>
    omap id (imap (fun kx v =>
      if v =? 0 then None else Some (Z.of_nat ky - ay, Z.of_nat kx - ax)) row))
    kernel).

(** [dst(y, x)] is the [op] of [src(y + dy, x + dx)] over the offsets;
    a position outside the array counts as [border]. *)
Definition morph (op : Z -> Z -> Z) (border : Z) (offs : list (Z * Z)) (src : Gray) : Gray :=
  imap (fun y row =>
    imap (fun x _ =>
      foldr (fun d acc =>
               op (default border (at2 src (Z.of_nat y + d.1) (Z.of_nat x + d.2))) acc)
            border offs) row) src.

(** [cv2.dilate(src, kernel, iterations=1)]: maximum; outside counts as 0. *)
Definition dilate_offsets : list (Z * Z) -> Gray -> Gray := morph Z.max 0.
(** [cv2.erode(src, kernel, iterations=1)]: minimum; outside counts as 255. *)
Definition erode_offsets : list (Z * Z) -> Gray -> Gray := morph Z.min 255.

Definition dilate (src : Gray) (kernel : Z * Z) : Gray :=
  dilate_offsets (structuring_offsets (kernel_of_tuple kernel)) src.
Definition erode (src : Gray) (kernel : Z * Z) : Gray :=
  erode_offsets (structuring_offsets (kernel_of_tuple kernel)) src.

(** *** Flood fill

    [cv2.floodFill(image, mask, (sx, sy), newVal, loDiff, upDiff,
    cv2.FLOODFILL_FIXED_RANGE)]: 4-connectivity, every pixel compared with
    the seed, mask value 1.  The mask is two pixels wider and taller than
    the image: image pixel [(x, y)] is mask cell [(x + 1, y + 1)], and the
    one-pixel frame of the mask is set to 1. *)
Definition channel_ok (lo up seed v : Z) : bool :=
  (seed - lo <=? v) && (v <=? seed + up).

Definition diff_ok (lo up : Pixel) (seed p : Pixel) : bool :=
  let '(lb, lg, lr) := lo in
  let '(ub, ug, ur) := up in
  let '(sb, sg, sr) := seed in
  let '(b, g, r) := p in
  channel_ok lb ub sb b && channel_ok lg ug sg g && channel_ok lr ur sr r.

Abbreviation Region := (list (list bool)).

Definition inside (R : Region) (y x : Z) : bool := default false (at2 R y x).

(** Pixels the fill may enter: within tolerance of the seed and not
    masked. *)
Definition fillable (image : Bgr) (mask : Gray) (lo up : Pixel) (seed : Pixel) : Region :=
  imap (fun y row =>
    imap (fun x p =>
      diff_ok lo up seed p
      && bool_decide (at2 mask (Z.of_nat y + 1) (Z.of_nat x + 1) = Some 0)) row) image.

Definition seed_region (image : Bgr) (sx sy : nat) : Region :=
  imap (fun y row => imap (fun x _ => (y =? sy)%nat && (x =? sx)%nat) row) image.

(** One round of growth to the 4-neighbours. *)
Definition grow_once (can R : Region) : Region :=
  imap (fun y row =>
    imap (fun x r =>
      let y := Z.of_nat y in
      let x := Z.of_nat x in
      r || (inside can y x
            && (inside R (y - 1) x || inside R (y + 1) x
                || inside R y (x - 1) || inside R y (x + 1)))) row) R.

Fixpoint grow (fuel : nat) (can R : Region) : Region :=
  match fuel with
  | O => R
  | S fuel' => grow fuel' can (grow_once can R)
  end.

(** The filled region: the 4-connected component of the seed; a round
    adds a pixel or changes nothing, so [h * w] rounds reach it. *)
Definition filled_region (image : Bgr) (mask : Gray) (sx sy : nat) (lo up : Pixel) : Region :=
  match at2 image (Z.of_nat sy) (Z.of_nat sx) with
  | Some seed =>
      grow (shape0 image * shape1 image)
           (fillable image mask lo up seed) (seed_region image sx sy)
  | None => (fun row : list Pixel => (fun _ => false) <$> row) <$> image
  end.

(** Coordinates [(x, y)] of the filled pixels. *)
Definition filled_points (R : Region) : list (Z * Z) :=
  concat (imap (fun y row =>
    omap id (imap (fun x (r : bool) =>
      if r then Some (Z.of_nat x, Z.of_nat y) else None) row)) R).

Definition boundingRect (pts : list (Z * Z)) : Rect :=
  match pts with
  | [] => mkRect 0 0 0 0
  | (x0, y0) :: rest =>
      let xmin := foldr Z.min x0 (fst <$> rest) in
      let xmax := foldr Z.max x0 (fst <$> rest) in
      let ymin := foldr Z.min y0 (snd <$> rest) in
      let ymax := foldr Z.max y0 (snd <$> rest) in
      mkRect xmin ymin (xmax - xmin + 1) (ymax - ymin + 1)
  end.

(** The mask after the fill. *)
Definition fill_mask (mask : Gray) (R : Region) : Gray :=
  let rows := Z.of_nat (shape0 mask) in
  let cols := Z.of_nat (shape1 mask) in
  imap (fun my row =>
    imap (fun mx v =>
      let my := Z.of_nat my in
      let mx := Z.of_nat mx in
      if (my =? 0) || (my =? rows - 1) || (mx =? 0) || (mx =? cols - 1) then 1
      else if inside R (my - 1) (mx - 1) then 1 else v) row) mask.

(** The image after the fill. *)
Definition fill_image (image : Bgr) (R : Region) (newVal : Pixel) : Bgr :=
  imap (fun y row =>
    imap (fun x p => if inside R (Z.of_nat y) (Z.of_nat x) then newVal else p) row) image.

(** Returns [(retval, image, mask, rect)] as the binding does. *)
Definition floodFill (image : Bgr) (mask : Gray) (seedPoint : nat * nat)
    (newVal lo up : Pixel) : Z * Bgr * Gray * Rect :=
  let R := filled_region image mask seedPoint.1 seedPoint.2 lo up in
  let pts := filled_points R in
  (Z.of_nat (length pts), fill_image image R newVal, fill_mask mask R, boundingRect pts).

(** *** Nearest-neighbour resize

    [cv2.resize(src, (dw, dh), interpolation=cv2.INTER_NEAREST)]:
    destination pixel [(x, y)] copies source pixel
    [(min(floor(x * ifx), sw - 1), min(floor(y * ify), sh - 1))], with
    [ifx = 1 / (dw / sw)] and [ify = 1 / (dh / sh)] computed in binary64.
    OpenCV refuses an empty source and a size that is not positive; the
    definition is for the other inputs. *)
Definition nearest_index (d s : Z) (i : Z) : Z :=
  let f := fdiv (float_of_int d) (float_of_int s) in
  let inv := fdiv (float_of_int 1) f in
  Z.min (Py.floor (fmul (float_of_int i) inv)) (s - 1).

Definition resize (src : Gray) (dsize : Z * Z) : Gray :=
  let '(dw, dh) := dsize in
  let sh := Z.of_nat (shape0 src) in
  let sw := Z.of_nat (shape1 src) in
  (fun y =>
     (fun x =>
        default 0 (at2 src (nearest_index dh sh (Z.of_nat y))
                           (nearest_index dw sw (Z.of_nat x))))
     <$> seq 0 (Z.to_nat dw))
  <$> seq 0 (Z.to_nat dh).

End Cv.

Import Cv.

(** [cv2.groupRectangles(rectList, groupThreshold, eps)]: with a
    non-positive threshold, or no rectangle, the list comes back as it is;
    otherwise the rectangles are clustered, small clusters dropped and one
    average rectangle per cluster returned ([cluster]). *)
Definition groupRectangles (cluster : list Rect -> Z -> spec_float -> list Rect)
    (rectList : list Rect) (groupThreshold : Z) (eps : spec_float) : list Rect :=
  if (groupThreshold <=? 0) || bool_decide (rectList = []) then rectList
  else cluster rectList groupThreshold eps.

(** The OpenCV routines the pipeline treats as black boxes. *)
Record OpenCV : Type := mkOpenCV {
  (** [cv2.cvtColor(image, cv2.COLOR_BGR2GRAY)] *)
  cvtColor_BGR2GRAY : Bgr -> Gray;
  (** [cv2.blur(gray, ksize)] *)
  blur : Gray -> Z * Z -> Gray;
  (** [cv2.threshold(src, thresh, maxval, THRESH_BINARY_INV | THRESH_OTSU)[1]] *)
  threshold_BINARY_INV_OTSU : Gray -> Z -> Z -> Gray;
  (** the clustering step of [cv2.groupRectangles] *)
  cluster_rectangles : list Rect -> Z -> spec_float -> list Rect;
}.

(** ** Parameters and the store *)

Abbreviation dict := (gmap string Z).
Abbreviation loc := positive.
(** The dictionaries callers hold, by location. *)
Abbreviation store := (gmap positive (gmap string Z)).

Definition PARAMS_DEFAULT_items : list (string * Z) :=
  [ ("no_background_mask_blur_kernel_x"%string, 3);
    ("no_background_mask_blur_kernel_y"%string, 3);
    ("no_background_mask_threshold"%string, 180);
    ("no_background_mask_erode_kernel_x"%string, 3);
    ("no_background_mask_erode_kernel_y"%string, 2);
    ("floodfill_threshold"%string, 39);
    ("group_threshold"%string, 2);
    ("min_character_width"%string, 34);
    ("max_character_width"%string, 110);
    ("min_character_height"%string, 34);
    ("max_character_height"%string, 110);
    ("min_pixel_density"%string, 12);
    ("rects_group_threshold"%string, 2);
    ("rects_group_eps"%string, 45) ].

(** The module-level table; nothing in the module writes to it. *)
Definition PARAMS_DEFAULT : gmap string Z := list_to_map PARAMS_DEFAULT_items.

(** [if param_key not in params: params[param_key] = param_default_val] *)
Definition fill_missing (params : gmap string Z) (item : string * Z) : gmap string Z :=
  match params !! item.1 with
  | None => <[item.1 := item.2]> params
  | Some _ => params
  end.

(** Lines 79-84.  With [params is None] the name is bound to the default
    table; otherwise the loop writes into the caller's dictionary, the
    object at [l] in the store.  Returns the store after the writes and the
    content of the dictionary that [params] names from then on. *)
Definition resolve_params (sto : store) (params : option loc) : store * gmap string Z :=
  match params with
  | None => (sto, PARAMS_DEFAULT)
  | Some l =>
      let d := foldl fill_missing (sto !!! l) PARAMS_DEFAULT_items in
      (<[l := d]> sto, d)
  end.

(** [params[key]]; every key read below is a default key, present after
    [resolve_params] (lemma [resolved_has_read_keys]), so no [KeyError]
    arises. *)
Definition param (params : gmap string Z) (key : string) : Z := params !!! key.

(** ** The pipeline *)

Section Pipeline.

Context (cv : OpenCV).

(** Lines 122-130: the foreground mask. *)
Definition background_mask (params : gmap string Z) (image : Bgr) : Gray :=
  let gray := cvtColor_BGR2GRAY cv image in
  let blur_kernel := (param params "no_background_mask_blur_kernel_x",
                      param params "no_background_mask_blur_kernel_y") in
  let gray_blurred := blur cv gray blur_kernel in
  let no_background_mask :=
    threshold_BINARY_INV_OTSU cv gray_blurred (param params "no_background_mask_threshold") 255 in
  let kernel := (param params "no_background_mask_erode_kernel_x",
                 param params "no_background_mask_erode_kernel_y") in
  erode no_background_mask kernel.

(** Lines 155-168: the candidate grown from the seed [(x, image_h // 2)]:
    its mask and its bounding rectangle. *)
Definition grow_candidate (image_masked : Bgr) (no_background_mask : Gray)
    (color_threshold : Pixel) (image_w image_h : nat) (x : nat) : Gray * Rect :=
  let mask_temp := zeros (image_h + 2) (image_w + 2) in
  let '(_, debug_result, floodfill_mask, rect) :=
    floodFill image_masked mask_temp (x, (image_h / 2)%nat)
              (255, 255, 255) color_threshold color_threshold in
  let character_mask :=
    bitwise_and (mul_u8 (slice2 floodfill_mask 0 (-2) 0 (-2)) 255) no_background_mask in
  (character_mask, rect).

(** [pixels / (rect_w * rect_h) * 100] *)
Definition density (pixels rect_w rect_h : Z) : outcome spec_float :=
  q ← truediv pixels (rect_w * rect_h);
  mret (fmul q (float_of_int 100)).

(** Lines 171-186: does the candidate pass the size and density filter? *)
Definition passes_filter (params : gmap string Z) (character_mask : Gray) (rect : Rect)
    : outcome bool :=
  let '(mkRect rect_x rect_y rect_w rect_h) := rect in
  if (param params "min_character_width" <=? rect_w)
     && (rect_w <=? param params "max_character_width")
     && (param params "min_character_height" <=? rect_h)
     && (rect_h <=? param params "max_character_height")
  then
    let pixels :=
      countNonZero (slice2 character_mask rect_y (rect_y + rect_h) rect_x (rect_x + rect_w)) in
    if pixels =? 0 then mret false
    else
      d ← density pixels rect_w rect_h;
      if float_lt_int d (param params "min_pixel_density") then mret false
      else mret true
  else mret false.

(** The variables the sweep updates. *)
Record scan_state : Type := mkScan {
  rects : list Rect;
  characters_mask : Gray;
  debug_ctr : Z;
}.

(** Line 189: [debug and x % (image_w // 20) == 0 and debug_ctr < 6]; the
    drawing it guards only writes to the debug canvas. *)
Definition debug_sample (debug : bool) (image_w x : nat) (ctr : Z) : outcome Z :=
  if debug then
    m ← mod_ (Z.of_nat x) (Z.of_nat image_w / 20);
    mret (if (m =? 0) && (ctr <? 6) then ctr + 1 else ctr)
  else mret ctr.

(** Lines 152-200: the body of the sweep at column [x]. *)
Definition visit (params : gmap string Z) (debug : bool) (image_masked : Bgr)
    (no_background_mask : Gray) (image_w image_h : nat) (x : nat) (st : scan_state)
    : outcome scan_state :=
  if bool_decide (default 0 (at2 no_background_mask (Z.of_nat (image_h / 2)) (Z.of_nat x)) = 0)
  then mret st
  else
    let t := param params "floodfill_threshold" in
    let '(character_mask, rect) :=
      grow_candidate image_masked no_background_mask (t, t, t) image_w image_h x in
    ok ← passes_filter params character_mask rect;
    if ok : bool then
      ctr ← debug_sample debug image_w x (debug_ctr st);
      mret (mkScan (rects st ++ [rect])
                   (bitwise_or character_mask (characters_mask st))
                   ctr)
    else mret st.

(** [for x in range(0, image_w)] *)
Fixpoint sweep (params : gmap string Z) (debug : bool) (image_masked : Bgr)
    (no_background_mask : Gray) (image_w image_h : nat) (xs : list nat) (st : scan_state)
    : outcome scan_state :=
  match xs with
  | [] => mret st
  | x :: xs' =>
      st' ← visit params debug image_masked no_background_mask image_w image_h x st;
      sweep params debug image_masked no_background_mask image_w image_h xs' st'
  end.

(** Lines 146-200. *)
Definition scan (params : gmap string Z) (debug : bool) (image : Bgr) : outcome scan_state :=
  let image_w := shape1 image in
  let image_h := shape0 image in
  let no_background_mask := background_mask params image in
  let mask_bgr := cvtColor_GRAY2BGR no_background_mask in
  let image_masked := bitwise_and_bgr image mask_bgr in
  sweep params debug image_masked no_background_mask image_w image_h
        (seq 0 image_w) (mkScan [] (zeros image_h image_w) 0).

(** Lines 212-213: the mask refiner. *)
Definition refine (characters_mask : Gray) : Gray :=
  erode (dilate characters_mask (3, 3)) (3, 3).

(** Lines 235-238: one character cut out of the refined mask. *)
Definition cut_character (characters_mask : Gray) (output_width output_height : option Z)
    (rect : Rect) : Gray :=
  let '(mkRect x y w h) := rect in
  let character := slice2 characters_mask y (y + h) x (x + w) in
  match output_width, output_height with
  | Some ow, Some oh => resize character (ow, oh)
  | _, _ => character
  end.

(** [size is not None and size > limit] *)
Definition exceeds (size : option Z) (limit : nat) : bool :=
  match size with
  | Some v => Z.of_nat limit <? v
  | None => false
  end.

(** Lines 86-93: the check of the requested output size. *)
Definition check_output_size (image : Bgr) (output_width output_height : option Z)
    : outcome unit :=
  let image_w := shape1 image in
  let image_h := shape0 image in
  if exceeds output_width image_w
  then Raise (Exception "output_width must be less or equal to the image width")
  else if exceeds output_height image_h
  then Raise (Exception "output_height must be less or equal to the image height")
  else mret tt.

(** Lines 86-239 with [params] resolved: the characters, each with the
    rectangle it was cut from (the rectangle is kept to state where a
    character came from; the function returns the characters only).  Of
    the [debug] code the sampling test of line 189 is kept; the canvas and
    the window of lines 241-261 are not modelled. *)
Definition located_characters (params : gmap string Z) (image : Bgr)
    (output_width output_height : option Z) (debug : bool)
    : outcome (list (Rect * Gray)) :=
  _ ← check_output_size image output_width output_height;
  st ← scan params debug image;
  if bool_decide (rects st = []) then mret []
  else
    let rects_grouped :=
      groupRectangles (cluster_rectangles cv) (rects st)
        (param params "rects_group_threshold")
        (fdiv (float_of_int (param params "rects_group_eps")) (float_of_int 100)) in
    let characters_mask := refine (characters_mask st) in
    mret ((fun rect => (rect, cut_character characters_mask output_width output_height rect))
          <$> rects_grouped).

(** [extract_characters(image, output_width, output_height, debug, params)]
    run in store [sto]: the store after the call and the outcome. *)
Definition extract_characters (sto : store) (image : Bgr)
    (output_width output_height : option Z) (debug : bool) (params : option loc)
    : store * outcome (list Gray) :=
  let '(sto', resolved) := resolve_params sto params in
  (sto', chars ← located_characters resolved image output_width output_height debug;
       mret (snd <$> (chars : list (Rect * Gray)))).

End Pipeline.

(** ** Derived notions used to state the properties *)

(** [countNonZero(character_mask[rect_y : rect_y + rect_h, rect_x : rect_x + rect_w])] *)
Definition pixels_inside (character_mask : Gray) (rect : Rect) : Z :=
  countNonZero (slice2 character_mask (rect_y rect) (rect_y rect + rect_h rect)
                       (rect_x rect) (rect_x rect + rect_w rect)).

(** The density the code computes: [pixels / (rect_w * rect_h) * 100] in
    binary64. *)
Definition density_binary64 (pixels : Z) (rect : Rect) : spec_float :=
  fmul (fdiv (float_of_int pixels) (float_of_int (rect_w rect * rect_h rect)))
       (float_of_int 100).

(** What the filter computes, without the exception plumbing (lemma
    [passes_filter_accepted]). *)
Definition accepted (params : gmap string Z) (character_mask : Gray) (rect : Rect) : bool :=
  let pixels := pixels_inside character_mask rect in
  (param params "min_character_width" <=? rect_w rect)
  && (rect_w rect <=? param params "max_character_width")
  && (param params "min_character_height" <=? rect_h rect)
  && (rect_h rect <=? param params "max_character_height")
  && negb (pixels =? 0)
  && negb (float_lt_int (density_binary64 pixels rect) (param params "min_pixel_density")).

Section Candidates.

Context (params : gmap string Z) (image_masked : Bgr) (no_background_mask : Gray).
Context (image_w image_h : nat).

(** The column is a seed: the foreground mask is set on the middle row. *)
Definition is_seed (x : nat) : bool :=
  negb (bool_decide
          (default 0 (at2 no_background_mask (Z.of_nat (image_h / 2)) (Z.of_nat x)) = 0)).

(** The candidate grown at column [x]. *)
Definition candidate (x : nat) : Gray * Rect :=
  let t := param params "floodfill_threshold" in
  grow_candidate image_masked no_background_mask (t, t, t) image_w image_h x.

(** The column contributes a rectangle. *)
Definition accepts (x : nat) : bool :=
  is_seed x && accepted params (candidate x).1 (candidate x).2.

(** The rectangles the sweep collects: one per accepting column, in
    column order. *)
Definition accepted_rects (xs : list nat) : list Rect :=
  (fun x => (candidate x).2) <$> filter (fun x => accepts x = true) xs.

(** The masks of the accepting columns, merged into [acc]. *)
Definition merged_mask (xs : list nat) (acc : Gray) : Gray :=
  foldl (fun acc x => if accepts x then bitwise_or (candidate x).1 acc else acc) acc xs.

End Candidates.

Section Columns.

Context (cv : OpenCV).

(** The composited image the sweep fills (line 134). *)
Definition image_masked_of (params : gmap string Z) (image : Bgr) : Bgr :=
  bitwise_and_bgr image (cvtColor_GRAY2BGR (background_mask cv params image)).

(** Column [x] of [image] contributes a rectangle. *)
Definition column_accepts (params : gmap string Z) (image : Bgr) (x : nat) : bool :=
  accepts params (image_masked_of params image) (background_mask cv params image)
          (shape1 image) (shape0 image) x.

End Columns.

(** The requested output size does not fit the image. *)
Definition too_big (image : Bgr) (output_width output_height : option Z) : bool :=
  exceeds output_width (shape1 image) || exceeds output_height (shape0 image).

(** No column of the middle row passes the filter. *)
Definition no_candidate_survives (cv : OpenCV) (params : gmap string Z) (image : Bgr) : Prop :=
  forall x, (x < shape1 image)%nat -> column_accepts cv params image x = false.

(** The acceptance rule in the words of the specification, the density
    [100 * count / (width * height)] being the exact quotient. *)
Definition accepted_by_rule (params : gmap string Z) (character_mask : Gray) (rect : Rect)
    : Prop :=
  let count := pixels_inside character_mask rect in
  (param params "min_character_width" <= rect_w rect <= param params "max_character_width")
  /\ (param params "min_character_height" <= rect_h rect
      <= param params "max_character_height")
  /\ count <> 0
  /\ (inject_Z (param params "min_pixel_density")
      <= inject_Z (100 * count) / inject_Z (rect_w rect * rect_h rect))%Q.

(** The two dictionaries give the same value to each key of [keys]. *)
Definition same_on (keys : list string) (P1 P2 : gmap string Z) : Prop :=
  Forall (fun k => param P1 k = param P2 k) keys.

Definition background_keys : list string :=
  [ "no_background_mask_blur_kernel_x"%string; "no_background_mask_blur_kernel_y"%string;
    "no_background_mask_threshold"%string; "no_background_mask_erode_kernel_x"%string;
    "no_background_mask_erode_kernel_y"%string ].

Definition growth_keys : list string := [ "floodfill_threshold"%string ].

Definition filter_keys : list string :=
  [ "min_character_width"%string; "max_character_width"%string;
    "min_character_height"%string; "max_character_height"%string;
    "min_pixel_density"%string ].

Definition grouping_keys : list string :=
  [ "rects_group_threshold"%string; "rects_group_eps"%string ].

(** Every key the function reads after resolution. *)
Definition read_keys : list string :=
  background_keys ++ growth_keys ++ filter_keys ++ grouping_keys.

(** [P'] is [P] with [min_character_width], [min_character_height] and
    [min_pixel_density] possibly lowered, every other key as in [P]. *)
Definition relaxed (P' P : gmap string Z) : Prop :=
  (forall k,
      k <> "min_character_width"%string -> k <> "min_character_height"%string ->
      k <> "min_pixel_density"%string -> P' !! k = P !! k)
  /\ param P' "min_character_width" <= param P "min_character_width"
  /\ param P' "min_character_height" <= param P "min_character_height"
  /\ param P' "min_pixel_density" <= param P "min_pixel_density".

(** A float that is not a negative finite number. *)
Definition not_negative (f : spec_float) : Prop :=
  match f with
  | S754_finite true _ _ => False
  | _ => True
  end.

(** A pixel of a mask: 0 or 255. *)
Definition binary (v : Z) : Prop := v = 0 \/ v = 255.

(** The fill restricted to the image bounds, in the words of the
    specification: 255 at [(x, y)] exactly when image pixel [(x, y)] was
    filled. *)
Definition fill_within_image (R : Region) : Gray :=
  (fun row : list bool => (fun filled : bool => if filled then 255 else 0) <$> row) <$> R.

(** The character mask the specification describes: the fill within the
    image, ANDed with the foreground mask. *)
Definition aligned_character_mask (image_masked : Bgr) (no_background_mask : Gray)
    (color_threshold : Pixel) (image_w image_h : nat) (x : nat) : Gray :=
  let mask_temp := zeros (image_h + 2) (image_w + 2) in
  let R := filled_region image_masked mask_temp x (image_h / 2)%nat
                         color_threshold color_threshold in
  bitwise_and (fill_within_image R) no_background_mask.

(** The same mask read off OpenCV's output: the interior
    [floodfill_mask[1:-1, 1:-1]] of the returned mask. *)
Definition interior_character_mask (image_masked : Bgr) (no_background_mask : Gray)
    (color_threshold : Pixel) (image_w image_h : nat) (x : nat) : Gray :=
  let mask_temp := zeros (image_h + 2) (image_w + 2) in
  let '(_, _, floodfill_mask, _) :=
    floodFill image_masked mask_temp (x, (image_h / 2)%nat)
              (255, 255, 255) color_threshold color_threshold in
  bitwise_and (mul_u8 (slice2 floodfill_mask 1 (-1) 1 (-1)) 255) no_background_mask.

(** Number of filled cells, and number of cells. *)
Definition filled_cells (R : Region) : nat :=
  length (filter (fun b : bool => b = true) (concat R)).
Definition cells (R : Region) : nat := length (concat R).

(** A structuring element that holds the opposite of each of its offsets. *)
Definition symmetric (offs : list (Z * Z)) : Prop :=
  forall d, d ∈ offs -> (- d.1, - d.2) ∈ offs.

(** Dilation followed by erosion with the same structuring element. *)
Definition closing (offs : list (Z * Z)) (src : Gray) : Gray :=
  erode_offsets offs (dilate_offsets offs src).

(** An 8-bit value. *)
Definition u8 (v : Z) : Prop := 0 <= v <= 255.

(** The value [morph] writes at [(y, x)]. *)
Definition morph_at (op : Z -> Z -> Z) (border : Z) (offs : list (Z * Z)) (src : Gray)
    (y x : Z) : Z :=
  foldr (fun d acc => op (default border (at2 src (y + d.1) (x + d.2))) acc) border offs.

(** ** The black boxes on small two-level images

    Concrete routines used to run the pipeline on the examples below.  They
    agree with OpenCV on the inputs the examples use: images with at most
    two grey levels, a 1 x 1 blur and [rects_group_threshold = 0]. *)

Module TwoLevel.

(** 8-bit BGR to grey, [0.114 B + 0.587 G + 0.299 R] in fixed point:
    [(1868 B + 9617 G + 4899 R + 2^13) >> 14]. *)
Definition gray_of_pixel (p : Pixel) : Z :=
  let '(b, g, r) := p in
  Z.shiftr (1868 * b + 9617 * g + 4899 * r + 8192) 14.

Definition cvtColor_BGR2GRAY (image : Bgr) : Gray :=
  (fun row : list Pixel => gray_of_pixel <$> row) <$> image.

(** A 1 x 1 box blur leaves the image as it is. *)
Definition blur (gray : Gray) (ksize : Z * Z) : Gray := gray.

(** Otsu's cut on an image with two grey levels lies between them, and is 0
    on a uniform image; the inverted binary threshold maps values above the
    cut to 0 and the others to [maxval]. *)
Definition threshold_BINARY_INV_OTSU (src : Gray) (thresh maxval : Z) : Gray :=
  let values := concat src in
  let lo := foldr Z.min 255 values in
  let hi := foldr Z.max 0 values in
  let cut := if lo =? hi then 0 else lo in
  (fun row : list Z => (fun v => if cut <? v then 0 else maxval) <$> row) <$> src.

(** Not reached with [rects_group_threshold = 0]. *)
Definition cluster_rectangles (rectList : list Rect) (groupThreshold : Z) (eps : spec_float)
    : list Rect := rectList.

Definition cv : OpenCV :=
  mkOpenCV cvtColor_BGR2GRAY blur threshold_BINARY_INV_OTSU cluster_rectangles.

(** Colours: white paper, and two inks of the same grey level 30 that differ
    by more than the flood-fill tolerance. *)
Definition W : Pixel := (255, 255, 255).
Definition A : Pixel := (0, 0, 100).
Definition B : Pixel := (0, 51, 0).

(** A 6 x 5 captcha: glyph [B] reaches further left than glyph [A] but
    crosses the middle row to its right. *)
Definition captcha : Bgr :=
  [ [B; B; B; B; B; W];
    [B; B; B; B; B; W];
    [W; A; A; W; B; W];
    [W; A; A; W; W; W];
    [W; W; W; W; W; W] ].

(** A blank 6 x 5 sheet. *)
Definition blank : Bgr := replicate 5 (replicate 6 W).

(** Parameters for such small images. *)
Definition small_params : gmap string Z :=
  list_to_map
    [ ("no_background_mask_blur_kernel_x"%string, 1);
      ("no_background_mask_blur_kernel_y"%string, 1);
      ("min_character_width"%string, 1);
      ("min_character_height"%string, 1);
      ("min_pixel_density"%string, 1);
      ("rects_group_threshold"%string, 0) ].

(** The caller's dictionary is the object at location 1. *)
Definition caller : loc := 1%positive.
Definition sto0 : store := {[ caller := small_params ]}.

End TwoLevel.

Module Notch.

Import TwoLevel.

Definition glyph_row (n : nat) : list Pixel :=
  [W] ++ replicate n A ++ replicate (10 - n) W ++ [W].

(** A 12 x 9 captcha with one glyph: a 10 x 6 block with a notch in its
    last row. *)
Definition captcha : Bgr :=
  [ glyph_row 0; glyph_row 10; glyph_row 10; glyph_row 10; glyph_row 10;
    glyph_row 10; glyph_row 3; glyph_row 0; glyph_row 0 ].

(** The caller asks for a density of at least 58 percent. *)
Definition params : gmap string Z :=
  <["min_pixel_density"%string := 58]> small_params.

Definition sto : store := {[ caller := params ]}.

Definition resolved : gmap string Z := (resolve_params sto (Some caller)).2.

(** The candidate grown at column 1 of the middle row. *)
Definition grown : Gray * Rect :=
  candidate resolved (image_masked_of cv resolved captcha)
            (background_mask cv resolved captcha) 12 9 1.

End Notch.

Module Shifted.

Import TwoLevel.

Definition resolved : gmap string Z := (resolve_params sto0 (Some caller)).2.
Definition no_background_mask : Gray := background_mask cv resolved captcha.
Definition image_masked : Bgr := image_masked_of cv resolved captcha.

(** The candidate grown from glyph [A], at column 1 of the middle row. *)
Definition character_mask : Gray :=
  (grow_candidate image_masked no_background_mask (39, 39, 39) 6 5 1).1.

Definition filled : Region :=
  filled_region image_masked (zeros 7 8) 1 2 (39, 39, 39) (39, 39, 39).

End Shifted.

Module Stroke.

Import TwoLevel.

(** A 1 x 5 captcha: a vertical stroke of two ink pixels. *)
Definition captcha : Bgr := [[W]; [A]; [A]; [W]; [W]].

Definition resolved : gmap string Z := (resolve_params sto0 (Some caller)).2.

(** The aggregate mask the sweep builds on it. *)
Definition aggregate : Gray := [[0]; [0]; [255]; [0]; [0]].

End Stroke.

(** * The callers *)

(** ** The training set ([generate_dataset.py], [model.py]) *)

(** [model.py]: the input size of the network. *)
Definition INPUT_HEIGHT : Z := 64.
Definition INPUT_WIDTH : Z := 64.

#[global] Instance spec_float_eq_dec : EqDecision spec_float.
Proof. solve_decision. Defined.

Module Np32.

(** binary32, numpy's [float32]. *)
Definition prec32 : Z := 24.
Definition emax32 : Z := 128.

(** [np.float32(n)] for an integer [n]. *)
Definition float32_of_int (n : Z) : spec_float := binary_normalize prec32 emax32 n 0 false.

(** The cast of a [float64] to [float32], rounding to nearest even. *)
Definition float32_of_float64 (f : spec_float) : spec_float :=
  match f with
  | S754_finite s m e => binary_normalize prec32 emax32 (if s then Z.neg m else Z.pos m) e s
  | _ => f
  end.

Definition fdiv32 : spec_float -> spec_float -> spec_float := SFdiv prec32 emax32.

(** A [float32] array of two dimensions. *)
Abbreviation Image32 := (list (list spec_float)).

End Np32.

Import Np32.

(** A [str], as the list of its code points; the code points of an ASCII
    literal. *)
Abbreviation str := (list N).

Definition str_of (s : string) : str := Ascii.N_of_ascii <$> String.list_ascii_of_string s.

(** A label is a one-character [str], kept as its code point. *)
Abbreviation Label := N.

(** [a < b] on [str]: lexicographic on code points. *)
Fixpoint str_lt (a b : str) : bool :=
  match a, b with
  | _, [] => false
  | [], _ :: _ => true
  | x :: a', y :: b' => (x <? y)%N || ((x =? y)%N && str_lt a' b')
  end.

(** What a dataset file gives when it is opened and decoded (lines 69-71):
    [open], [read] or [cv2.imdecode] raises; [cv2.imdecode] returns [None];
    or the decoded image. *)
Inductive loaded : Type :=
| Unreadable
| Undecodable
| Decoded (image : Bgr).

(** A file found by [glob.glob]: the characters of its name without
    directory and extension (line 74) and what loading it gives. *)
Record dataset_file : Type := mkFile {
  file_labels : list Label;
  file_content : loaded;
}.

(** Lines 93-96: [dataset] is a dictionary from label to list of images;
    a Python dictionary keeps its keys in insertion order. *)
Definition dataset_add (dataset : list (Label * list Gray)) (sample : Label * Gray)
    : list (Label * list Gray) :=
  let '(label, character) := sample in
  if bool_decide (label ∈ dataset.*1)
  then (fun entry : Label * list Gray =>
          if bool_decide (entry.1 = label) then (entry.1, entry.2 ++ [character]) else entry)
       <$> dataset
  else dataset ++ [(label, [character])].

(** [dataset[label]], for a key of [dataset]. *)
Fixpoint dataset_get (dataset : list (Label * list Gray)) (label : Label) : list Gray :=
  match dataset with
  | [] => []
  | entry :: rest => if bool_decide (entry.1 = label) then entry.2 else dataset_get rest label
  end.

(** [image / 255.0] on a [uint8] array is a [float64] array, which
    [np.asarray(images, dtype=np.float32)] casts (lines 175-177). *)
Definition scale_pixel (v : Z) : spec_float :=
  float32_of_float64 (fdiv (float_of_int v) (float_of_int 255)).

Definition scale_image (image : Gray) : Image32 :=
  (fun row : list Z => scale_pixel <$> row) <$> image.

Section Dataset.

Context (cv : OpenCV).
(** [lb.lower()] on a one-character [str]: Unicode's lower-case mapping. *)
Context (lower : Label -> str).

(** [sorted(keys, key=lambda lb: lb.lower())]: the sort is stable and
    compares keys with [<]. *)
Fixpoint sorted_insert (label : Label) (l : list Label) : list Label :=
  match l with
  | [] => [label]
  | y :: l' =>
      if str_lt (lower y) (lower label) then y :: sorted_insert label l'
      else label :: y :: l'
  end.

Definition sorted_by_lower (keys : list Label) : list Label :=
  foldr sorted_insert [] keys.

(** Lines 66-100: the body of the loop over the files.  The [try] block
    catches every exception, so a file either adds all its characters or
    none. *)
Definition add_file (debug : bool) (params : option loc)
    (acc : store * list (Label * list Gray) * Z) (file : dataset_file)
    : store * list (Label * list Gray) * Z :=
  let '(sto, dataset, images_n) := acc in
  match file_content file with
  | Unreadable => acc
  | Undecodable =>
      (* [extract_characters(None, ...)] completes [params], then
         [image.shape] raises *)
      ((resolve_params sto params).1, dataset, images_n)
  | Decoded image =>
      let labels := file_labels file in
      let '(sto', outcome) :=
        extract_characters cv sto image (Some INPUT_WIDTH) (Some INPUT_HEIGHT) debug params in
      match outcome with
      | Raise _ => (sto', dataset, images_n)
      | Return characters =>
          if bool_decide (characters = []) then (sto', dataset, images_n)
          else if bool_decide (length labels <> length characters)
          then (sto', dataset, images_n)
          else (sto', foldl dataset_add dataset (zip labels characters),
                images_n + Z.of_nat (length labels))
      end
  end.

(** The cast of a Python [int] to [np.int16] that
    [np.asarray(label_idx, dtype=np.int16)] makes (line 178): the value
    modulo 2^16, in -32768..32767.  (NumPy 2 raises [OverflowError] for a
    value outside that range instead of wrapping; up to 32768 labels no
    index is outside it.) *)
Definition int16 (i : Z) : Z := (i + 32768) mod 65536 - 32768.

(** Lines 168-188: the two lists, the labels map and the number of labels. *)
Definition dataset_lists (dataset_sorted : list (Label * list Gray))
    : list Image32 * list Z * list Label * Z :=
  let label_idx :=
    int16 <$> concat (imap (fun i (entry : Label * list Gray) =>
                              replicate (length entry.2) (Z.of_nat i)) dataset_sorted) in
  let images :=
    concat ((fun entry : Label * list Gray => scale_image <$> entry.2) <$> dataset_sorted) in
  (images, label_idx, dataset_sorted.*1, Z.of_nat (length dataset_sorted)).

(** [generate_dataset(files_path, debug=debug, params=params)] with
    [target_size = 0], as [main] calls it, run in store [sto] on the files
    that [glob.glob] found: the store after the call and
    [(images, label_idx, labels_map, unique_labels)].  Lines 115-165 (the
    random expansion) run only for a positive [target_size]. *)
Definition generate_dataset (sto : store) (files : list dataset_file) (debug : bool)
    (params : option loc) : store * (list Image32 * list Z * list Label * Z) :=
  let '(sto', dataset, images_n) := foldl (add_file debug params) (sto, [], 0) files in
  if bool_decide (length dataset = 0%nat) then (sto', ([], [], [], 0))
  else
    let sorted_labels := sorted_by_lower dataset.*1 in
    let dataset_sorted :=
      (fun sorted_label => (sorted_label, dataset_get dataset sorted_label))
      <$> sorted_labels in
    (sto', dataset_lists dataset_sorted).

(** The characters a file contributes, one per label; none when the file
    is skipped. *)
Definition file_samples (sto : store) (debug : bool) (params : option loc)
    (file : dataset_file) : list (Label * Gray) :=
  match file_content file with
  | Decoded image =>
      match (extract_characters cv sto image (Some INPUT_WIDTH) (Some INPUT_HEIGHT)
                                debug params).2 with
      | Return characters =>
          if bool_decide (length (file_labels file) = length characters)
          then zip (file_labels file) characters
          else []
      | Raise _ => []
      end
  | _ => []
  end.

(** The samples of all files, in file order. *)
Definition all_samples (sto : store) (debug : bool) (params : option loc)
    (files : list dataset_file) : list (Label * Gray) :=
  files ≫= file_samples sto debug params.

End Dataset.

(** [Model(labels=labels)] (lines 54, 68-90): without [from_path], a
    non-positive number of labels is refused; otherwise the network is
    compiled with a last layer of [labels] units, which is what the model
    keeps of it here. *)
Definition Model_new (labels : Z) : outcome Z :=
  if labels <=? 0 then Raise (Exception "labels must be > 0 or provide from_file")
  else Return labels.

(** ** Notions for the training set *)

(** The labels in the order in which they are first seen: the keys of
    [dataset] after the loop. *)
Definition first_seen (labels : list Label) : list Label :=
  foldl (fun seen label => if bool_decide (label ∈ seen) then seen else seen ++ [label])
        [] labels.

(** The images filed under a label, in file order. *)
Definition images_of (samples : list (Label * Gray)) (label : Label) : list Gray :=
  (filter (fun s => s.1 = label) samples).*2.

(** The sorted dictionary [dataset_sorted]: the labels sorted by lower-case
    key, each with its images. *)
Definition grouped (lower : Label -> str) (samples : list (Label * Gray))
    : list (Label * list Gray) :=
  (fun label => (label, images_of samples label))
  <$> sorted_by_lower lower (first_seen samples.*1).

(** A store in which [params] resolves as in [sto]: [sto] itself, or [sto]
    after a call has completed the dictionary. *)
Definition resolves_alike (sto : store) (params : option loc) (s : store) : Prop :=
  resolve_params s params = resolve_params sto params.

(** A file that gets as far as the call of [extract_characters]. *)
Definition reaches_call (file : dataset_file) : bool :=
  match file_content file with Unreadable => false | _ => true end.

(** The key of [a] is not above the key of [b]. *)
Definition key_le (lower : Label -> str) (a b : Label) : Prop :=
  str_lt (lower b) (lower a) = false.

(** [main.py], lines 188-190: the dataset is generated and the model is
    made for its labels: the width of the network's last layer and the
    labels map it is given. *)
Definition new_model_for_dataset (cv : OpenCV) (lower : Label -> str) (sto : store)
    (files : list dataset_file) (debug : bool) (params : option loc)
    : outcome (Z * list Label) :=
  let '(images, label_idx, labels_map, unique_labels) :=
    (generate_dataset cv lower sto files debug params).2 in
  labels ← Model_new unique_labels;
  mret (labels, labels_map).

(** The two values of a scaled mask pixel: [0.0] and [1.0] in binary32. *)
Definition zero32 : spec_float := S754_zero false.
Definition one32 : spec_float := S754_finite false 8388608 (-23).

(** [model.py], line 148: [np.asarray(images, dtype=np.float32) / 255.0]
    divides in binary32. *)
Definition predict_pixel (v : Z) : spec_float :=
  fdiv32 (float32_of_int v) (float32_of_int 255).

(** ** Recognition ([model.py], [Model.predict]) *)

(** [np.isnan] *)
Definition isnan (f : spec_float) : bool :=
  match f with S754_nan => true | _ => false end.

(** [np.argmax(row)] on a one-dimensional float array: the index of the
    first maximum, a NaN counting as maximal; the scan remembers the best
    value [best], found at [best_i], and looks at position [i]. *)
Fixpoint argmax_from (best : spec_float) (best_i i : nat) (row : list spec_float) : nat :=
  match row with
  | [] => best_i
  | v :: row' =>
      if SFleb v best then argmax_from best best_i (S i) row'
      else if isnan v then i
      else argmax_from v i (S i) row'
  end.

(** [None]: numpy raises [ValueError] on an empty array. *)
Definition argmax (row : list spec_float) : option nat :=
  match row with
  | [] => None
  | v :: row' => Some (if isnan v then 0%nat else argmax_from v 0 1 row')
  end.

(** What [predict] can raise after the network has answered. *)
Inductive predict_error : Type :=
| IndexError
| ValueError.

(** Lines 151-154: [characters.append(self.labels_map[np.argmax(prediction)])]
    for each row of the predictions. *)
Fixpoint label_predictions (labels_map : list str) (predictions : list (list spec_float))
    : predict_error + list str :=
  match predictions with
  | [] => inr []
  | prediction :: rest =>
      match argmax prediction with
      | None => inl ValueError
      | Some i =>
          match labels_map !! i with
          | None => inl IndexError
          | Some label =>
              match label_predictions labels_map rest with
              | inl e => inl e
              | inr characters => inr (label :: characters)
              end
          end
      end
  end.

(** Line 148, for images of the input size. *)
Definition predict_input (images : list Gray) : list Image32 :=
  (fun image : Gray => (fun row : list Z => predict_pixel <$> row) <$> image) <$> images.

(** [Model.predict(images)] for images of [INPUT_HEIGHT] x [INPUT_WIDTH]
    pixels, as [extract_characters] returns them when asked for that size
    (the reshape of line 149 then only adds the channel axis).  [network]
    is [self.model.predict] of Keras. *)
Definition predict (labels_map : list str)
    (network : list Image32 -> list (list spec_float)) (images : list Gray)
    : predict_error + list str :=
  label_predictions labels_map (network (predict_input images)).

(** ** The server ([flask_server.py]) *)

Record Response : Type := mkResponse {
  status : Z;
  body : str;
  (** [None]: Flask's default *)
  mimetype : option string;
  (** the headers the handler adds *)
  headers : list (string * string);
}.

(** What lines 83-86 give for the text of a request: [base64.b64decode],
    [np.fromstring] or [cv2.imdecode] raises (with the text of the
    exception); [cv2.imdecode] returns [None]; or the decoded image. *)
Inductive uploaded : Type :=
| DecodeRaises (message : str)
| NotAnImage
| Image (image : Bgr).

(** [data.split(",")]: the pieces of [data] between the commas. *)
Fixpoint split_comma (data : str) : list str :=
  match data with
  | [] => [[]]
  | c :: data' =>
      if (c =? 44)%N then [] :: split_comma data'
      else match split_comma data' with
           | [] => [[c]]
           | piece :: pieces => (c :: piece) :: pieces
           end
  end.

(** Lines 83-84: [if "," in data: data = data.split(",")[1]]. *)
Definition payload (data : str) : str :=
  if bool_decide (44%N ∈ data) then default [] (split_comma data !! 1%nat) else data.

Section Server.

Context (cv : OpenCV).
(** [base64.b64decode], [np.fromstring] and [cv2.imdecode] on the payload *)
Context (decode_image : str -> uploaded).
(** [self._model.predict]: the text of the exception it raises, or the
    characters *)
Context (model_predict : list Gray -> str + list str).
(** writing the solved captcha to [save_results]: the text of the
    exception raised, if any *)
Context (write_png : str -> Bgr -> option str).
(** [str(e)] for the [ZeroDivisionError] of [x % 0] *)
Context (zero_division_text : str).

(** [str(e)] *)
Definition str_of_exn (e : exn) : str :=
  match e with
  | Exception msg => str_of msg
  | ZeroDivisionError => zero_division_text
  end.

(** The server's fields ([__init__], lines 61-64) and the files written. *)
Record server_state : Type := mkServer {
  server_store : store;
  saved : list (str * Bgr);
}.

(** Lines 81-108: the [try] block, giving the state after it and the
    response, before the lines 110-111 that both branches share. *)
Definition try_solve (save_results segmentation_debug : bool)
    (segmentation_params : option loc) (st : server_state) (data : str)
    : server_state * Response :=
  let failed (st : server_state) (message : str) := (st, mkResponse 500 message None []) in
  match decode_image (payload data) with
  | DecodeRaises message => failed st message
  | NotAnImage =>
      (* [extract_characters(None, ...)] completes the dictionary, then
         [image.shape] raises *)
      failed (mkServer (resolve_params (server_store st) segmentation_params).1 (saved st))
             (str_of "'NoneType' object has no attribute 'shape'")
  | Image image =>
      let '(sto', outcome) :=
        extract_characters cv (server_store st) image (Some INPUT_WIDTH) (Some INPUT_HEIGHT)
                           segmentation_debug segmentation_params in
      let st' := mkServer sto' (saved st) in
      match outcome with
      | Raise e => failed st' (str_of_exn e)
      | Return segments =>
          match model_predict segments with
          | inl message => failed st' message
          | inr characters =>
              let output := concat characters in
              if save_results then
                match write_png output image with
                | Some message => failed st' message
                | None =>
                    (mkServer sto' (saved st ++ [(output, image)]),
                     mkResponse 200 output None [])
                end
              else (st', mkResponse 200 output None [])
          end
      end
  end.

(** [_solve()] (lines 69-115) for a request with text [data]. *)
Definition solve (save_results segmentation_debug : bool)
    (segmentation_params : option loc) (st : server_state) (data : str)
    : server_state * Response :=
  if bool_decide (data = []) then (st, mkResponse 400 [] None [])
  else
    let '(st', response) :=
      try_solve save_results segmentation_debug segmentation_params st data in
    (st', mkResponse (status response) (body response) (Some "text/plain"%string)
                     (headers response ++ [("Access-Control-Allow-Origin"%string, "*"%string)])).

End Server.

(** [i] is the position of the first maximum of [row]. *)
Definition first_maximum (row : list spec_float) (i : nat) : Prop :=
  exists best,
    row !! i = Some best
    /\ forall j v, row !! j = Some v ->
                   SFleb v best = true /\ ((j < i)%nat -> SFltb v best = true).

(** ** Example files *)

Module Files.

Import TwoLevel.

(** [str.lower] on the ASCII letters; the other characters of the
    examples are their own lower case. *)
Definition ascii_lower (c : Label) : str :=
  if ((65 <=? c) && (c <=? 90))%N then [(c + 32)%N] else [c].

(** A 64 x 64 captcha with one glyph: a bar in the first column that
    crosses the middle row. *)
Definition bar : Bgr :=
  replicate 20 (replicate 64 W) ++ replicate 24 (A :: replicate 63 W)
  ++ replicate 20 (replicate 64 W).

(** Three files: one that cannot be opened, one that is no image, and
    [bar] under the name of the letter [a]. *)
Definition files : list dataset_file :=
  [ mkFile [98%N] Unreadable; mkFile [99%N] Undecodable; mkFile [97%N] (Decoded bar) ].

End Files.

(** * Properties *)

(** ** Parameter resolution *)

Lemma fill_missing_union (items : list (string * Z)) (d : gmap string Z) :
  foldl fill_missing d items = d ∪ list_to_map items.
Proof.
  revert d. induction items as [|[k v] items IH]; intros d; simpl.
  - by rewrite (right_id_L ∅ (∪)).
  - rewrite IH. unfold fill_missing; simpl.
    apply map_eq; intros i.
    rewrite !lookup_union.
    destruct (d !! k) as [w|] eqn:Hk.
    + destruct (decide (i = k)) as [->|Hne].
      * rewrite Hk, lookup_insert_eq. by destruct (list_to_map items !! k).
      * by rewrite lookup_insert_ne.
    + destruct (decide (i = k)) as [->|Hne].
      * rewrite !lookup_insert_eq, Hk. simpl.
        by destruct (list_to_map items !! k).
      * by rewrite !lookup_insert_ne.
Qed.

Lemma resolve_params_None (sto : store) :
  resolve_params sto None = (sto, PARAMS_DEFAULT).
Proof. reflexivity. Qed.

Lemma resolve_params_Some (sto : store) (l : loc) :
  resolve_params sto (Some l)
  = (<[l := (sto !!! l) ∪ PARAMS_DEFAULT]> sto, (sto !!! l) ∪ PARAMS_DEFAULT).
Proof. unfold resolve_params. by rewrite fill_missing_union. Qed.

Lemma PARAMS_DEFAULT_size : size PARAMS_DEFAULT = 14%nat.
Proof. vm_compute. reflexivity. Qed.

(** After resolution every key the function reads is in the dictionary. *)
Lemma resolved_has_read_keys (sto : store) (params : option loc) (k : string) :
  k ∈ read_keys -> is_Some ((resolve_params sto params).2 !! k).
Proof.
  intros Hk.
  assert (is_Some (PARAMS_DEFAULT !! k)) as [v Hv].
  { revert Hk. unfold read_keys, background_keys, growth_keys, filter_keys, grouping_keys.
    simpl. rewrite !elem_of_cons, elem_of_nil.
    intros H. repeat (destruct H as [->|H]; [by eexists|]). done. }
  destruct params as [l|]; [|by rewrite resolve_params_None; eauto].
  rewrite resolve_params_Some. simpl. rewrite lookup_union, Hv.
  destruct ((sto !!! l) !! k); eauto.
Qed.

(** ** The filter never raises *)

Lemma slice_same {A} (l : list A) (i : Z) : Py.slice l i i = [].
Proof. unfold Py.slice. by rewrite Nat.sub_diag. Qed.

Lemma countNonZero_empty_rows (rows : list (list Z)) :
  Forall (fun row => row = []) rows -> countNonZero rows = 0.
Proof.
  intros H. unfold countNonZero.
  assert (concat rows = []) as ->; [|done].
  induction H as [|row rows -> _ IH]; simpl; auto.
Qed.

Lemma countNonZero_degenerate (m : Gray) (x y w h : Z) :
  w * h = 0 -> countNonZero (slice2 m y (y + h) x (x + w)) = 0.
Proof.
  intros Hwh. apply countNonZero_empty_rows. unfold slice2.
  destruct (Z.eq_dec h 0) as [->|Hh].
  - rewrite Z.add_0_r, slice_same. constructor.
  - assert (w = 0) as -> by nia.
    apply Forall_fmap, Forall_forall. intros row _. simpl.
    rewrite Z.add_0_r. apply slice_same.
Qed.

Lemma density_returns (pixels w h : Z) :
  w * h <> 0 ->
  density pixels w h
  = Return (fmul (fdiv (float_of_int pixels) (float_of_int (w * h))) (float_of_int 100)).
Proof.
  intros H. unfold density, truediv.
  destruct (Z.eqb_spec (w * h) 0); [done|]. reflexivity.
Qed.

Lemma passes_filter_accepted (params : gmap string Z) (m : Gray) (rect : Rect) :
  passes_filter params m rect = Return (accepted params m rect).
Proof.
  destruct rect as [x y w h].
  unfold passes_filter, accepted, pixels_inside, density_binary64. simpl.
  destruct (_ && _ && _ && _); [|done]. simpl.
  destruct (Z.eqb_spec (countNonZero (slice2 m y (y + h) x (x + w))) 0) as [E|E]; [done|].
  rewrite density_returns.
  - simpl. unfold mbind, outcome_bind, Py.bind. by destruct (float_lt_int _ _).
  - intros Hwh. by apply E, countNonZero_degenerate.
Qed.

(** ** The sweep *)

Section SweepFacts.

Context (cv : OpenCV).
Context (params : gmap string Z) (image_masked : Bgr) (no_background_mask : Gray).
Context (image_w image_h : nat).

Local Abbreviation candidate_at :=
  (candidate params image_masked no_background_mask image_w image_h).
Local Abbreviation accepts_at :=
  (accepts params image_masked no_background_mask image_w image_h).
Local Abbreviation accepted_rects_at :=
  (accepted_rects params image_masked no_background_mask image_w image_h).
Local Abbreviation merged_mask_at :=
  (merged_mask params image_masked no_background_mask image_w image_h).

Lemma visit_unfold (debug : bool) (x : nat) (st : scan_state) :
  visit params debug image_masked no_background_mask image_w image_h x st
  = if accepts_at x then
      ctr ← debug_sample debug image_w x (debug_ctr st);
      mret (mkScan (rects st ++ [(candidate_at x).2])
                   (bitwise_or (candidate_at x).1 (characters_mask st)) ctr)
    else mret st.
Proof.
  unfold visit, accepts, is_seed, candidate.
  destruct (bool_decide _); [done|]. cbn [negb andb].
  destruct (grow_candidate _ _ _ _ _ _) as [cm rect]. cbn [fst snd].
  rewrite passes_filter_accepted.
  unfold mbind, outcome_bind, Py.bind. by destruct (accepted _ _ _).
Qed.

Lemma debug_sample_off (x : nat) (ctr : Z) :
  debug_sample false image_w x ctr = Return ctr.
Proof. reflexivity. Qed.

Lemma debug_sample_outcome (debug : bool) (x : nat) (ctr : Z) :
  (exists ctr', debug_sample debug image_w x ctr = Return ctr')
  \/ debug_sample debug image_w x ctr = Raise ZeroDivisionError.
Proof.
  unfold debug_sample, mod_. destruct debug; [|eauto].
  destruct (_ =? 0); simpl; eauto.
Qed.

Lemma debug_sample_wide (debug : bool) (x : nat) (ctr : Z) :
  (20 <= image_w)%nat ->
  exists ctr', debug_sample debug image_w x ctr = Return ctr'.
Proof.
  intros Hw. unfold debug_sample, mod_. destruct debug; [|eauto].
  destruct (Z.eqb_spec (Z.of_nat image_w / 20) 0) as [E|E]; simpl; eauto.
  exfalso. assert (1 <= Z.of_nat image_w / 20); [|lia].
  apply Z.div_le_lower_bound; lia.
Qed.

Lemma sweep_returns (debug : bool) (xs : list nat) (st st' : scan_state) :
  sweep params debug image_masked no_background_mask image_w image_h xs st = Return st' ->
  rects st' = rects st ++ accepted_rects_at xs
  /\ characters_mask st' = merged_mask_at xs (characters_mask st).
Proof.
  revert st. induction xs as [|x xs IH]; intros st; simpl.
  - intros [= <-]. unfold accepted_rects. simpl. by rewrite app_nil_r.
  - rewrite visit_unfold. unfold accepted_rects, merged_mask. simpl.
    destruct (accepts _ _ _ _ _ x) eqn:Hx; simpl.
    + rewrite filter_cons_True by done.
      destruct (debug_sample debug image_w x (debug_ctr st)) as [ctr|e]; simpl; [|done].
      intros H. apply IH in H as [-> ->]. simpl.
      by rewrite <-app_assoc.
    + rewrite filter_cons_False by (rewrite Hx; done). apply IH.
Qed.

Lemma sweep_raises (debug : bool) (xs : list nat) (st : scan_state) (e : exn) :
  sweep params debug image_masked no_background_mask image_w image_h xs st = Raise e ->
  e = ZeroDivisionError /\ debug = true /\ (image_w < 20)%nat
  /\ exists x, x ∈ xs /\ accepts_at x = true.
Proof.
  revert st. induction xs as [|x xs IH]; intros st; simpl; [done|].
  rewrite visit_unfold. destruct (accepts _ _ _ _ _ x) eqn:Hx; simpl.
  - destruct (debug_sample debug image_w x (debug_ctr st)) as [ctr|e'] eqn:Hd; simpl.
    + intros H. apply IH in H as (-> & -> & Hw & y & Hy & Ha).
      repeat split; auto. exists y. split; [by right|done].
    + intros [= <-].
      destruct (debug_sample_outcome debug x (debug_ctr st)) as [[c Hc]|Hr]; [congruence|].
      split; [congruence|].
      destruct debug; [|by rewrite debug_sample_off in Hd].
      split; [done|]. split.
      * destruct (le_lt_dec 20 image_w) as [Hw|Hw]; [|done].
        destruct (debug_sample_wide true x (debug_ctr st) Hw) as [c Hc]. congruence.
      * exists x. split; [by left|done].
  - intros H. apply IH in H as (-> & -> & Hw & y & Hy & Ha).
    repeat split; auto. exists y. split; [by right|done].
Qed.

Lemma sweep_total (debug : bool) (xs : list nat) (st : scan_state) :
  debug = false \/ (20 <= image_w)%nat ->
  exists st', sweep params debug image_masked no_background_mask image_w image_h xs st
              = Return st'.
Proof.
  intros Hd.
  destruct (sweep params debug image_masked no_background_mask image_w image_h xs st)
    as [st'|e] eqn:H; [eauto|].
  apply sweep_raises in H as (_ & -> & Hw & _). destruct Hd; [done|lia].
Qed.

End SweepFacts.

(** ** The whole function *)

Section RunFacts.

Context (cv : OpenCV).

Lemma scan_is_sweep (params : gmap string Z) (debug : bool) (image : Bgr) :
  scan cv params debug image
  = sweep params debug (image_masked_of cv params image) (background_mask cv params image)
          (shape1 image) (shape0 image) (seq 0 (shape1 image))
          (mkScan [] (zeros (shape0 image) (shape1 image)) 0).
Proof. reflexivity. Qed.

Lemma extract_characters_outcome (sto : store) (image : Bgr) (ow oh : option Z)
    (debug : bool) (params : option loc) :
  (extract_characters cv sto image ow oh debug params).2
  = (chars ← located_characters cv (resolve_params sto params).2 image ow oh debug;
     mret (snd <$> (chars : list (Rect * Gray)))).
Proof. unfold extract_characters. by destruct (resolve_params sto params). Qed.

Lemma extract_characters_store (sto : store) (image : Bgr) (ow oh : option Z)
    (debug : bool) (params : option loc) :
  (extract_characters cv sto image ow oh debug params).1 = (resolve_params sto params).1.
Proof. unfold extract_characters. by destruct (resolve_params sto params). Qed.

Lemma check_output_size_outcome (image : Bgr) (ow oh : option Z) :
  if too_big image ow oh
  then exists msg, check_output_size image ow oh = Raise (Exception msg)
  else check_output_size image ow oh = Return tt.
Proof.
  unfold too_big, check_output_size.
  destruct (exceeds ow _); simpl; [eauto|].
  destruct (exceeds oh _); simpl; eauto.
Qed.

Lemma located_characters_too_big (params : gmap string Z) (image : Bgr)
    (ow oh : option Z) (debug : bool) :
  too_big image ow oh = true ->
  exists msg, check_output_size image ow oh = Raise (Exception msg)
              /\ located_characters cv params image ow oh debug = Raise (Exception msg).
Proof.
  intros H. pose proof (check_output_size_outcome image ow oh) as Hc.
  rewrite H in Hc. destruct Hc as [msg Hc].
  unfold located_characters. rewrite Hc. simpl. eauto.
Qed.

Lemma located_characters_fits (params : gmap string Z) (image : Bgr)
    (ow oh : option Z) (debug : bool) :
  too_big image ow oh = false ->
  located_characters cv params image ow oh debug
  = (st ← scan cv params debug image;
     mret ((fun rect => (rect, cut_character (refine (characters_mask st)) ow oh rect))
           <$> groupRectangles (cluster_rectangles cv) (rects st)
                 (param params "rects_group_threshold")
                 (fdiv (float_of_int (param params "rects_group_eps")) (float_of_int 100)))).
Proof.
  intros H. pose proof (check_output_size_outcome image ow oh) as Hc.
  rewrite H in Hc. unfold located_characters. rewrite Hc. simpl.
  destruct (scan cv params debug image) as [st|e]; simpl; [|done].
  case_bool_decide as Hr; [|done].
  rewrite Hr. unfold groupRectangles. rewrite bool_decide_eq_true_2 by done.
  by rewrite orb_true_r.
Qed.

Lemma scan_raises (params : gmap string Z) (debug : bool) (image : Bgr) (e : exn) :
  scan cv params debug image = Raise e ->
  e = ZeroDivisionError /\ debug = true /\ (shape1 image < 20)%nat.
Proof. rewrite scan_is_sweep. intros H. apply sweep_raises in H. tauto. Qed.

Lemma scan_total (params : gmap string Z) (debug : bool) (image : Bgr) :
  debug = false \/ (20 <= shape1 image)%nat ->
  exists st, scan cv params debug image = Return st.
Proof. rewrite scan_is_sweep. apply sweep_total. Qed.

End RunFacts.

(** ** C1: the output-size check *)

(** C1 fails on the code.  On the 6 x 5 captcha no output size is
    requested, so the check of lines 86-93 has nothing to refuse, and with
    [debug] off the call returns its three characters; with [debug] on,
    line 189 divides by [image_w // 20 = 0] at the first accepted candidate
    and the call raises [ZeroDivisionError], an error that no output size
    accounts for. *)
Theorem C1_raises_although_size_fits :
  too_big TwoLevel.captcha None None = false
  /\ (extract_characters TwoLevel.cv TwoLevel.sto0 TwoLevel.captcha None None false
                          (Some TwoLevel.caller)).2
     = Return [[[255; 255]; [255; 255]]; [[255; 255]; [255; 255]];
               [[255; 255; 255; 255; 255]; [255; 255; 255; 255; 255];
                [255; 255; 255; 255; 255]]]
  /\ (extract_characters TwoLevel.cv TwoLevel.sto0 TwoLevel.captcha None None true
                          (Some TwoLevel.caller)).2
     = Raise ZeroDivisionError.
Proof. split; [|split]; vm_compute; reflexivity. Qed.

(** ** C3: no candidate, empty list *)

Lemma filter_none {A} (P : A -> Prop) `{forall x, Decision (P x)} (l : list A) :
  Forall (fun x => ~ P x) l -> filter P l = [].
Proof.
  induction 1 as [|x l Hx _ IH]; [done|]. by rewrite filter_cons_False.
Qed.

Lemma no_candidate_no_rects (cv : OpenCV) (params : gmap string Z) (debug : bool)
    (image : Bgr) :
  no_candidate_survives cv params image ->
  exists st, scan cv params debug image = Return st /\ rects st = [].
Proof.
  intros Hno. rewrite scan_is_sweep.
  destruct (sweep _ _ _ _ _ _ _ _) as [st|e] eqn:Hs.
  - exists st. split; [done|]. apply sweep_returns in Hs as [-> _]. simpl.
    unfold accepted_rects.
    rewrite filter_none; [done|].
    apply Forall_forall. intros x Hx%elem_of_seq.
    specialize (Hno x). unfold column_accepts in Hno. rewrite Hno; [done|lia].
  - apply sweep_raises in Hs as (_ & _ & _ & x & Hx%elem_of_seq & Ha).
    specialize (Hno x). unfold column_accepts in Hno. rewrite Hno in Ha; [done|lia].
Qed.

(** C3.  When the requested size fits and no candidate passes the filter
    (the rectangle list is empty after the sweep), the call returns the
    empty list and raises nothing, whatever [debug] is and whatever the
    clustering routine would do: clustering, refinement and cropping are
    not reached. *)
Theorem C3_no_candidate_returns_empty (cv : OpenCV) (sto : store) (image : Bgr)
    (ow oh : option Z) (debug : bool) (params : option loc) :
  too_big image ow oh = false ->
  no_candidate_survives cv (resolve_params sto params).2 image ->
  (extract_characters cv sto image ow oh debug params).2 = Return [].
Proof.
  intros Hfit Hno. rewrite extract_characters_outcome.
  unfold located_characters.
  pose proof (check_output_size_outcome image ow oh) as Hc. rewrite Hfit in Hc.
  rewrite Hc. simpl.
  destruct (no_candidate_no_rects cv _ debug image Hno) as (st & -> & Hr). simpl.
  by rewrite bool_decide_eq_true_2.
Qed.

Lemma C3_witness :
  (extract_characters TwoLevel.cv TwoLevel.sto0 TwoLevel.blank (Some 6) (Some 5) true
                      (Some TwoLevel.caller)).2 = Return [].
Proof.
  apply C3_no_candidate_returns_empty.
  - vm_compute. reflexivity.
  - intros x Hx. change (shape1 TwoLevel.blank) with 6%nat in Hx.
    do 6 (destruct x as [|x]; [vm_compute; reflexivity|]). lia.
Defined.

(** ** C2: the order of the returned characters *)

(** C2, as stated, fails: on the 6 x 5 captcha the returned characters come
    from rectangles with x = 1, 1, 0, in that order. *)
Lemma C2_counterexample :
  exists chars,
    located_characters TwoLevel.cv (resolve_params TwoLevel.sto0 (Some TwoLevel.caller)).2
                       TwoLevel.captcha None None false = Return chars
    /\ (extract_characters TwoLevel.cv TwoLevel.sto0 TwoLevel.captcha None None false
                           (Some TwoLevel.caller)).2 = Return (snd <$> chars)
    /\ (fun c : Rect * Gray => rect_x c.1) <$> chars = [1; 1; 0]
    /\ ~ Sorted Z.le ((fun c : Rect * Gray => rect_x c.1) <$> chars).
Proof.
  eexists. split; [vm_compute; reflexivity|].
  split; [vm_compute; reflexivity|].
  split; [reflexivity|].
  simpl. intros H. inversion H as [|? ? H1 _]; subst.
  inversion H1 as [|? ? _ H2]; subst. inversion H2; subst. lia.
Qed.

(** What a returning call returns: the cuts at the grouped rectangles, in
    their order. *)
Lemma extract_characters_returned (cv : OpenCV) (sto : store) (image : Bgr) (ow oh : option Z)
    (debug : bool) (params : option loc) (chars : list Gray) :
  (extract_characters cv sto image ow oh debug params).2 = Return chars ->
  let resolved := (resolve_params sto params).2 in
  exists st,
    scan cv resolved debug image = Return st
    /\ let rects_grouped :=
         groupRectangles (cluster_rectangles cv) (rects st)
           (param resolved "rects_group_threshold")
           (fdiv (float_of_int (param resolved "rects_group_eps")) (float_of_int 100)) in
       located_characters cv resolved image ow oh debug
       = Return ((fun rect => (rect, cut_character (refine (characters_mask st)) ow oh rect))
                 <$> rects_grouped)
       /\ chars = cut_character (refine (characters_mask st)) ow oh <$> rects_grouped.
Proof.
  rewrite extract_characters_outcome. intros H resolved. fold resolved in H.
  destruct (too_big image ow oh) eqn:Hb.
  - destruct (located_characters_too_big cv resolved image ow oh debug Hb)
      as (msg & _ & Hl). by rewrite Hl in H.
  - rewrite located_characters_fits in H |- * by done.
    destruct (scan cv resolved debug image) as [st|e]; [|done].
    exists st. split; [done|]. simpl in *. split; [done|].
    injection H as <-. by rewrite <-list_fmap_compose.
Qed.

(** C2 (amended).  The characters are returned in the order in which
    [cv2.groupRectangles] returns the rectangles: the i-th character is the
    cut of the refined mask at the i-th grouped rectangle, so the
    x-coordinates of the source rectangles read along the returned list are
    those of the grouped list, in its order; no sort is applied. *)
Theorem C2_order_of_grouping (cv : OpenCV) (sto : store) (image : Bgr) (ow oh : option Z)
    (debug : bool) (params : option loc) (chars : list Gray) :
  (extract_characters cv sto image ow oh debug params).2 = Return chars ->
  let resolved := (resolve_params sto params).2 in
  exists st located,
    scan cv resolved debug image = Return st
    /\ located_characters cv resolved image ow oh debug = Return located
    /\ chars = snd <$> located
    /\ let rects_grouped :=
         groupRectangles (cluster_rectangles cv) (rects st)
           (param resolved "rects_group_threshold")
           (fdiv (float_of_int (param resolved "rects_group_eps")) (float_of_int 100)) in
       fst <$> located = rects_grouped
       /\ (fun c : Rect * Gray => rect_x c.1) <$> located = rect_x <$> rects_grouped
       /\ chars = cut_character (refine (characters_mask st)) ow oh <$> rects_grouped.
Proof.
  intros H resolved.
  destruct (extract_characters_returned cv sto image ow oh debug params chars H)
    as (st & Hscan & Hloc & Hchars).
  fold resolved in Hscan, Hloc, Hchars.
  eexists st, _. split; [exact Hscan|]. split; [exact Hloc|].
  split; [by rewrite Hchars, <-list_fmap_compose|].
  cbv zeta. rewrite <-!list_fmap_compose. split; [|split; [|exact Hchars]].
  - by rewrite list_fmap_id.
  - done.
Qed.

Lemma C2_witness :
  exists st,
    scan TwoLevel.cv (resolve_params TwoLevel.sto0 (Some TwoLevel.caller)).2 false
         TwoLevel.captcha = Return st
    /\ rects st = [mkRect 1 2 2 2; mkRect 1 2 2 2; mkRect 0 0 5 3].
Proof.
  destruct (C2_order_of_grouping TwoLevel.cv TwoLevel.sto0 TwoLevel.captcha None None false
              (Some TwoLevel.caller)
              [[[255; 255]; [255; 255]]; [[255; 255]; [255; 255]];
               [[255; 255; 255; 255; 255]; [255; 255; 255; 255; 255];
                [255; 255; 255; 255; 255]]])
    as (st & located & Hst & _).
  - vm_compute. reflexivity.
  - exists st. split; [exact Hst|].
    revert Hst. vm_compute. intros [= <-]. reflexivity.
Defined.

(** ** C4: the candidate filter *)

(** C4, as stated, fails: the candidate grown from the notched glyph has a
    10 x 5 rectangle holding 29 mask pixels, exactly 58 percent, and the
    threshold is 58; the code computes 29 / 50 * 100 = 57.99999999999999 in
    binary64 and rejects it, so the call returns no character. *)
Lemma C4_counterexample :
  Notch.grown.2 = mkRect 1 2 10 5
  /\ pixels_inside Notch.grown.1 Notch.grown.2 = 29
  /\ accepted_by_rule Notch.resolved Notch.grown.1 Notch.grown.2
  /\ float_lt_int (density_binary64 29 (mkRect 1 2 10 5)) 58 = true
  /\ passes_filter Notch.resolved Notch.grown.1 Notch.grown.2 = Return false
  /\ (extract_characters TwoLevel.cv Notch.sto Notch.captcha None None false
                         (Some TwoLevel.caller)).2 = Return [].
Proof.
  split; [vm_compute; reflexivity|].
  split; [vm_compute; reflexivity|].
  split.
  - unfold accepted_by_rule.
    replace (pixels_inside Notch.grown.1 Notch.grown.2) with 29
      by (vm_compute; reflexivity).
    replace (Notch.grown.2) with (mkRect 1 2 10 5) by (vm_compute; reflexivity).
    vm_compute. repeat split; discriminate.
  - repeat split; vm_compute; reflexivity.
Qed.

(** C4 (amended).  A grown candidate passes the filter exactly when its
    width and height lie within the inclusive bounds, the count of mask
    pixels inside its rectangle is not zero, and the density
    [count / (width * height) * 100], evaluated in binary64 as the code does,
    is not below [min_pixel_density].  The filter itself never raises.  At a
    seed column a rejected candidate leaves the rectangle list and the
    aggregate mask as they are, and an accepted one (with [debug] off, or an
    image at least 20 pixels wide) appends its rectangle and ORs its mask
    into the aggregate. *)
Theorem C4_filter_rule (params : gmap string Z) (character_mask : Gray) (rect : Rect) :
  (passes_filter params character_mask rect = Return true
   <-> (param params "min_character_width" <= rect_w rect
        <= param params "max_character_width")
       /\ (param params "min_character_height" <= rect_h rect
           <= param params "max_character_height")
       /\ pixels_inside character_mask rect <> 0
       /\ float_lt_int (density_binary64 (pixels_inside character_mask rect) rect)
                       (param params "min_pixel_density") = false)
  /\ (passes_filter params character_mask rect = Return true
      \/ passes_filter params character_mask rect = Return false)
  /\ forall (debug : bool) (image_masked : Bgr) (no_background_mask : Gray)
            (image_w image_h x : nat) (st : scan_state),
       is_seed no_background_mask image_h x = true ->
       candidate params image_masked no_background_mask image_w image_h x
       = (character_mask, rect) ->
       let step := visit params debug image_masked no_background_mask image_w image_h x st in
       (passes_filter params character_mask rect = Return false -> step = Return st)
       /\ (passes_filter params character_mask rect = Return true ->
           debug = false \/ (20 <= image_w)%nat ->
           exists ctr,
             step = Return (mkScan (rects st ++ [rect])
                                   (bitwise_or character_mask (characters_mask st)) ctr)).
Proof.
  rewrite passes_filter_accepted. split; [|split].
  - unfold accepted, pixels_inside, density_binary64. split.
    + intros [= H].
      repeat (apply andb_prop in H as [H ?]).
      repeat match goal with
             | H : negb _ = true |- _ => apply negb_true_iff in H
             | H : (_ <=? _) = true |- _ => apply Z.leb_le in H
             | H : (_ =? _) = false |- _ => apply Z.eqb_neq in H
             end.
      repeat split; assumption.
    + intros ((H1 & H2) & (H3 & H4) & H5 & H6). f_equal.
      apply Z.leb_le in H1, H2, H3, H4. apply Z.eqb_neq in H5.
      by rewrite H1, H2, H3, H4, H5, H6.
  - destruct (accepted params character_mask rect); auto.
  - intros debug image_masked no_background_mask image_w image_h x st Hseed Hcand step.
    subst step. rewrite visit_unfold. unfold accepts. rewrite Hseed, Hcand. simpl.
    split.
    + intros [= ->]. done.
    + intros [= ->] Hd.
      destruct Hd as [->|Hw].
      * exists (debug_ctr st). done.
      * destruct (debug_sample_wide image_w debug x (debug_ctr st) Hw) as [ctr ->].
        exists ctr. done.
Qed.

Lemma C4_witness :
  passes_filter (<["min_pixel_density"%string := 57]> Notch.resolved)
                Notch.grown.1 Notch.grown.2 = Return true.
Proof.
  apply (C4_filter_rule (<["min_pixel_density"%string := 57]> Notch.resolved)
                        Notch.grown.1 Notch.grown.2).
  replace (pixels_inside Notch.grown.1 Notch.grown.2) with 29 by (vm_compute; reflexivity).
  replace (Notch.grown.2) with (mkRect 1 2 10 5) by (vm_compute; reflexivity).
  vm_compute. repeat split; discriminate.
Defined.

(** ** Which parameters a stage reads *)

Ltac split_same_on :=
  unfold same_on, background_keys, growth_keys, filter_keys, grouping_keys in *;
  repeat match goal with
         | H : Forall _ (_ :: _) |- _ => apply Forall_cons_1 in H as [? H]
         | H : Forall _ [] |- _ => clear H
         end.

Section ReadFacts.

Context (cv : OpenCV).

Lemma background_mask_same (P1 P2 : gmap string Z) (image : Bgr) :
  same_on background_keys P1 P2 ->
  background_mask cv P1 image = background_mask cv P2 image.
Proof. intros H. split_same_on. unfold background_mask. congruence. Qed.

Lemma image_masked_same (P1 P2 : gmap string Z) (image : Bgr) :
  same_on background_keys P1 P2 ->
  image_masked_of cv P1 image = image_masked_of cv P2 image.
Proof.
  intros H. unfold image_masked_of. by rewrite (background_mask_same P1 P2).
Qed.

Lemma candidate_same (P1 P2 : gmap string Z) (image_masked : Bgr)
    (no_background_mask : Gray) (image_w image_h x : nat) :
  same_on growth_keys P1 P2 ->
  candidate P1 image_masked no_background_mask image_w image_h x
  = candidate P2 image_masked no_background_mask image_w image_h x.
Proof. intros H. split_same_on. unfold candidate. congruence. Qed.

Lemma accepted_same (P1 P2 : gmap string Z) (m : Gray) (rect : Rect) :
  same_on filter_keys P1 P2 -> accepted P1 m rect = accepted P2 m rect.
Proof. intros H. split_same_on. unfold accepted. congruence. Qed.

Lemma accepts_same (P1 P2 : gmap string Z) (image_masked : Bgr)
    (no_background_mask : Gray) (image_w image_h x : nat) :
  same_on growth_keys P1 P2 -> same_on filter_keys P1 P2 ->
  accepts P1 image_masked no_background_mask image_w image_h x
  = accepts P2 image_masked no_background_mask image_w image_h x.
Proof.
  intros Hg Hf. unfold accepts.
  by rewrite (candidate_same P1 P2), (accepted_same P1 P2).
Qed.

Lemma sweep_same (P1 P2 : gmap string Z) (debug : bool) (image_masked : Bgr)
    (no_background_mask : Gray) (image_w image_h : nat) (xs : list nat) (st : scan_state) :
  same_on growth_keys P1 P2 -> same_on filter_keys P1 P2 ->
  sweep P1 debug image_masked no_background_mask image_w image_h xs st
  = sweep P2 debug image_masked no_background_mask image_w image_h xs st.
Proof.
  intros Hg Hf. revert st. induction xs as [|x xs IH]; intros st; simpl; [done|].
  rewrite !visit_unfold.
  rewrite (accepts_same P1 P2), (candidate_same P1 P2) by done.
  destruct (accepts P2 _ _ _ _ x); simpl; [|apply IH].
  destruct (debug_sample debug image_w x (debug_ctr st)); simpl; [apply IH|done].
Qed.

Lemma scan_same (P1 P2 : gmap string Z) (debug : bool) (image : Bgr) :
  same_on background_keys P1 P2 -> same_on growth_keys P1 P2 -> same_on filter_keys P1 P2 ->
  scan cv P1 debug image = scan cv P2 debug image.
Proof.
  intros Hb Hg Hf. rewrite !scan_is_sweep.
  rewrite (image_masked_same P1 P2), (background_mask_same P1 P2) by done.
  by apply sweep_same.
Qed.

Lemma same_on_app (ks1 ks2 : list string) (P1 P2 : gmap string Z) :
  same_on (ks1 ++ ks2) P1 P2 <-> same_on ks1 P1 P2 /\ same_on ks2 P1 P2.
Proof. apply Forall_app. Qed.

Lemma located_characters_same (P1 P2 : gmap string Z) (image : Bgr) (ow oh : option Z)
    (debug : bool) :
  same_on read_keys P1 P2 ->
  located_characters cv P1 image ow oh debug = located_characters cv P2 image ow oh debug.
Proof.
  unfold read_keys. rewrite !same_on_app. intros (Hb & Hg & Hf & Hr).
  unfold located_characters. rewrite (scan_same P1 P2) by done.
  destruct (check_output_size image ow oh); simpl; [|done].
  destruct (scan cv P2 debug image) as [st|e]; simpl; [|done].
  split_same_on.
  repeat match goal with H : param P1 _ = param P2 _ |- _ => rewrite H; clear H end.
  reflexivity.
Qed.

End ReadFacts.

(** ** C9: [group_threshold] is never read *)

Lemma param_union_default (d : gmap string Z) (k : string) :
  param (d ∪ PARAMS_DEFAULT) k
  = match d !! k with Some v => v | None => param PARAMS_DEFAULT k end.
Proof.
  unfold param. rewrite !lookup_total_alt, lookup_union.
  destruct (d !! k); simpl; [|by rewrite (left_id_L None _)].
  by destruct (PARAMS_DEFAULT !! k).
Qed.

Lemma resolved_same_on (sto1 sto2 : store) (l : loc) (d1 d2 : gmap string Z)
    (keys : list string) :
  sto1 !! l = Some d1 -> sto2 !! l = Some d2 ->
  Forall (fun k => d1 !! k = d2 !! k) keys ->
  same_on keys (resolve_params sto1 (Some l)).2 (resolve_params sto2 (Some l)).2.
Proof.
  intros H1 H2 Hk. rewrite !resolve_params_Some. simpl.
  rewrite (lookup_total_correct _ _ _ H1), (lookup_total_correct _ _ _ H2).
  unfold same_on. eapply Forall_impl; [exact Hk|].
  intros k E. simpl in E. by rewrite !param_union_default, E.
Qed.

(** C9.  Two calls whose [params] dictionaries agree on every key other
    than ["group_threshold"] (which may hold any two values, or be absent)
    have the same outcome: the same character list, or the same exception. *)
Theorem C9_group_threshold_unused (cv : OpenCV) (sto1 sto2 : store) (l : loc)
    (d1 d2 : gmap string Z) (image : Bgr) (ow oh : option Z) (debug : bool) :
  sto1 !! l = Some d1 -> sto2 !! l = Some d2 ->
  (forall k, k <> "group_threshold"%string -> d1 !! k = d2 !! k) ->
  (extract_characters cv sto1 image ow oh debug (Some l)).2
  = (extract_characters cv sto2 image ow oh debug (Some l)).2.
Proof.
  intros H1 H2 Hd. rewrite !extract_characters_outcome.
  rewrite (located_characters_same cv (resolve_params sto1 (Some l)).2
                                   (resolve_params sto2 (Some l)).2); [done|].
  eapply resolved_same_on; [done..|].
  unfold read_keys, background_keys, growth_keys, filter_keys, grouping_keys. simpl.
  repeat constructor; apply Hd; discriminate.
Qed.

Lemma C9_witness :
  (extract_characters TwoLevel.cv
     {[ TwoLevel.caller := <["group_threshold"%string := 2]> TwoLevel.small_params ]}
     TwoLevel.captcha None None false (Some TwoLevel.caller)).2
  = (extract_characters TwoLevel.cv
       {[ TwoLevel.caller := <["group_threshold"%string := 77]> TwoLevel.small_params ]}
       TwoLevel.captcha None None false (Some TwoLevel.caller)).2.
Proof.
  eapply C9_group_threshold_unused.
  - apply lookup_singleton_eq.
  - apply lookup_singleton_eq.
  - intros k Hk. by rewrite !lookup_insert_ne.
Defined.

(** ** C10: the caller's dictionary is completed in place *)

Lemma PARAMS_DEFAULT_keys_NoDup : NoDup PARAMS_DEFAULT_items.*1.
Proof. refine (bool_decide_unpack _ _). vm_compute. exact I. Qed.

(** C10.  When [params] names a dictionary object, the call writes into that
    object: after the call (whether it returns or raises) the object holds
    the caller's own values, and for every key of the default table that it
    lacked, the default value; nothing else is added, all 14 default keys are
    present, no other object of the store changes, and the dictionary the
    rest of the call reads is that same object. *)
Theorem C10_params_completed_in_place (cv : OpenCV) (sto : store) (image : Bgr)
    (ow oh : option Z) (debug : bool) (l : loc) (d : gmap string Z) :
  sto !! l = Some d ->
  let sto' := (extract_characters cv sto image ow oh debug (Some l)).1 in
  exists d',
    sto' !! l = Some d'
    /\ (forall k v, d !! k = Some v -> d' !! k = Some v)
    /\ (forall k, d !! k = None -> d' !! k = PARAMS_DEFAULT !! k)
    /\ (forall k, k ∈ PARAMS_DEFAULT_items.*1 -> is_Some (d' !! k))
    /\ length PARAMS_DEFAULT_items = 14%nat
    /\ NoDup PARAMS_DEFAULT_items.*1
    /\ (forall l', l' <> l -> sto' !! l' = sto !! l')
    /\ (resolve_params sto (Some l)).2 = d'.
Proof.
  intros Hl sto'. subst sto'. rewrite extract_characters_store, resolve_params_Some. simpl.
  rewrite (lookup_total_correct _ _ _ Hl).
  exists (d ∪ PARAMS_DEFAULT). split; [apply lookup_insert_eq|].
  split; [|split; [|split; [|split; [|split; [|split]]]]].
  - intros k v Hk. by rewrite lookup_union, Hk; destruct (PARAMS_DEFAULT !! k).
  - intros k Hk. by rewrite lookup_union, Hk, (left_id_L None _).
  - intros k Hk. rewrite lookup_union.
    assert (is_Some (PARAMS_DEFAULT !! k)) as [v ->].
    { destruct (PARAMS_DEFAULT !! k) eqn:E; [eauto|].
      by apply not_elem_of_list_to_map_2 in E. }
    destruct (d !! k); eauto.
  - reflexivity.
  - apply PARAMS_DEFAULT_keys_NoDup.
  - intros l' Hne. by rewrite lookup_insert_ne.
  - reflexivity.
Qed.

Lemma C10_witness :
  exists d',
    (extract_characters TwoLevel.cv TwoLevel.sto0 TwoLevel.captcha (Some 64) (Some 64) false
                        (Some TwoLevel.caller)).1 !! TwoLevel.caller = Some d'
    /\ d' !! "min_character_width"%string = Some 1
    /\ d' !! "max_character_width"%string = Some 110.
Proof.
  destruct (C10_params_completed_in_place TwoLevel.cv TwoLevel.sto0 TwoLevel.captcha
              (Some 64) (Some 64) false TwoLevel.caller TwoLevel.small_params)
    as (d' & Hl & Hkept & Hfilled & _).
  - apply lookup_singleton_eq.
  - exists d'. split; [exact Hl|]. split.
    + apply Hkept. vm_compute. reflexivity.
    + rewrite Hfilled; vm_compute; reflexivity.
Defined.

(** ** C6: relaxing the lower thresholds *)

Lemma float_lt_int_mono (f : spec_float) (n n' : Z) :
  n <= n' -> float_lt_int f n = true -> float_lt_int f n' = true.
Proof.
  intros Hn. destruct f as [s|s| |s m e]; simpl; try done.
  - rewrite !Z.ltb_lt. lia.
  - destruct (0 <=? e) eqn:He; rewrite !Z.ltb_lt.
    + lia.
    + apply Z.leb_gt in He.
      assert (0 < 2 ^ (- e)) by (apply Z.pow_pos_nonneg; lia). nia.
Qed.

Lemma filter_sublist_impl {A} (P Q : A -> Prop) `{forall x, Decision (P x)}
    `{forall x, Decision (Q x)} (l : list A) :
  (forall x, P x -> Q x) -> filter P l `sublist_of` filter Q l.
Proof.
  intros HPQ. induction l as [|x l IH]; [constructor|].
  rewrite !filter_cons. destruct (decide (P x)) as [HP|HP].
  - rewrite decide_True by auto. by constructor.
  - destruct (decide (Q x)); [by constructor|done].
Qed.

Section Relaxing.

Context (cv : OpenCV) (P P' : gmap string Z).
Hypothesis Hrelaxed : relaxed P' P.

Lemma relaxed_param (k : string) :
  k <> "min_character_width"%string -> k <> "min_character_height"%string ->
  k <> "min_pixel_density"%string -> param P' k = param P k.
Proof.
  intros. unfold param. rewrite !lookup_total_alt.
  by rewrite (proj1 Hrelaxed k).
Qed.

Lemma relaxed_background : same_on background_keys P' P.
Proof. repeat constructor; apply relaxed_param; discriminate. Qed.

Lemma relaxed_growth : same_on growth_keys P' P.
Proof. repeat constructor; apply relaxed_param; discriminate. Qed.

Lemma relaxed_accepted (m : Gray) (rect : Rect) :
  accepted P m rect = true -> accepted P' m rect = true.
Proof.
  destruct Hrelaxed as (_ & Hw & Hh & Hd).
  unfold accepted.
  rewrite (relaxed_param "max_character_width") by discriminate.
  rewrite (relaxed_param "max_character_height") by discriminate.
  intros H.
  repeat (apply andb_prop in H as [H ?]).
  repeat (apply andb_true_intro; split); try assumption.
  - apply Z.leb_le. apply Z.leb_le in H. lia.
  - apply Z.leb_le.
    match goal with H : (param P "min_character_height" <=? _) = true |- _ =>
      apply Z.leb_le in H; lia end.
  - match goal with H : negb (float_lt_int _ _) = true |- _ =>
      apply negb_true_iff in H; apply negb_true_iff;
      destruct (float_lt_int _ (param P' _)) eqn:E; [|done];
      rewrite (float_lt_int_mono _ _ _ Hd E) in H; done end.
Qed.

Lemma relaxed_column (image : Bgr) (x : nat) :
  column_accepts cv P image x = true -> column_accepts cv P' image x = true.
Proof.
  unfold column_accepts, accepts.
  rewrite (image_masked_same cv P' P), (background_mask_same cv P' P)
    by apply relaxed_background.
  rewrite (candidate_same P' P) by apply relaxed_growth.
  intros [Hs Ha]%andb_prop. rewrite Hs. simpl. by apply relaxed_accepted.
Qed.

Lemma relaxed_rects (image : Bgr) (st : scan_state) :
  scan cv P false image = Return st ->
  exists st', scan cv P' false image = Return st'
              /\ rects st `sublist_of` rects st'.
Proof.
  intros Hs.
  destruct (scan_total cv P' false image) as [st' Hs']; [by left|].
  exists st'. split; [done|].
  rewrite scan_is_sweep in Hs, Hs'.
  apply sweep_returns in Hs as [-> _]. apply sweep_returns in Hs' as [-> _]. simpl.
  rewrite (image_masked_same cv P' P), (background_mask_same cv P' P)
    by apply relaxed_background.
  unfold accepted_rects.
  erewrite (list_fmap_ext (fun x => (candidate P' _ _ _ _ x).2));
    [|intros i x _; by rewrite (candidate_same P' P) by apply relaxed_growth].
  apply fmap_sublist, filter_sublist_impl. intros x Hx.
  pose proof (relaxed_column image x) as Hc. unfold column_accepts in Hc.
  rewrite (image_masked_same cv P' P), (background_mask_same cv P' P) in Hc
    by apply relaxed_background.
  auto.
Qed.

End Relaxing.

(** C6.  Lowering [min_character_width], [min_character_height] or
    [min_pixel_density], every other parameter and the image being the same,
    keeps every accepted candidate accepted: a candidate that passes the
    filter still passes it, every accepting column of the middle row still
    accepts, and the rectangle list of the sweep under the higher thresholds
    is a sub-list of the one under the lower thresholds, so the number of
    accepted candidates does not decrease. *)
Theorem C6_relaxing_accepts_more (cv : OpenCV) (P P' : gmap string Z) :
  relaxed P' P ->
  (forall m rect, passes_filter P m rect = Return true ->
                  passes_filter P' m rect = Return true)
  /\ forall image,
       (forall x, column_accepts cv P image x = true ->
                  column_accepts cv P' image x = true)
       /\ forall st, scan cv P false image = Return st ->
            exists st', scan cv P' false image = Return st'
                        /\ rects st `sublist_of` rects st'
                        /\ (length (rects st) <= length (rects st'))%nat.
Proof.
  intros Hr. split.
  - intros m rect. rewrite !passes_filter_accepted. intros [= H].
    by rewrite (relaxed_accepted P P' Hr m rect H).
  - intros image. split; [apply relaxed_column; done|].
    intros st Hs.
    destruct (relaxed_rects cv P P' Hr image st Hs) as (st' & Hs' & Hsub).
    exists st'. split; [done|]. split; [done|]. by apply sublist_length.
Qed.

Lemma C6_witness :
  exists st st',
    scan TwoLevel.cv Notch.resolved false Notch.captcha = Return st
    /\ scan TwoLevel.cv (<["min_pixel_density"%string := 57]> Notch.resolved) false
            Notch.captcha = Return st'
    /\ (length (rects st) <= length (rects st'))%nat.
Proof.
  assert (Hr : relaxed (<["min_pixel_density"%string := 57]> Notch.resolved) Notch.resolved).
  { split; [|split; [|split]].
    - intros k _ _ Hk. by rewrite lookup_insert_ne.
    - vm_compute. discriminate.
    - vm_compute. discriminate.
    - vm_compute. discriminate. }
  destruct (C6_relaxing_accepts_more TwoLevel.cv _ _ Hr) as [_ Hscan].
  destruct (Hscan Notch.captcha) as [_ Hst].
  destruct (Hst (mkScan [] (zeros 9 12) 0)) as (st' & Hs' & _ & Hlen).
  - vm_compute. reflexivity.
  - exists (mkScan [] (zeros 9 12) 0), st'. split; [vm_compute; reflexivity|].
    split; [exact Hs'|exact Hlen].
Defined.

(** ** C8: the resampler *)

Lemma binary_round_aux_not_negative (mx ex : Z) (lx : location) :
  not_negative (binary_round_aux prec emax false mx ex lx).
Proof.
  unfold binary_round_aux.
  destruct (shr_fexp prec emax mx ex lx) as [mrs' e'].
  destruct (shr_fexp prec emax _ e' loc_Exact) as [mrs'' e''].
  destruct (shr_m mrs''); simpl; [done| |done].
  by destruct (_ <=? _).
Qed.

Lemma float_of_int_not_negative (n : Z) : 0 <= n -> not_negative (float_of_int n).
Proof.
  intros Hn. unfold float_of_int, binary_normalize.
  destruct n as [|p|p]; [done| |lia].
  unfold binary_round. destruct (shl_align _ _ _) as [mz ez].
  apply binary_round_aux_not_negative.
Qed.

Lemma fmul_not_negative (x y : spec_float) :
  not_negative x -> not_negative y -> not_negative (fmul x y).
Proof.
  unfold fmul, SFmul.
  destruct x as [sx|sx| |sx mx ex], y as [sy|sy| |sy my ey]; simpl; try done.
  destruct sx, sy; simpl; try done.
  intros _ _. apply binary_round_aux_not_negative.
Qed.

Lemma fdiv_not_negative (x y : spec_float) :
  not_negative x -> not_negative y -> not_negative (fdiv x y).
Proof.
  unfold fdiv, SFdiv.
  destruct x as [sx|sx| |sx mx ex], y as [sy|sy| |sy my ey]; simpl; try done.
  destruct sx, sy; simpl; try done.
  intros _ _. destruct (SFdiv_core_binary _ _ _ _ _ _) as [[mz ez] lz].
  apply binary_round_aux_not_negative.
Qed.

Lemma floor_not_negative (f : spec_float) : not_negative f -> 0 <= Py.floor f.
Proof.
  destruct f as [s|s| |s m e]; simpl; try lia.
  destruct s; [done|]. intros _.
  destruct (0 <=? e) eqn:He.
  - apply Z.leb_le in He. apply Z.mul_nonneg_nonneg; [lia|]. by apply Z.pow_nonneg.
  - apply Z.leb_gt in He. apply Z.div_pos; [lia|]. apply Z.pow_pos_nonneg; lia.
Qed.

Lemma nearest_index_range (d s i : Z) :
  0 <= d -> 1 <= s -> 0 <= i -> 0 <= nearest_index d s i < s.
Proof.
  intros Hd Hs Hi. unfold nearest_index. split; [|lia].
  apply Z.min_glb; [|lia].
  apply floor_not_negative, fmul_not_negative; [by apply float_of_int_not_negative|].
  apply fdiv_not_negative; [by apply float_of_int_not_negative|].
  apply fdiv_not_negative; apply float_of_int_not_negative; lia.
Qed.

Lemma at2_elem {A} (a : list (list A)) (y x : Z) (v : A) :
  at2 a y x = Some v -> exists row, row ∈ a /\ v ∈ row.
Proof.
  unfold at2. destruct (_ && _); [|done].
  destruct (a !! Z.to_nat y) as [row|] eqn:Hr; simpl; [|done].
  intros Hv. exists row. split; eapply list_elem_of_lookup_2; eauto.
Qed.

Lemma at2_rectangular {A} (a : list (list A)) (y x : Z) :
  a <> [] -> rectangular (shape1 a) a ->
  0 <= y < Z.of_nat (shape0 a) -> 0 <= x < Z.of_nat (shape1 a) ->
  is_Some (at2 a y x).
Proof.
  intros _ Hrect Hy Hx. unfold at2, shape0 in *.
  rewrite (proj2 (andb_true_iff _ _)) by (split; apply Z.leb_le; lia).
  destruct (lookup_lt_is_Some_2 a (Z.to_nat y)) as [row Hrow]; [lia|].
  rewrite Hrow. simpl. apply lookup_lt_is_Some_2.
  rewrite (proj1 (Forall_forall _ _) Hrect row); [lia|].
  eapply list_elem_of_lookup_2; eauto.
Qed.

Lemma resize_shape (src : Gray) (dw dh : Z) :
  shape0 (resize src (dw, dh)) = Z.to_nat dh
  /\ rectangular (Z.to_nat dw) (resize src (dw, dh)).
Proof.
  unfold resize, shape0, rectangular. split.
  - by rewrite length_fmap, length_seq.
  - apply Forall_fmap, Forall_forall. intros y _. simpl.
    by rewrite length_fmap, length_seq.
Qed.

Lemma resize_shape1 (src : Gray) (dw dh : Z) :
  0 < dh -> shape1 (resize src (dw, dh)) = Z.to_nat dw.
Proof.
  intros Hh. unfold resize, shape1.
  destruct (Z.to_nat dh) as [|n] eqn:E; [lia|].
  simpl. by rewrite length_fmap, length_seq.
Qed.

(** Every pixel of the resized array is a pixel of the source, or the 0 read
    outside an empty or ragged source. *)
Lemma resize_pixels (src : Gray) (dsize : Z * Z) (P : Z -> Prop) :
  P 0 -> all2 P src -> all2 P (resize src dsize).
Proof.
  intros H0 Hsrc. destruct dsize as [dw dh]. unfold resize, all2.
  apply Forall_fmap, Forall_forall. intros y _. simpl.
  apply Forall_fmap, Forall_forall. intros x _. simpl.
  destruct (at2 src _ _) as [v|] eqn:Hv; simpl; [|done].
  apply at2_elem in Hv as (row & Hrow & Hv).
  unfold all2 in Hsrc. rewrite Forall_forall in Hsrc.
  specialize (Hsrc row Hrow). rewrite Forall_forall in Hsrc. auto.
Qed.

(** On a non-empty rectangular source only source pixels are selected. *)
Lemma resize_selects (src : Gray) (dw dh : Z) :
  (0 < shape0 src)%nat -> (0 < shape1 src)%nat -> rectangular (shape1 src) src ->
  0 <= dw -> 0 <= dh ->
  all2 (fun v => exists row, row ∈ src /\ v ∈ row) (resize src (dw, dh)).
Proof.
  intros Hh Hw Hrect Hdw Hdh. unfold resize, all2.
  apply Forall_fmap, Forall_forall. intros y _. simpl.
  apply Forall_fmap, Forall_forall. intros x _. simpl.
  destruct (at2_rectangular src
              (nearest_index dh (Z.of_nat (shape0 src)) (Z.of_nat y))
              (nearest_index dw (Z.of_nat (shape1 src)) (Z.of_nat x)))
    as [v Hv]; try done.
  - intros ->. simpl in Hh. lia.
  - apply nearest_index_range; lia.
  - apply nearest_index_range; lia.
  - rewrite Hv. simpl. by eapply at2_elem.
Qed.

(** C8.  When both an output width and an output height are requested (and
    are positive, as OpenCV demands), every returned character has exactly
    [output_height] rows of [output_width] pixels; and resampling a cut keeps
    a mask a mask: if every pixel of the cut is 0 or 255 so is every pixel
    of the resampled character, each pixel being copied from the cut when
    the cut is a non-empty rectangle. *)
Theorem C8_resampled_size_and_values (cv : OpenCV) (sto : store) (image : Bgr)
    (ow oh : Z) (debug : bool) (params : option loc) (chars : list Gray) :
  0 < ow -> 0 < oh ->
  (extract_characters cv sto image (Some ow) (Some oh) debug params).2 = Return chars ->
  Forall (fun c => Z.of_nat (shape0 c) = oh /\ Z.of_nat (shape1 c) = ow
                   /\ rectangular (Z.to_nat ow) c) chars
  /\ forall characters_mask x y w h,
       let cut := slice2 characters_mask y (y + h) x (x + w) in
       let character := cut_character characters_mask (Some ow) (Some oh) (mkRect x y w h) in
       (all2 binary cut -> all2 binary character)
       /\ ((0 < shape0 cut)%nat -> (0 < shape1 cut)%nat -> rectangular (shape1 cut) cut ->
           all2 (fun v => exists row, row ∈ cut /\ v ∈ row) character).
Proof.
  intros Hw Hh Hrun. split.
  - apply extract_characters_returned in Hrun as (st & _ & _ & ->).
    apply Forall_fmap, Forall_forall. intros [x y w h] _.
    unfold compose, cut_character. cbv beta iota zeta.
    destruct (resize_shape (slice2 (refine (characters_mask st)) y (y + h) x (x + w)) ow oh)
      as [H0 H1].
    rewrite H0, resize_shape1 by done. split; [lia|]. split; [lia|done].
  - intros characters_mask x y w h cut character. subst cut character.
    unfold cut_character. cbv beta iota zeta. split.
    + apply (resize_pixels _ (ow, oh) binary). by left.
    + intros. apply resize_selects; auto; lia.
Qed.

Lemma C8_witness :
  Forall (fun c => Z.of_nat (shape0 c) = 3 /\ Z.of_nat (shape1 c) = 2
                   /\ rectangular (Z.to_nat 2) c)
         [[[255; 255]; [255; 255]; [255; 255]];
          [[255; 255]; [255; 255]; [255; 255]];
          [[255; 255]; [255; 255]; [255; 255]]].
Proof.
  refine (proj1 (C8_resampled_size_and_values TwoLevel.cv TwoLevel.sto0 TwoLevel.captcha
                   2 3 false (Some TwoLevel.caller) _ _ _ _)).
  - lia.
  - lia.
  - vm_compute. reflexivity.
Defined.

(** ** The flood fill reaches its fixed point

    [filled_region] runs [h * w] rounds of growth; on a rectangular image
    that is enough: another round changes nothing. *)

Lemma imap_inflate_row (g : nat -> bool -> bool) (row : list bool) :
  (forall i, g i true = true) ->
  (length (filter (fun b : bool => b = true) row)
   <= length (filter (fun b : bool => b = true) (imap g row)))%nat
  /\ (length (filter (fun b : bool => b = true) (imap g row))
      = length (filter (fun b : bool => b = true) row) -> imap g row = row)
  /\ length (imap g row) = length row.
Proof.
  revert g. induction row as [|b row IH]; intros g Hg; [done|].
  destruct (IH (g ∘ S)) as (Hle & Heq & Hlen); [intros i; apply Hg|].
  cbn [imap]. rewrite !filter_cons.
  destruct b.
  - rewrite Hg, !(decide_True (P := true = true)) by done. simpl. split; [lia|].
    split; [|by rewrite Hlen]. intros H. f_equal. apply Heq. lia.
  - rewrite !(decide_False (P := false = true)) by done.
    destruct (g 0%nat false) eqn:Hg0.
    + rewrite !(decide_True (P := true = true)) by done. simpl.
      split; [lia|]. split; [lia|by rewrite Hlen].
    + rewrite !(decide_False (P := false = true)) by done. split; [lia|].
      split; [|simpl; by rewrite Hlen]. intros H. f_equal. by apply Heq.
Qed.

Lemma imap_inflate_rows (F : nat -> list bool -> list bool) (R : Region) :
  (forall y row,
      (length (filter (fun b : bool => b = true) row)
       <= length (filter (fun b : bool => b = true) (F y row)))%nat
      /\ (length (filter (fun b : bool => b = true) (F y row))
          = length (filter (fun b : bool => b = true) row) -> F y row = row)
      /\ length (F y row) = length row) ->
  (filled_cells R <= filled_cells (imap F R))%nat
  /\ (filled_cells (imap F R) = filled_cells R -> imap F R = R)
  /\ cells (imap F R) = cells R.
Proof.
  revert F. induction R as [|row R IH]; intros F HF; [done|].
  destruct (IH (F ∘ S)) as (Hle & Heq & Hlen); [intros y r; apply HF|].
  destruct (HF 0%nat row) as (Hle0 & Heq0 & Hlen0).
  unfold filled_cells, cells in *. cbn [imap concat].
  rewrite !filter_app, !length_app.
  split; [lia|]. split; [|lia].
  intros H. f_equal; [apply Heq0|apply Heq]; lia.
Qed.

Lemma imap_inflate (G : nat -> nat -> bool -> bool) (R : Region) :
  (forall y x, G y x true = true) ->
  let R' := imap (fun y row => imap (G y) row) R in
  (filled_cells R <= filled_cells R')%nat
  /\ (filled_cells R' = filled_cells R -> R' = R)
  /\ cells R' = cells R.
Proof.
  intros HG. apply imap_inflate_rows. intros y row. apply imap_inflate_row, HG.
Qed.

Lemma grow_once_inflate (can R : Region) :
  (filled_cells R <= filled_cells (grow_once can R))%nat
  /\ (filled_cells (grow_once can R) = filled_cells R -> grow_once can R = R)
  /\ cells (grow_once can R) = cells R.
Proof.
  apply (imap_inflate
           (fun y x r =>
              r || (inside can (Z.of_nat y) (Z.of_nat x)
                    && (inside R (Z.of_nat y - 1) (Z.of_nat x)
                        || inside R (Z.of_nat y + 1) (Z.of_nat x)
                        || inside R (Z.of_nat y) (Z.of_nat x - 1)
                        || inside R (Z.of_nat y) (Z.of_nat x + 1))))).
  done.
Qed.

Lemma filled_cells_le (R : Region) : (filled_cells R <= cells R)%nat.
Proof. unfold filled_cells, cells. apply length_filter. Qed.

Lemma grow_fixed (n : nat) (can R : Region) :
  grow_once can R = R -> grow n can R = R.
Proof. intros H. induction n as [|n IH]; simpl; [done|]. by rewrite H. Qed.

Lemma grow_stable (n : nat) (can R : Region) :
  (cells R <= filled_cells R + n)%nat ->
  grow_once can (grow n can R) = grow n can R.
Proof.
  revert R. induction n as [|n IH]; intros R Hn; simpl.
  - destruct (grow_once_inflate can R) as (Hle & Heq & Hlen).
    apply Heq. pose proof (filled_cells_le (grow_once can R)). lia.
  - destruct (grow_once_inflate can R) as (Hle & Heq & Hlen).
    destruct (decide (filled_cells (grow_once can R) = filled_cells R)) as [E|E].
    + rewrite (Heq E). rewrite (grow_fixed n can R (Heq E)). by apply Heq.
    + apply IH. lia.
Qed.

Lemma cells_rows {A} (F : nat -> list A -> list bool) (image : list (list A)) (w : nat) :
  (forall y row, length (F y row) = length row) ->
  rectangular w image ->
  cells (imap F image) = (length image * w)%nat.
Proof.
  unfold cells, rectangular.
  revert F. induction image as [|row image IH]; intros F HF Hrect; [done|].
  apply Forall_cons_1 in Hrect as [Hrow Hrect].
  cbn [imap concat length]. rewrite length_app, HF, Hrow.
  rewrite (IH (F ∘ S)); [lia| |done]. intros y r. apply HF.
Qed.

Lemma cells_rectangular {A} (f : nat -> nat -> A -> bool) (image : list (list A)) :
  rectangular (shape1 image) image ->
  cells (imap (fun y row => imap (f y) row) image) = (shape0 image * shape1 image)%nat.
Proof.
  intros Hrect. apply cells_rows; [|done]. intros y row. apply length_imap.
Qed.

(** One more round of growth leaves the filled region as it is. *)
Lemma filled_region_stable (image : Bgr) (mask : Gray) (sx sy : nat) (lo up seed : Pixel) :
  rectangular (shape1 image) image ->
  at2 image (Z.of_nat sy) (Z.of_nat sx) = Some seed ->
  grow_once (fillable image mask lo up seed) (filled_region image mask sx sy lo up)
  = filled_region image mask sx sy lo up.
Proof.
  intros Hrect Hseed. unfold filled_region. rewrite Hseed.
  apply grow_stable. unfold seed_region.
  rewrite (cells_rectangular (fun y x _ => (y =? sy)%nat && (x =? sx)%nat)) by done.
  lia.
Qed.

(** ** The character mask, pixel by pixel *)

Lemma at2_nat {A} (a : list (list A)) (y x : nat) :
  at2 a (Z.of_nat y) (Z.of_nat x) = (a !! y) ≫= (fun row => row !! x).
Proof.
  unfold at2. rewrite (proj2 (andb_true_iff _ _)) by (split; apply Z.leb_le; lia).
  by rewrite !Nat2Z.id.
Qed.

Lemma at2_zip_with {A B C} (f : A -> B -> C) (a : list (list A)) (b : list (list B))
    (y x : nat) :
  at2 (zip_with (zip_with f) a b) (Z.of_nat y) (Z.of_nat x)
  = match at2 a (Z.of_nat y) (Z.of_nat x), at2 b (Z.of_nat y) (Z.of_nat x) with
    | Some u, Some v => Some (f u v)
    | _, _ => None
    end.
Proof.
  rewrite !at2_nat, lookup_zip_with.
  destruct (a !! y) as [ra|]; simpl; [|done].
  destruct (b !! y) as [rb|]; simpl; [|by destruct (ra !! x)].
  rewrite lookup_zip_with.
  destruct (ra !! x); simpl; [|done]. by destruct (rb !! x).
Qed.

Lemma at2_fmap {A B} (f : A -> B) (a : list (list A)) (y x : nat) :
  at2 ((fun row : list A => f <$> row) <$> a) (Z.of_nat y) (Z.of_nat x)
  = f <$> at2 a (Z.of_nat y) (Z.of_nat x).
Proof.
  rewrite !at2_nat, list_lookup_fmap.
  destruct (a !! y) as [ra|]; simpl; [|done]. by rewrite list_lookup_fmap.
Qed.

Lemma slice_drop_last2 {A} (l : list A) :
  Py.slice l 0 (-2) = take (length l - 2) l.
Proof.
  unfold Py.slice, slice_bound. simpl.
  replace (Z.to_nat (Z.min 0 (Z.of_nat (length l)))) with 0%nat by lia.
  rewrite drop_0, Nat.sub_0_r. f_equal. lia.
Qed.

Lemma at2_drop_last2 {A} (a : list (list A)) (h w y x : nat) :
  shape0 a = (h + 2)%nat -> rectangular (w + 2) a -> (y < h)%nat -> (x < w)%nat ->
  at2 (slice2 a 0 (-2) 0 (-2)) (Z.of_nat y) (Z.of_nat x) = at2 a (Z.of_nat y) (Z.of_nat x).
Proof.
  intros Hh Hw Hy Hx. unfold slice2. rewrite !at2_nat, list_lookup_fmap.
  rewrite slice_drop_last2. unfold shape0 in Hh.
  rewrite lookup_take_lt by lia.
  destruct (a !! y) as [row|] eqn:Hrow; simpl; [|done].
  rewrite slice_drop_last2.
  assert (length row = (w + 2)%nat) as Hlen.
  { unfold rectangular in Hw. rewrite Forall_forall in Hw. apply Hw.
    eapply list_elem_of_lookup_2; eauto. }
  rewrite lookup_take_lt by lia. done.
Qed.

Lemma zeros_shape (h w : nat) :
  shape0 (zeros h w) = h /\ rectangular w (zeros h w)
  /\ ((0 < h)%nat -> shape1 (zeros h w) = w).
Proof.
  unfold zeros, shape0, shape1, rectangular. split; [apply length_replicate|]. split.
  - apply Forall_replicate. apply length_replicate.
  - destruct h; [lia|]. intros _. simpl. apply length_replicate.
Qed.

Lemma at2_zeros (h w y x : nat) :
  (y < h)%nat -> (x < w)%nat -> at2 (zeros h w) (Z.of_nat y) (Z.of_nat x) = Some 0.
Proof.
  intros Hy Hx. rewrite at2_nat. unfold zeros.
  rewrite lookup_replicate_2 by done. simpl. by rewrite lookup_replicate_2.
Qed.

Lemma fill_mask_shape (mask : Gray) (R : Region) (h w : nat) :
  shape0 mask = h -> rectangular w mask ->
  shape0 (fill_mask mask R) = h /\ rectangular w (fill_mask mask R).
Proof.
  intros Hh Hw. unfold fill_mask, shape0, rectangular in *. split.
  - by rewrite length_imap.
  - apply Forall_forall. intros row [y [r [-> Hr]]]%elem_of_lookup_imap.
    rewrite length_imap. rewrite Forall_forall in Hw. apply Hw.
    eapply list_elem_of_lookup_2; eauto.
Qed.

Lemma at2_fill_mask (R : Region) (h w y x : nat) :
  (y < h)%nat -> (x < w)%nat ->
  at2 (fill_mask (zeros (h + 2) (w + 2)) R) (Z.of_nat y) (Z.of_nat x)
  = Some (if (y =? 0)%nat || (x =? 0)%nat
             || inside R (Z.of_nat y - 1) (Z.of_nat x - 1)
          then 1 else 0).
Proof.
  intros Hy Hx. rewrite at2_nat. unfold fill_mask.
  destruct (zeros_shape (h + 2) (w + 2)) as (H0 & _ & H1). rewrite H0, H1 by lia.
  rewrite list_lookup_imap. unfold zeros at 1.
  rewrite lookup_replicate_2 by lia. simpl.
  rewrite list_lookup_imap, lookup_replicate_2 by lia. simpl. f_equal.
  replace (Z.of_nat y =? Z.of_nat (h + 2) - 1) with false
    by (symmetry; apply Z.eqb_neq; lia).
  replace (Z.of_nat x =? Z.of_nat (w + 2) - 1) with false
    by (symmetry; apply Z.eqb_neq; lia).
  replace (Z.of_nat y =? 0) with (y =? 0)%nat
    by (destruct (Nat.eqb_spec y 0), (Z.eqb_spec (Z.of_nat y) 0); lia || done).
  replace (Z.of_nat x =? 0) with (x =? 0)%nat
    by (destruct (Nat.eqb_spec x 0), (Z.eqb_spec (Z.of_nat x) 0); lia || done).
  destruct (y =? 0)%nat, (x =? 0)%nat; simpl; done.
Qed.

(** What line 168 computes, for every image, seed and tolerance: inside the
    image, the candidate's mask at [(x, y)] is the foreground mask there
    where [x = 0] or [y = 0] (the frame of OpenCV's mask) or image pixel
    [(x - 1, y - 1)] was filled, and 0 elsewhere. *)
Lemma grow_candidate_mask (image_masked : Bgr) (no_background_mask : Gray)
    (color_threshold : Pixel) (image_w image_h : nat) (seed_x : nat) (y x : nat) :
  (y < image_h)%nat -> (x < image_w)%nat ->
  let R := filled_region image_masked (zeros (image_h + 2) (image_w + 2))
                         seed_x (image_h / 2)%nat color_threshold color_threshold in
  at2 (grow_candidate image_masked no_background_mask color_threshold
                      image_w image_h seed_x).1 (Z.of_nat y) (Z.of_nat x)
  = (fun foreground =>
       Z.land (if (y =? 0)%nat || (x =? 0)%nat
                  || inside R (Z.of_nat y - 1) (Z.of_nat x - 1)
               then 255 else 0) foreground)
    <$> at2 no_background_mask (Z.of_nat y) (Z.of_nat x).
Proof.
  intros Hy Hx R. unfold grow_candidate, floodFill. cbn [fst snd].
  fold R. unfold bitwise_and. rewrite at2_zip_with. unfold mul_u8.
  rewrite at2_fmap.
  destruct (zeros_shape (image_h + 2) (image_w + 2)) as (H0 & H1 & _).
  destruct (fill_mask_shape _ R _ _ H0 H1) as [Hs0 Hs1].
  rewrite (at2_drop_last2 _ image_h image_w) by done.
  rewrite at2_fill_mask by done. simpl.
  destruct (at2 no_background_mask _ _); [|done]. simpl. f_equal.
  by destruct (_ || _ || _).
Qed.

(** ** C5: the per-candidate mask *)

(** C5 fails on the code.  On the 6 x 5 captcha, at the seed in column 1 of
    the middle row, the fill covers the four pixels of glyph [A], all of
    them foreground; the mask the specification describes is set exactly
    there, but the code slices [floodfill_mask[:-2, :-2]], which keeps the
    frame row and column of OpenCV's mask and moves every filled pixel one
    step right and down: pixel (1, 2), filled and foreground, is 0 in the
    character mask, and pixel (0, 0), never filled, is 255. *)
Theorem C5_mask_is_shifted :
  Shifted.filled
  = [ [false; false; false; false; false; false];
      [false; false; false; false; false; false];
      [false; true;  true;  false; false; false];
      [false; true;  true;  false; false; false];
      [false; false; false; false; false; false] ]
  /\ aligned_character_mask Shifted.image_masked Shifted.no_background_mask
                            (39, 39, 39) 6 5 1
     = [ [0; 0; 0; 0; 0; 0];
         [0; 0; 0; 0; 0; 0];
         [0; 255; 255; 0; 0; 0];
         [0; 255; 255; 0; 0; 0];
         [0; 0; 0; 0; 0; 0] ]
  /\ interior_character_mask Shifted.image_masked Shifted.no_background_mask
                             (39, 39, 39) 6 5 1
     = aligned_character_mask Shifted.image_masked Shifted.no_background_mask
                              (39, 39, 39) 6 5 1
  /\ Shifted.character_mask
     = [ [255; 255; 255; 255; 255; 0];
         [255; 0; 0; 0; 0; 0];
         [0; 0; 0; 0; 0; 0];
         [0; 0; 255; 0; 0; 0];
         [0; 0; 0; 0; 0; 0] ]
  /\ at2 Shifted.filled 2 1 = Some true
  /\ at2 Shifted.no_background_mask 2 1 = Some 255
  /\ at2 Shifted.character_mask 2 1 = Some 0
  /\ at2 Shifted.filled 0 0 = Some false
  /\ at2 Shifted.character_mask 0 0 = Some 255.
Proof. repeat split; vm_compute; reflexivity. Qed.

(** ** C7: the mask refiner *)

(** The kernel the refiner passes: the tuple [(3, 3)] is a column of two
    entries anchored at the lower one, so a pixel is combined with the one
    above it. *)
Lemma refine_offsets :
  structuring_offsets (kernel_of_tuple (3, 3)) = [(-1, 0); (0, 0)].
Proof. reflexivity. Qed.

(** C7 fails on the code.  On the 1 x 5 captcha with a two-pixel stroke the
    sweep builds the aggregate mask [0; 0; 255; 0; 0]; the refiner turns it
    into [0; 0; 0; 255; 0] (the stroke moves one row down) and, applied
    again, into [0; 0; 0; 0; 255]: refining a refined mask changes it. *)
Theorem C7_refine_not_idempotent :
  scan TwoLevel.cv Stroke.resolved false Stroke.captcha
  = Return (mkScan [mkRect 0 2 1 1] Stroke.aggregate 0)
  /\ refine Stroke.aggregate = [[0]; [0]; [0]; [255]; [0]]
  /\ refine (refine Stroke.aggregate) = [[0]; [0]; [0]; [0]; [255]]
  /\ refine (refine Stroke.aggregate) <> refine Stroke.aggregate.
Proof. repeat split; try (vm_compute; reflexivity). vm_compute. discriminate. Qed.

(** ** Closing with a symmetric structuring element

    The refiner is meant as a morphological closing.  With a structuring
    element that contains the opposite of each of its offsets (a centred
    3 x 3 square, say) dilation followed by erosion is idempotent on 8-bit
    arrays; the column the tuple [(3, 3)] stands for is not symmetric. *)

Lemma at2_morph (op : Z -> Z -> Z) (border : Z) (offs : list (Z * Z)) (src : Gray) (y x : Z) :
  at2 (morph op border offs src) y x
  = (fun _ => morph_at op border offs src y x) <$> at2 src y x.
Proof.
  unfold at2, morph.
  destruct (0 <=? y) eqn:Hy; [|done]. destruct (0 <=? x) eqn:Hx; [|done]. simpl.
  apply Z.leb_le in Hy, Hx.
  rewrite list_lookup_imap. destruct (src !! Z.to_nat y) as [row|]; [|done]. simpl.
  rewrite list_lookup_imap. destruct (row !! Z.to_nat x) as [v|]; [|done]. simpl.
  unfold morph_at. by rewrite !Z2Nat.id.
Qed.

Lemma morph_length (op : Z -> Z -> Z) (border : Z) (offs : list (Z * Z)) (src : Gray) :
  length (morph op border offs src) = length src.
Proof. unfold morph. apply length_imap. Qed.

Lemma at2_of_nat {A} (a : list (list A)) (y x : nat) (row : list A) :
  a !! y = Some row -> at2 a (Z.of_nat y) (Z.of_nat x) = row !! x.
Proof.
  intros H. unfold at2.
  rewrite (proj2 (andb_true_iff _ _)) by (split; apply Z.leb_le; lia).
  by rewrite !Nat2Z.id, H.
Qed.

Lemma mat_ext {A} (a b : list (list A)) :
  length a = length b -> (forall y x, at2 a y x = at2 b y x) -> a = b.
Proof.
  intros Hlen Hat. apply list_eq_same_length with (length a); [done..|].
  intros y ra rb _ Ha Hb. apply list_eq. intros x.
  by rewrite <-(at2_of_nat a y x ra Ha), <-(at2_of_nat b y x rb Hb).
Qed.

Lemma fold_max_ge (g : Z * Z -> Z) (offs : list (Z * Z)) (d : Z * Z) :
  d ∈ offs -> g d <= foldr (fun d acc => Z.max (g d) acc) 0 offs.
Proof.
  induction offs as [|d' offs IH]; [by intros ?%elem_of_nil|].
  intros [->|H]%elem_of_cons; simpl; [lia|]. specialize (IH H). lia.
Qed.

Lemma fold_max_le (g : Z * Z -> Z) (offs : list (Z * Z)) (b : Z) :
  0 <= b -> (forall d, d ∈ offs -> g d <= b) ->
  foldr (fun d acc => Z.max (g d) acc) 0 offs <= b.
Proof.
  intros Hb. induction offs as [|d' offs IH]; intros H; simpl; [done|].
  apply Z.max_lub; [apply H; by left|]. apply IH. intros d Hd. apply H. by right.
Qed.

Lemma fold_min_le (g : Z * Z -> Z) (offs : list (Z * Z)) (d : Z * Z) :
  d ∈ offs -> foldr (fun d acc => Z.min (g d) acc) 255 offs <= g d.
Proof.
  induction offs as [|d' offs IH]; [by intros ?%elem_of_nil|].
  intros [->|H]%elem_of_cons; simpl; [lia|]. specialize (IH H). lia.
Qed.

Lemma fold_min_ge (g : Z * Z -> Z) (offs : list (Z * Z)) (b : Z) :
  b <= 255 -> (forall d, d ∈ offs -> b <= g d) ->
  b <= foldr (fun d acc => Z.min (g d) acc) 255 offs.
Proof.
  intros Hb. induction offs as [|d' offs IH]; intros H; simpl; [done|].
  apply Z.min_glb; [apply H; by left|]. apply IH. intros d Hd. apply H. by right.
Qed.

Section Closing.

Context (offs : list (Z * Z)) (src : Gray).
Hypothesis Hsym : symmetric offs.
Hypothesis Hu8 : all2 u8 src.

Let D : Gray := dilate_offsets offs src.
Let E : Gray := erode_offsets offs D.
Let D2 : Gray := dilate_offsets offs E.
Let E2 : Gray := erode_offsets offs D2.

(** The value read at a position, the border value outside. *)
Let val (b : Z) (m : Gray) (y x : Z) : Z := default b (at2 m y x).

Lemma src_u8 (y x v : Z) : at2 src y x = Some v -> u8 v.
Proof.
  intros (row & Hrow & Hv)%at2_elem.
  unfold all2 in Hu8. rewrite Forall_forall in Hu8.
  specialize (Hu8 row Hrow). rewrite Forall_forall in Hu8. auto.
Qed.

Lemma val_src_u8 (b y x : Z) : u8 b -> u8 (val b src y x).
Proof.
  intros Hb. unfold val. destruct (at2 src y x) as [v|] eqn:Hv; simpl; [|done].
  by eapply src_u8.
Qed.

Lemma dilate_at_u8 (m : Gray) (y x : Z) :
  (forall y x, u8 (val 0 m y x)) -> u8 (morph_at Z.max 0 offs m y x).
Proof.
  intros Hm. unfold morph_at.
  pose (g := fun d : Z * Z => default 0 (at2 m (y + d.1) (x + d.2))).
  change (u8 (foldr (fun d acc => Z.max (g d) acc) 0 offs)).
  split.
  - clear. induction offs as [|d l IH]; simpl; lia.
  - apply fold_max_le; [lia|]. intros d _. apply (Hm (y + d.1) (x + d.2)).
Qed.

Lemma erode_at_u8 (m : Gray) (y x : Z) :
  (forall y x, u8 (val 255 m y x)) -> u8 (morph_at Z.min 255 offs m y x).
Proof.
  intros Hm. unfold morph_at.
  pose (g := fun d : Z * Z => default 255 (at2 m (y + d.1) (x + d.2))).
  change (u8 (foldr (fun d acc => Z.min (g d) acc) 255 offs)).
  split.
  - apply fold_min_ge; [lia|]. intros d _. apply (Hm (y + d.1) (x + d.2)).
  - clear. induction offs as [|d l IH]; simpl; lia.
Qed.

Lemma at2_D (y x : Z) :
  at2 D y x = (fun _ => morph_at Z.max 0 offs src y x) <$> at2 src y x.
Proof. apply at2_morph. Qed.

Lemma at2_E (y x : Z) :
  at2 E y x = (fun _ => morph_at Z.min 255 offs D y x) <$> at2 src y x.
Proof.
  unfold E, erode_offsets. rewrite at2_morph, at2_D. by destruct (at2 src y x).
Qed.

Lemma at2_D2 (y x : Z) :
  at2 D2 y x = (fun _ => morph_at Z.max 0 offs E y x) <$> at2 src y x.
Proof.
  unfold D2, dilate_offsets. rewrite at2_morph, at2_E. by destruct (at2 src y x).
Qed.

Lemma at2_E2 (y x : Z) :
  at2 E2 y x = (fun _ => morph_at Z.min 255 offs D2 y x) <$> at2 src y x.
Proof.
  unfold E2, erode_offsets. rewrite at2_morph, at2_D2. by destruct (at2 src y x).
Qed.

Lemma val_D (b y x : Z) :
  val b D y x = match at2 src y x with
                | Some _ => morph_at Z.max 0 offs src y x
                | None => b
                end.
Proof. unfold val. rewrite at2_D. by destruct (at2 src y x). Qed.

Lemma D_u8 (b y x : Z) : u8 b -> u8 (val b D y x).
Proof.
  intros Hb. rewrite val_D. destruct (at2 src y x); [|done].
  apply dilate_at_u8. intros. by apply val_src_u8.
Qed.

Lemma val_E (b y x : Z) :
  val b E y x = match at2 src y x with
                | Some _ => morph_at Z.min 255 offs D y x
                | None => b
                end.
Proof. unfold val. rewrite at2_E. by destruct (at2 src y x). Qed.

Lemma E_u8 (b y x : Z) : u8 b -> u8 (val b E y x).
Proof.
  intros Hb. rewrite val_E. destruct (at2 src y x); [|done].
  apply erode_at_u8. intros. by apply D_u8.
Qed.

Lemma val_D2 (b y x : Z) :
  val b D2 y x = match at2 src y x with
                 | Some _ => morph_at Z.max 0 offs E y x
                 | None => b
                 end.
Proof. unfold val. rewrite at2_D2. by destruct (at2 src y x). Qed.

Lemma D2_u8 (b y x : Z) : u8 b -> u8 (val b D2 y x).
Proof.
  intros Hb. rewrite val_D2. destruct (at2 src y x); [|done].
  apply dilate_at_u8. intros. by apply E_u8.
Qed.

(** Dilating the eroded array gives nothing above the array eroded. *)
Lemma D2_le_D (y x v : Z) :
  at2 src y x = Some v -> val 0 D2 y x <= val 0 D y x.
Proof.
  intros Hin. rewrite val_D2, (val_D 0), Hin.
  pose proof (D_u8 0 y x ltac:(done)) as HD. rewrite val_D, Hin in HD.
  unfold morph_at at 1. apply (fold_max_le (fun d => default 0 (at2 E (y + d.1) (x + d.2)))).
  { apply HD. }
  intros d Hd. change (val 0 E (y + d.1) (x + d.2) <= morph_at Z.max 0 offs src y x).
  rewrite val_E. destruct (at2 src (y + d.1) (x + d.2)) as [w|]; [|apply HD].
  etransitivity;
    [apply (fold_min_le (fun d' => default 255 (at2 D (y + d.1 + d'.1) (x + d.2 + d'.2)))
                        offs (- d.1, - d.2)); by apply Hsym|].
  simpl. replace (y + d.1 + - d.1) with y by lia. replace (x + d.2 + - d.2) with x by lia.
  change (val 255 D y x <= morph_at Z.max 0 offs src y x).
  by rewrite val_D, Hin.
Qed.

(** Eroding the dilated array gives nothing below the array. *)
Lemma E_le_D2 (y x v : Z) (d : Z * Z) :
  at2 src y x = Some v -> d ∈ offs ->
  val 255 E y x <= val 255 D2 (y + d.1) (x + d.2).
Proof.
  intros Hin Hd. pose proof (E_u8 255 y x ltac:(done)) as HE.
  rewrite val_D2. destruct (at2 src (y + d.1) (x + d.2)) as [w|]; [|apply HE].
  etransitivity;
    [|apply (fold_max_ge (fun d' => default 0 (at2 E (y + d.1 + d'.1) (x + d.2 + d'.2)))
                         offs (- d.1, - d.2)); by apply Hsym].
  simpl. replace (y + d.1 + - d.1) with y by lia. replace (x + d.2 + - d.2) with x by lia.
  change (val 255 E y x <= val 0 E y x).
  rewrite !val_E, Hin. done.
Qed.

Lemma closing_idempotent_at (y x : Z) : at2 E2 y x = at2 E y x.
Proof.
  rewrite at2_E2, at2_E.
  destruct (at2 src y x) as [v|] eqn:Hin; [|done]. simpl. f_equal.
  apply Z.le_antisymm.
  - (* E2 <= E *)
    unfold morph_at at 2.
    apply (fold_min_ge (fun d => default 255 (at2 D (y + d.1) (x + d.2)))).
    { pose proof (erode_at_u8 D2 y x) as H. apply H. intros. by apply D2_u8. }
    intros d Hd.
    change (morph_at Z.min 255 offs D2 y x <= val 255 D (y + d.1) (x + d.2)).
    etransitivity;
      [apply (fold_min_le (fun d => default 255 (at2 D2 (y + d.1) (x + d.2))) offs d Hd)|].
    change (val 255 D2 (y + d.1) (x + d.2) <= val 255 D (y + d.1) (x + d.2)).
    destruct (at2 src (y + d.1) (x + d.2)) as [w|] eqn:Hq.
    + pose proof (D2_le_D _ _ _ Hq) as H. rewrite val_D2, val_D, Hq in H.
      by rewrite val_D2, val_D, Hq.
    + by rewrite val_D2, val_D, Hq.
  - (* E <= E2 *)
    unfold morph_at at 2.
    apply (fold_min_ge (fun d => default 255 (at2 D2 (y + d.1) (x + d.2)))).
    { pose proof (erode_at_u8 D y x) as H. apply H. intros. by apply D_u8. }
    intros d Hd.
    pose proof (E_le_D2 y x v d Hin Hd) as H. rewrite val_E, Hin in H. exact H.
Qed.

Lemma closing_idempotent_section : closing offs (closing offs src) = closing offs src.
Proof.
  change (E2 = E). apply mat_ext.
  - unfold E2, D2, E, D, erode_offsets, dilate_offsets. by rewrite !morph_length.
  - apply closing_idempotent_at.
Qed.

End Closing.

(** The closing the refiner would be with a centred 3 x 3 square of ones as
    kernel is idempotent on every 8-bit mask. *)
Lemma closing_idempotent (offs : list (Z * Z)) (src : Gray) :
  symmetric offs -> all2 u8 src ->
  closing offs (closing offs src) = closing offs src.
Proof. apply closing_idempotent_section. Qed.

Lemma square_3x3_symmetric :
  symmetric (structuring_offsets [[1; 1; 1]; [1; 1; 1]; [1; 1; 1]]).
Proof.
  unfold symmetric. apply Forall_forall.
  refine (bool_decide_unpack _ _). vm_compute. exact I.
Qed.

(** * The function across its inputs and its callers *)

(** ** The output-size check *)

(** X24.  The check of the requested size comes first and decides alone:
    the call raises the width message exactly when a width is requested
    that exceeds the image width, and the height message exactly when the
    width passes and a requested height exceeds the image height; a call
    that is refused has the same outcome whatever the OpenCV routines
    compute and whatever [debug] is, no segmentation having started. *)
Theorem X24_size_check_comes_first (cv : OpenCV) (sto : store) (image : Bgr)
    (ow oh : option Z) (debug : bool) (params : option loc) :
  let out := (extract_characters cv sto image ow oh debug params).2 in
  (out = Raise (Exception "output_width must be less or equal to the image width")
   <-> exceeds ow (shape1 image) = true)
  /\ (out = Raise (Exception "output_height must be less or equal to the image height")
      <-> exceeds ow (shape1 image) = false /\ exceeds oh (shape0 image) = true)
  /\ (too_big image ow oh = true ->
      forall cv' debug', (extract_characters cv' sto image ow oh debug' params).2 = out).
Proof.
  intros out. subst out. rewrite extract_characters_outcome.
  set (P := (resolve_params sto params).2).
  assert (Hfit : too_big image ow oh = false ->
                 forall msg, located_characters cv P image ow oh debug
                             <> Raise (Exception msg)).
  { intros H msg. rewrite located_characters_fits by done.
    destruct (scan cv P debug image) as [st|e] eqn:Hs; simpl; [done|].
    apply scan_raises in Hs as (-> & _). done. }
  assert (Hout : forall msg,
             (chars ← located_characters cv P image ow oh debug;
              mret (snd <$> (chars : list (Rect * Gray)))) = Raise (Exception msg)
             -> located_characters cv P image ow oh debug = Raise (Exception msg)).
  { intros msg. destruct (located_characters cv P image ow oh debug); simpl; [done|].
    intros [= ->]. done. }
  unfold too_big in *.
  destruct (exceeds ow (shape1 image)) eqn:Hw; [|destruct (exceeds oh (shape0 image)) eqn:Hh].
  - assert (Hl : forall cv0 d, located_characters cv0 P image ow oh d
                 = Raise (Exception "output_width must be less or equal to the image width")).
    { intros cv0 d. unfold located_characters, check_output_size. by rewrite Hw. }
    rewrite Hl. simpl. split; [done|]. split.
    + split; [done|]. by intros [? _].
    + intros _ cv' debug'. rewrite extract_characters_outcome. fold P. by rewrite Hl.
  - assert (Hl : forall cv0 d, located_characters cv0 P image ow oh d
                 = Raise (Exception "output_height must be less or equal to the image height")).
    { intros cv0 d. unfold located_characters, check_output_size. by rewrite Hw, Hh. }
    rewrite Hl. simpl. split; [done|]. split; [done|].
    intros _ cv' debug'. rewrite extract_characters_outcome. fold P. by rewrite Hl.
  - simpl. split; [|split; [|done]].
    + split; [|done]. intros H. apply Hout in H. by apply Hfit in H.
    + split; [|by intros [_ ?]]. intros H. apply Hout in H. by apply Hfit in H.
Qed.

Lemma X24_witness :
  (extract_characters TwoLevel.cv TwoLevel.sto0 [replicate 50 TwoLevel.W]
                      (Some 64) (Some 64) false None).2
  = Raise (Exception "output_width must be less or equal to the image width").
Proof.
  refine (proj2 (proj1 (X24_size_check_comes_first TwoLevel.cv TwoLevel.sto0
                          [replicate 50 TwoLevel.W] (Some 64) (Some 64) false None)) _).
  reflexivity.
Defined.

(** ** The dictionary across calls *)

(** X2.  The result depends on the dictionary only through the thirteen
    keys the function reads: two calls whose dictionaries (the same object
    or not) agree on those keys, whatever else they hold, a
    ["training_epochs"] entry of [main] for instance, have the same
    outcome. *)
Theorem X2_only_read_keys_matter (cv : OpenCV) (sto1 sto2 : store) (l1 l2 : loc)
    (d1 d2 : gmap string Z) (image : Bgr) (ow oh : option Z) (debug : bool) :
  sto1 !! l1 = Some d1 -> sto2 !! l2 = Some d2 ->
  Forall (fun k => d1 !! k = d2 !! k) read_keys ->
  (extract_characters cv sto1 image ow oh debug (Some l1)).2
  = (extract_characters cv sto2 image ow oh debug (Some l2)).2.
Proof.
  intros H1 H2 Hk. rewrite !extract_characters_outcome.
  rewrite (located_characters_same cv (resolve_params sto1 (Some l1)).2
                                   (resolve_params sto2 (Some l2)).2); [done|].
  rewrite !resolve_params_Some. simpl.
  rewrite (lookup_total_correct _ _ _ H1), (lookup_total_correct _ _ _ H2).
  unfold same_on. eapply Forall_impl; [exact Hk|].
  intros k E. simpl in E. by rewrite !param_union_default, E.
Qed.

Lemma X2_witness :
  (extract_characters TwoLevel.cv TwoLevel.sto0 TwoLevel.captcha None None false
                      (Some TwoLevel.caller)).2
  = (extract_characters TwoLevel.cv
       {[ 7%positive := <["training_epochs"%string := 50]> TwoLevel.small_params ]}
       TwoLevel.captcha None None false (Some 7%positive)).2.
Proof.
  apply (X2_only_read_keys_matter TwoLevel.cv TwoLevel.sto0 _ TwoLevel.caller 7%positive
           TwoLevel.small_params (<["training_epochs"%string := 50]> TwoLevel.small_params)).
  - apply lookup_singleton_eq.
  - apply lookup_singleton_eq.
  - unfold read_keys, background_keys, growth_keys, filter_keys, grouping_keys. simpl.
    repeat constructor; by rewrite lookup_insert_ne.
Defined.

Lemma resolve_params_twice (sto : store) (params : option loc) :
  resolve_params (resolve_params sto params).1 params = resolve_params sto params.
Proof.
  destruct params as [l|]; [|done].
  rewrite !resolve_params_Some. cbn [fst snd].
  rewrite lookup_total_insert_eq.
  assert (((sto !!! l) ∪ PARAMS_DEFAULT) ∪ PARAMS_DEFAULT = (sto !!! l) ∪ PARAMS_DEFAULT) as ->.
  { by rewrite <-(assoc_L (∪)), (idemp_L (∪)). }
  by rewrite insert_insert_eq.
Qed.

(** X3.  The completion of the caller's dictionary happens once: a later
    call with the same dictionary object, on any image, leaves the store as
    the first call left it, and has the outcome it would have had on the
    store before the first call. *)
Theorem X3_later_calls_see_same_parameters (cv : OpenCV) (sto : store) (params : option loc)
    (image image' : Bgr) (ow oh ow' oh' : option Z) (debug debug' : bool) :
  let sto1 := (extract_characters cv sto image ow oh debug params).1 in
  extract_characters cv sto1 image' ow' oh' debug' params
  = (sto1, (extract_characters cv sto image' ow' oh' debug' params).2).
Proof.
  intros sto1. subst sto1.
  rewrite (surjective_pairing (extract_characters cv _ image' ow' oh' debug' params)).
  rewrite extract_characters_store, !extract_characters_outcome.
  rewrite !extract_characters_store, resolve_params_twice. done.
Qed.

(** X4.  An empty dictionary stands for the defaults: the call has the
    same outcome as the call without [params]; the difference is in the
    store, where the empty dictionary becomes a copy of the default table,
    while the call without [params] writes nothing. *)
Theorem X4_empty_dictionary_is_default (cv : OpenCV) (sto : store) (l : loc) (image : Bgr)
    (ow oh : option Z) (debug : bool) :
  sto !! l = Some ∅ ->
  (extract_characters cv sto image ow oh debug (Some l)).2
  = (extract_characters cv sto image ow oh debug None).2
  /\ (extract_characters cv sto image ow oh debug (Some l)).1 = <[l := PARAMS_DEFAULT]> sto
  /\ (extract_characters cv sto image ow oh debug None).1 = sto.
Proof.
  intros Hl. rewrite !extract_characters_outcome, !extract_characters_store.
  rewrite resolve_params_Some, resolve_params_None. cbn [fst snd].
  rewrite (lookup_total_correct _ _ _ Hl), (left_id_L ∅ (∪)). done.
Qed.

Lemma X4_witness :
  (extract_characters TwoLevel.cv {[ 3%positive := ∅ ]} TwoLevel.captcha None None false
                      (Some 3%positive)).1
  = <[3%positive := PARAMS_DEFAULT]> {[ 3%positive := ∅ ]}.
Proof.
  apply (X4_empty_dictionary_is_default TwoLevel.cv {[ 3%positive := ∅ ]} 3%positive
           TwoLevel.captcha None None false).
  apply lookup_singleton_eq.
Defined.

(** ** One output size alone *)

(** X6.  An output width given without a height (or a height without a
    width) is checked against the image but not applied: the call raises
    the size exception when the value exceeds the image, and otherwise
    returns what the call without any output size returns, the characters
    at the size of their rectangles. *)
Theorem X6_one_size_alone_is_checked_not_applied (cv : OpenCV) (sto : store) (image : Bgr)
    (size : Z) (debug : bool) (params : option loc) :
  let run := fun ow oh => (extract_characters cv sto image ow oh debug params).2 in
  run (Some size) None
  = (if Z.of_nat (shape1 image) <? size
     then Raise (Exception "output_width must be less or equal to the image width")
     else run None None)
  /\ run None (Some size)
     = (if Z.of_nat (shape0 image) <? size
        then Raise (Exception "output_height must be less or equal to the image height")
        else run None None).
Proof.
  intros run. subst run. cbv beta. rewrite !extract_characters_outcome.
  unfold located_characters, check_output_size, exceeds, cut_character.
  split.
  - destruct (Z.of_nat (shape1 image) <? size); [done|]. reflexivity.
  - destruct (Z.of_nat (shape0 image) <? size); [done|]. reflexivity.
Qed.

(** ** The exception of the debug drawing *)

Lemma sweep_raises_at (params : gmap string Z) (image_masked : Bgr)
    (no_background_mask : Gray) (image_w image_h : nat) (xs : list nat) (st : scan_state)
    (x : nat) :
  (image_w < 20)%nat -> x ∈ xs ->
  accepts params image_masked no_background_mask image_w image_h x = true ->
  sweep params true image_masked no_background_mask image_w image_h xs st
  = Raise ZeroDivisionError.
Proof.
  intros Hw Hx Ha. revert st. induction xs as [|x' xs IH]; intros st.
  - by apply elem_of_nil in Hx.
  - simpl. rewrite visit_unfold.
    assert (Hd : forall c, debug_sample true image_w x' c = Raise ZeroDivisionError).
    { intros c. unfold debug_sample, mod_.
      rewrite Z.div_small by lia. done. }
    destruct (accepts _ _ _ _ _ x') eqn:Hx'.
    + by rewrite Hd.
    + apply IH. apply elem_of_cons in Hx as [->|Hx]; [congruence|done].
Qed.

(** X8.  The call raises [ZeroDivisionError] exactly when [debug] is on,
    the image is less than 20 pixels wide, the requested size fits and some
    column of the middle row gives an accepted candidate: line 189 then
    takes [x % (image_w // 20)] with a zero divisor. *)
Theorem X8_zero_division_exactly (cv : OpenCV) (sto : store) (image : Bgr)
    (ow oh : option Z) (debug : bool) (params : option loc) :
  (extract_characters cv sto image ow oh debug params).2 = Raise ZeroDivisionError
  <-> debug = true /\ (shape1 image < 20)%nat /\ too_big image ow oh = false
      /\ exists x, (x < shape1 image)%nat
                   /\ column_accepts cv (resolve_params sto params).2 image x = true.
Proof.
  rewrite extract_characters_outcome. set (P := (resolve_params sto params).2).
  split.
  - intros H. destruct (too_big image ow oh) eqn:Hb.
    + destruct (located_characters_too_big cv P image ow oh debug Hb) as (msg & _ & Hl).
      rewrite Hl in H. done.
    + rewrite located_characters_fits in H by done.
      destruct (scan cv P debug image) as [st|e] eqn:Hs; simpl in H; [done|].
      rewrite scan_is_sweep in Hs.
      apply sweep_raises in Hs as (_ & -> & Hw & x & Hx%elem_of_seq & Ha).
      repeat split; try done. exists x. split; [lia|done].
  - intros (-> & Hw & Hb & x & Hx & Ha).
    rewrite located_characters_fits by done. rewrite scan_is_sweep.
    rewrite (sweep_raises_at _ _ _ _ _ _ _ x); [done|done| |done].
    apply elem_of_seq. lia.
Qed.

(** ** Grouping switched off *)

(** X9.  With grouping switched off ([rects_group_threshold] not
    positive) [cv2.groupRectangles] hands the rectangles back as they are:
    the call returns one character per accepting column of the middle row,
    in column order, so a glyph that several columns cross comes back once
    for each of them. *)
Theorem X9_without_grouping_one_character_per_column (cv : OpenCV) (sto : store)
    (image : Bgr) (ow oh : option Z) (debug : bool) (params : option loc)
    (chars : list Gray) :
  let resolved := (resolve_params sto params).2 in
  param resolved "rects_group_threshold" <= 0 ->
  (extract_characters cv sto image ow oh debug params).2 = Return chars ->
  exists st,
    scan cv resolved debug image = Return st
    /\ chars = cut_character (refine (characters_mask st)) ow oh <$> rects st
    /\ rects st
       = (fun x => (candidate resolved (image_masked_of cv resolved image)
                              (background_mask cv resolved image)
                              (shape1 image) (shape0 image) x).2)
         <$> filter (fun x => column_accepts cv resolved image x = true)
                    (seq 0 (shape1 image))
    /\ length chars
       = length (filter (fun x => column_accepts cv resolved image x = true)
                        (seq 0 (shape1 image))).
Proof.
  intros resolved Hoff Hrun.
  apply extract_characters_returned in Hrun as (st & Hscan & _ & Hchars).
  fold resolved in Hscan, Hchars.
  unfold groupRectangles in Hchars.
  rewrite (proj2 (Z.leb_le _ _) Hoff) in Hchars. simpl in Hchars.
  exists st. split; [done|]. split; [done|].
  pose proof Hscan as Hsweep. rewrite scan_is_sweep in Hsweep.
  apply sweep_returns in Hsweep as [Hrects _]. simpl in Hrects.
  unfold accepted_rects in Hrects. split; [exact Hrects|].
  by rewrite Hchars, length_fmap, Hrects, length_fmap.
Qed.

Lemma X9_witness :
  exists st,
    scan TwoLevel.cv Shifted.resolved false TwoLevel.captcha = Return st
    /\ length (rects st) = 3%nat.
Proof.
  destruct (X9_without_grouping_one_character_per_column TwoLevel.cv TwoLevel.sto0
              TwoLevel.captcha None None false (Some TwoLevel.caller)
              [[[255; 255]; [255; 255]]; [[255; 255]; [255; 255]];
               [[255; 255; 255; 255; 255]; [255; 255; 255; 255; 255];
                [255; 255; 255; 255; 255]]])
    as (st & Hscan & Hchars & _ & _).
  - vm_compute. discriminate.
  - vm_compute. reflexivity.
  - exists st. split; [exact Hscan|].
    apply (f_equal length) in Hchars. rewrite length_fmap in Hchars. by rewrite <-Hchars.
Defined.

(** ** Masks stay masks *)

Lemma all2_at2 {A} (P : A -> Prop) (a : list (list A)) (y x : Z) (v : A) :
  all2 P a -> at2 a y x = Some v -> P v.
Proof.
  intros Ha (row & Hrow & Hv)%at2_elem.
  unfold all2 in Ha. rewrite Forall_forall in Ha.
  specialize (Ha row Hrow). rewrite Forall_forall in Ha. auto.
Qed.

Lemma all2_imap2 {A B} (P : B -> Prop) (f : nat -> nat -> A -> B) (a : list (list A)) :
  (forall y x v, P (f y x v)) -> all2 P (imap (fun y row => imap (f y) row) a).
Proof.
  intros Hf. unfold all2. apply Forall_forall.
  intros row (y & r & -> & _)%elem_of_lookup_imap.
  apply Forall_forall. intros v (x & u & -> & _)%elem_of_lookup_imap. apply Hf.
Qed.

Lemma all2_fmap2 {A B} (P : A -> Prop) (Q : B -> Prop) (f : A -> B) (a : list (list A)) :
  (forall v, P v -> Q (f v)) -> all2 P a ->
  all2 Q ((fun row : list A => f <$> row) <$> a).
Proof.
  intros Hf Ha. unfold all2 in *. apply Forall_fmap.
  eapply Forall_impl; [exact Ha|]. intros row Hrow. simpl.
  apply Forall_fmap. eapply Forall_impl; [exact Hrow|]. exact Hf.
Qed.

Lemma Forall_slice {A} (P : A -> Prop) (l : list A) (i j : Z) :
  Forall P l -> Forall P (Py.slice l i j).
Proof. intros H. unfold Py.slice. by apply Forall_take, Forall_drop. Qed.

Lemma all2_slice2 {A} (P : A -> Prop) (a : list (list A)) (y0 y1 x0 x1 : Z) :
  all2 P a -> all2 P (slice2 a y0 y1 x0 x1).
Proof.
  intros Ha. unfold all2, slice2 in *. apply Forall_fmap.
  eapply Forall_impl; [apply Forall_slice, Ha|].
  intros row Hrow. simpl. by apply Forall_slice.
Qed.

Lemma all2_zip_with {A B C} (P : A -> Prop) (Q : B -> Prop) (R : C -> Prop)
    (f : A -> B -> C) (a : list (list A)) (b : list (list B)) :
  (forall u v, P u -> Q v -> R (f u v)) ->
  all2 P a -> all2 Q b -> all2 R (zip_with (zip_with f) a b).
Proof.
  intros Hf Ha. unfold all2 in *. revert b.
  induction Ha as [|ra a Hra _ IH]; intros b Hb; [constructor|].
  destruct Hb as [|rb b Hrb Hb]; [constructor|]. simpl. constructor; [|by apply IH].
  clear -Hf Hra Hrb. revert rb Hrb.
  induction Hra as [|u ra Hu _ IH]; intros rb Hrb; [constructor|].
  destruct Hrb as [|v rb Hv Hrb]; [constructor|]. simpl. constructor; auto.
Qed.

Lemma all2_morph (P : Z -> Prop) (op : Z -> Z -> Z) (border : Z) (offs : list (Z * Z))
    (src : Gray) :
  P border -> (forall a b, P a -> P b -> P (op a b)) -> all2 P src ->
  all2 P (morph op border offs src).
Proof.
  intros Hb Hop Hsrc. unfold morph.
  apply (all2_imap2 P (fun y x (_ : Z) =>
           foldr (fun d acc =>
                    op (default border (at2 src (Z.of_nat y + d.1) (Z.of_nat x + d.2))) acc)
                 border offs)).
  intros y x _. induction offs as [|d offs IH]; simpl; [done|].
  apply Hop; [|done].
  destruct (at2 src _ _) as [v|] eqn:Hv; simpl; [|done]. by eapply all2_at2.
Qed.

Lemma binary_min (a b : Z) : binary a -> binary b -> binary (Z.min a b).
Proof. unfold binary. lia. Qed.

Lemma binary_max (a b : Z) : binary a -> binary b -> binary (Z.max a b).
Proof. unfold binary. lia. Qed.

Lemma binary_land (a b : Z) : binary a -> binary b -> binary (Z.land a b).
Proof. intros [->| ->] [->| ->]; vm_compute; auto. Qed.

Lemma binary_lor (a b : Z) : binary a -> binary b -> binary (Z.lor a b).
Proof. intros [->| ->] [->| ->]; vm_compute; auto. Qed.

Lemma erode_binary (src : Gray) (kernel : Z * Z) :
  all2 binary src -> all2 binary (erode src kernel).
Proof. apply all2_morph; [by right|apply binary_min]. Qed.

Lemma dilate_binary (src : Gray) (kernel : Z * Z) :
  all2 binary src -> all2 binary (dilate src kernel).
Proof. apply all2_morph; [by left|apply binary_max]. Qed.

Lemma zeros_binary (h w : nat) : all2 binary (zeros h w).
Proof. unfold zeros, all2. apply Forall_replicate, Forall_replicate. by left. Qed.

(** A flood-fill mask that starts from zeros holds zeros and ones. *)
Lemma fill_mask_bits (h w : nat) (R : Region) :
  all2 (fun v => v = 0 \/ v = 1) (fill_mask (zeros h w) R).
Proof.
  unfold all2, fill_mask. apply Forall_forall.
  intros row (y & r & -> & Hr)%elem_of_lookup_imap.
  apply Forall_forall. intros v (x & u & -> & Hu)%elem_of_lookup_imap.
  destruct (_ || _ || _ || _); [by right|]. destruct (inside R _ _); [by right|].
  left. unfold zeros in Hr. apply lookup_replicate in Hr as [-> _].
  by apply lookup_replicate in Hu as [-> _].
Qed.

Lemma grow_candidate_binary (image_masked : Bgr) (no_background_mask : Gray)
    (color_threshold : Pixel) (image_w image_h x : nat) :
  all2 binary no_background_mask ->
  all2 binary (grow_candidate image_masked no_background_mask color_threshold
                              image_w image_h x).1.
Proof.
  intros Hm. unfold grow_candidate, floodFill. cbn [fst snd].
  apply (all2_zip_with binary binary binary); [apply binary_land| |done].
  unfold mul_u8.
  apply (all2_fmap2 (fun v => v = 0 \/ v = 1)); [intros v [->| ->]; vm_compute; auto|].
  apply all2_slice2, fill_mask_bits.
Qed.

Lemma merged_mask_binary (params : gmap string Z) (image_masked : Bgr)
    (no_background_mask : Gray) (image_w image_h : nat) (xs : list nat) (acc : Gray) :
  all2 binary no_background_mask -> all2 binary acc ->
  all2 binary (merged_mask params image_masked no_background_mask image_w image_h xs acc).
Proof.
  intros Hm. revert acc. unfold merged_mask.
  induction xs as [|x xs IH]; intros acc Hacc; simpl; [done|].
  apply IH. destruct (accepts _ _ _ _ _ x); [|done].
  apply (all2_zip_with binary binary binary); [apply binary_lor| |done].
  by apply grow_candidate_binary.
Qed.

Section MaskValues.

Context (cv : OpenCV).
Hypothesis Hthreshold :
  forall src thresh, all2 binary (threshold_BINARY_INV_OTSU cv src thresh 255).

Lemma background_mask_binary (params : gmap string Z) (image : Bgr) :
  all2 binary (background_mask cv params image).
Proof. unfold background_mask. apply erode_binary, Hthreshold. Qed.

Lemma aggregate_mask_binary (params : gmap string Z) (debug : bool) (image : Bgr)
    (st : scan_state) :
  scan cv params debug image = Return st -> all2 binary (characters_mask st).
Proof.
  rewrite scan_is_sweep. intros [_ ->]%sweep_returns. simpl.
  apply merged_mask_binary; [apply background_mask_binary|apply zeros_binary].
Qed.

Lemma returned_characters_binary (sto : store) (image : Bgr) (ow oh : option Z)
    (debug : bool) (params : option loc) (chars : list Gray) :
  (extract_characters cv sto image ow oh debug params).2 = Return chars ->
  Forall (all2 binary) chars.
Proof.
  intros Hrun.
  apply extract_characters_returned in Hrun as (st & Hscan & _ & ->).
  apply aggregate_mask_binary in Hscan.
  assert (Hb : all2 binary (refine (characters_mask st))).
  { unfold refine. by apply erode_binary, dilate_binary. }
  apply Forall_fmap, Forall_forall. intros [x y w h] _.
  unfold compose, cut_character. cbv beta iota zeta.
  pose proof (all2_slice2 binary _ y (y + h) x (x + w) Hb) as Hcut.
  destruct ow as [ow|]; [|done]. destruct oh as [oh|]; [|done].
  apply (resize_pixels _ (ow, oh) binary); [by left|done].
Qed.

End MaskValues.

(** X5.  When the threshold routine returns only 0 and 255 (as OpenCV's
    does for [maxval = 255]), every mask of the pipeline holds only 0 and
    255: the foreground mask, each candidate's mask, the aggregate mask
    before and after refinement, and every pixel of every returned
    character, resized or not. *)
Theorem X5_characters_are_masks (cv : OpenCV) :
  (forall src thresh, all2 binary (threshold_BINARY_INV_OTSU cv src thresh 255)) ->
  (forall params image, all2 binary (background_mask cv params image))
  /\ (forall params image x,
        all2 binary (candidate params (image_masked_of cv params image)
                               (background_mask cv params image)
                               (shape1 image) (shape0 image) x).1)
  /\ (forall params debug image st,
        scan cv params debug image = Return st ->
        all2 binary (characters_mask st) /\ all2 binary (refine (characters_mask st)))
  /\ forall sto image ow oh debug params chars,
       (extract_characters cv sto image ow oh debug params).2 = Return chars ->
       Forall (all2 binary) chars.
Proof.
  intros Hcv. split; [|split; [|split]].
  - intros params image. by apply background_mask_binary.
  - intros params image x. unfold candidate.
    by apply grow_candidate_binary, background_mask_binary.
  - intros params debug image st Hscan.
    pose proof (aggregate_mask_binary cv Hcv params debug image st Hscan) as Hm.
    split; [done|]. unfold refine. by apply erode_binary, dilate_binary.
  - intros sto image ow oh debug params chars. by apply returned_characters_binary.
Qed.

Lemma TwoLevel_threshold_binary (src : Gray) (thresh : Z) :
  all2 binary (TwoLevel.threshold_BINARY_INV_OTSU src thresh 255).
Proof.
  unfold TwoLevel.threshold_BINARY_INV_OTSU.
  apply (all2_fmap2 (fun _ => True)).
  - intros v _. destruct (_ <? v); [by left|by right].
  - unfold all2. apply Forall_forall. intros row _. by apply Forall_forall.
Qed.

Lemma X5_witness :
  Forall (all2 binary)
         [[[255; 255]; [255; 255]]; [[255; 255]; [255; 255]];
          [[255; 255; 255; 255; 255]; [255; 255; 255; 255; 255];
           [255; 255; 255; 255; 255]]].
Proof.
  refine (proj2 (proj2 (proj2 (X5_characters_are_masks TwoLevel.cv
                                 TwoLevel_threshold_binary)))
            TwoLevel.sto0 TwoLevel.captcha None None false (Some TwoLevel.caller) _ _).
  vm_compute. reflexivity.
Defined.

(** ** Where the rectangles lie *)

Lemma at2_imap2 {A B} (f : nat -> nat -> A -> B) (a : list (list A)) (y x : nat) :
  at2 (imap (fun y row => imap (f y) row) a) (Z.of_nat y) (Z.of_nat x)
  = f y x <$> at2 a (Z.of_nat y) (Z.of_nat x).
Proof.
  rewrite !at2_nat, list_lookup_imap.
  destruct (a !! y) as [row|]; simpl; [|done]. by rewrite list_lookup_imap.
Qed.

Lemma at2_bounds {A} (a : list (list A)) (y x : nat) (v : A) :
  rectangular (shape1 a) a -> at2 a (Z.of_nat y) (Z.of_nat x) = Some v ->
  (y < shape0 a)%nat /\ (x < shape1 a)%nat.
Proof.
  intros Hrect. rewrite at2_nat.
  destruct (a !! y) as [row|] eqn:Hrow; simpl; [|done]. intros Hv.
  split; [by eapply lookup_lt_Some|].
  unfold rectangular in Hrect. rewrite Forall_forall in Hrect.
  rewrite <-(Hrect row); [by eapply lookup_lt_Some|].
  eapply list_elem_of_lookup_2; eauto.
Qed.

Lemma inside_Some (R : Region) (y x : Z) :
  inside R y x = true <-> at2 R y x = Some true.
Proof.
  unfold inside. destruct (at2 R y x) as [[]|]; simpl; split; congruence.
Qed.

Lemma grow_once_keeps (can R : Region) (y x : nat) :
  inside R (Z.of_nat y) (Z.of_nat x) = true ->
  inside (grow_once can R) (Z.of_nat y) (Z.of_nat x) = true.
Proof.
  rewrite !inside_Some. unfold grow_once. intros H.
  rewrite (at2_imap2 (fun y x r =>
             r || (inside can (Z.of_nat y) (Z.of_nat x)
                   && (inside R (Z.of_nat y - 1) (Z.of_nat x)
                       || inside R (Z.of_nat y + 1) (Z.of_nat x)
                       || inside R (Z.of_nat y) (Z.of_nat x - 1)
                       || inside R (Z.of_nat y) (Z.of_nat x + 1))))).
  by rewrite H.
Qed.

Lemma grow_once_domain (can R : Region) (y x : nat) :
  is_Some (at2 (grow_once can R) (Z.of_nat y) (Z.of_nat x))
  <-> is_Some (at2 R (Z.of_nat y) (Z.of_nat x)).
Proof.
  unfold grow_once.
  rewrite (at2_imap2 (fun y x r =>
             r || (inside can (Z.of_nat y) (Z.of_nat x)
                   && (inside R (Z.of_nat y - 1) (Z.of_nat x)
                       || inside R (Z.of_nat y + 1) (Z.of_nat x)
                       || inside R (Z.of_nat y) (Z.of_nat x - 1)
                       || inside R (Z.of_nat y) (Z.of_nat x + 1))))).
  by rewrite fmap_is_Some.
Qed.

Lemma grow_keeps (n : nat) (can R : Region) (y x : nat) :
  inside R (Z.of_nat y) (Z.of_nat x) = true ->
  inside (grow n can R) (Z.of_nat y) (Z.of_nat x) = true.
Proof.
  revert R. induction n as [|n IH]; intros R H; simpl; [done|].
  by apply IH, grow_once_keeps.
Qed.

Lemma grow_domain (n : nat) (can R : Region) (y x : nat) :
  is_Some (at2 (grow n can R) (Z.of_nat y) (Z.of_nat x))
  <-> is_Some (at2 R (Z.of_nat y) (Z.of_nat x)).
Proof.
  revert R. induction n as [|n IH]; intros R; simpl; [done|].
  by rewrite IH, grow_once_domain.
Qed.

(** The filled region lies in the image and holds the seed. *)
Lemma filled_region_domain (image : Bgr) (mask : Gray) (sx sy : nat) (lo up : Pixel)
    (y x : nat) :
  inside (filled_region image mask sx sy lo up) (Z.of_nat y) (Z.of_nat x) = true ->
  is_Some (at2 image (Z.of_nat y) (Z.of_nat x)).
Proof.
  unfold filled_region. destruct (at2 image (Z.of_nat sy) (Z.of_nat sx)) as [seed|].
  - intros H. apply inside_Some in H.
    assert (is_Some (at2 (grow (shape0 image * shape1 image)
                               (fillable image mask lo up seed) (seed_region image sx sy))
                         (Z.of_nat y) (Z.of_nat x))) as Hd by eauto.
    apply grow_domain in Hd. unfold seed_region in Hd.
    rewrite (at2_imap2 (fun y x (_ : Pixel) => (y =? sy)%nat && (x =? sx)%nat)) in Hd.
    by apply fmap_is_Some in Hd.
  - rewrite inside_Some, (at2_fmap (fun _ : Pixel => false)).
    destruct (at2 image _ _); [eauto|done].
Qed.

Lemma filled_region_seed (image : Bgr) (mask : Gray) (sx sy : nat) (lo up : Pixel) :
  is_Some (at2 image (Z.of_nat sy) (Z.of_nat sx)) ->
  inside (filled_region image mask sx sy lo up) (Z.of_nat sy) (Z.of_nat sx) = true.
Proof.
  intros [seed Hseed]. unfold filled_region. rewrite Hseed.
  apply grow_keeps. apply inside_Some. unfold seed_region.
  rewrite (at2_imap2 (fun y x (_ : Pixel) => (y =? sy)%nat && (x =? sx)%nat)), Hseed.
  simpl. by rewrite !Nat.eqb_refl.
Qed.

Lemma elem_of_concat {A} (x : A) (ls : list (list A)) :
  x ∈ concat ls <-> exists l, x ∈ l /\ l ∈ ls.
Proof.
  induction ls as [|l ls IH]; simpl.
  - split; [by intros ?%elem_of_nil|]. by intros (l & _ & ?%elem_of_nil).
  - rewrite elem_of_app, IH. split.
    + intros [H|(l' & H1 & H2)]; [exists l; split; [done|by left]|].
      exists l'. split; [done|by right].
    + intros (l' & H1 & [->|H2]%elem_of_cons); [by left|]. right. eauto.
Qed.

Lemma elem_of_filled_points (R : Region) (p : Z * Z) :
  p ∈ filled_points R
  <-> exists y x, p = (Z.of_nat x, Z.of_nat y)
                  /\ inside R (Z.of_nat y) (Z.of_nat x) = true.
Proof.
  unfold filled_points. rewrite elem_of_concat. split.
  - intros (pts & Hp & (y & row & -> & Hrow)%elem_of_lookup_imap).
    apply list_elem_of_omap in Hp as (o & (x & r & -> & Hr)%elem_of_lookup_imap & Ho).
    destruct r; simpl in Ho; [|done]. injection Ho as <-.
    exists y, x. split; [done|]. apply inside_Some. rewrite at2_nat, Hrow. simpl. done.
  - intros (y & x & -> & H). apply inside_Some in H. rewrite at2_nat in H.
    destruct (R !! y) as [row|] eqn:Hrow; simpl in H; [|done].
    eexists. split; [|apply elem_of_lookup_imap; eauto].
    apply list_elem_of_omap. exists (Some (Z.of_nat x, Z.of_nat y)). split; [|done].
    apply elem_of_lookup_imap. exists x, true. done.
Qed.

Lemma foldr_min_spec (x0 : Z) (l : list Z) :
  foldr Z.min x0 l <= x0
  /\ (forall v, v ∈ l -> foldr Z.min x0 l <= v)
  /\ forall b, b <= x0 -> (forall v, v ∈ l -> b <= v) -> b <= foldr Z.min x0 l.
Proof.
  induction l as [|u l (IH1 & IH2 & IH3)]; simpl.
  - split; [lia|]. split; [by intros v ?%elem_of_nil|]. auto.
  - split; [lia|]. split.
    + intros v [->|Hv]%elem_of_cons; [lia|]. specialize (IH2 v Hv). lia.
    + intros b Hb Hl. apply Z.min_glb; [apply Hl; by left|].
      apply IH3; [done|]. intros v Hv. apply Hl. by right.
Qed.

Lemma foldr_max_spec (x0 : Z) (l : list Z) :
  x0 <= foldr Z.max x0 l
  /\ (forall v, v ∈ l -> v <= foldr Z.max x0 l)
  /\ forall b, x0 <= b -> (forall v, v ∈ l -> v <= b) -> foldr Z.max x0 l <= b.
Proof.
  induction l as [|u l (IH1 & IH2 & IH3)]; simpl.
  - split; [lia|]. split; [by intros v ?%elem_of_nil|]. auto.
  - split; [lia|]. split.
    + intros v [->|Hv]%elem_of_cons; [lia|]. specialize (IH2 v Hv). lia.
    + intros b Hb Hl. apply Z.max_lub; [apply Hl; by left|].
      apply IH3; [done|]. intros v Hv. apply Hl. by right.
Qed.

(** The bounding rectangle holds every point, and stays within any box
    that holds every point. *)
Lemma boundingRect_spec (pts : list (Z * Z)) (p : Z * Z) (W H : Z) :
  p ∈ pts ->
  (forall q, q ∈ pts -> 0 <= q.1 < W /\ 0 <= q.2 < H) ->
  let r := boundingRect pts in
  (rect_x r <= p.1 < rect_x r + rect_w r)
  /\ (rect_y r <= p.2 < rect_y r + rect_h r)
  /\ 0 <= rect_x r /\ rect_x r + rect_w r <= W
  /\ 0 <= rect_y r /\ rect_y r + rect_h r <= H.
Proof.
  intros Hp Hbox. destruct pts as [|[x0 y0] rest]; [by apply elem_of_nil in Hp|].
  cbn [boundingRect]. cbv zeta. cbn [rect_x rect_y rect_w rect_h].
  destruct (foldr_min_spec x0 (fst <$> rest)) as (Hx1 & Hx2 & Hx3).
  destruct (foldr_max_spec x0 (fst <$> rest)) as (HX1 & HX2 & HX3).
  destruct (foldr_min_spec y0 (snd <$> rest)) as (Hy1 & Hy2 & Hy3).
  destruct (foldr_max_spec y0 (snd <$> rest)) as (HY1 & HY2 & HY3).
  pose proof (Hbox (x0, y0) ltac:(by left)) as [H0x H0y]. simpl in H0x, H0y.
  assert (Hin : forall q, q ∈ rest -> 0 <= q.1 < W /\ 0 <= q.2 < H).
  { intros q Hq. apply Hbox. by right. }
  specialize (Hx3 0 ltac:(lia)). specialize (Hy3 0 ltac:(lia)).
  specialize (HX3 (W - 1) ltac:(lia)). specialize (HY3 (H - 1) ltac:(lia)).
  assert (0 <= foldr Z.min x0 rest.*1).
  { apply Hx3. intros v (q & -> & Hq)%list_elem_of_fmap. apply Hin in Hq. lia. }
  assert (0 <= foldr Z.min y0 rest.*2).
  { apply Hy3. intros v (q & -> & Hq)%list_elem_of_fmap. apply Hin in Hq. lia. }
  assert (foldr Z.max x0 rest.*1 <= W - 1).
  { apply HX3. intros v (q & -> & Hq)%list_elem_of_fmap. apply Hin in Hq. lia. }
  assert (foldr Z.max y0 rest.*2 <= H - 1).
  { apply HY3. intros v (q & -> & Hq)%list_elem_of_fmap. apply Hin in Hq. lia. }
  apply elem_of_cons in Hp as [->|Hp]; simpl.
  - lia.
  - specialize (Hx2 p.1 ltac:(by apply list_elem_of_fmap_2)).
    specialize (HX2 p.1 ltac:(by apply list_elem_of_fmap_2)).
    specialize (Hy2 p.2 ltac:(by apply list_elem_of_fmap_2)).
    specialize (HY2 p.2 ltac:(by apply list_elem_of_fmap_2)).
    lia.
Qed.

(** The rectangle of the candidate grown at a seed column. *)
Lemma candidate_rect_spec (params : gmap string Z) (image_masked : Bgr)
    (no_background_mask : Gray) (image_w image_h x : nat) (W H : nat) :
  (forall y x, is_Some (at2 image_masked (Z.of_nat y) (Z.of_nat x)) ->
               (y < H)%nat /\ (x < W)%nat) ->
  is_Some (at2 image_masked (Z.of_nat (image_h / 2)) (Z.of_nat x)) ->
  let r := (candidate params image_masked no_background_mask image_w image_h x).2 in
  (rect_x r <= Z.of_nat x < rect_x r + rect_w r)
  /\ (rect_y r <= Z.of_nat (image_h / 2) < rect_y r + rect_h r)
  /\ 0 <= rect_x r /\ rect_x r + rect_w r <= Z.of_nat W
  /\ 0 <= rect_y r /\ rect_y r + rect_h r <= Z.of_nat H.
Proof.
  intros Hdom Hseed. unfold candidate, grow_candidate, floodFill. cbn [fst snd].
  set (t := param params "floodfill_threshold").
  set (R := filled_region image_masked _ x (image_h / 2)%nat (t, t, t) (t, t, t)).
  apply (boundingRect_spec (filled_points R) (Z.of_nat x, Z.of_nat (image_h / 2))).
  - apply elem_of_filled_points. exists (image_h / 2)%nat, x. split; [done|].
    by apply filled_region_seed.
  - intros q (y' & x' & -> & Hq)%elem_of_filled_points. simpl.
    apply filled_region_domain, Hdom in Hq. lia.
Qed.

Lemma image_masked_domain (cv : OpenCV) (params : gmap string Z) (image : Bgr) (y x : nat) :
  rectangular (shape1 image) image ->
  is_Some (at2 (image_masked_of cv params image) (Z.of_nat y) (Z.of_nat x)) ->
  (y < shape0 image)%nat /\ (x < shape1 image)%nat.
Proof.
  intros Hrect. unfold image_masked_of, bitwise_and_bgr. rewrite at2_zip_with.
  destruct (at2 image (Z.of_nat y) (Z.of_nat x)) as [p|] eqn:Hp; [|by intros [? ?]].
  intros _. by eapply at2_bounds.
Qed.

Lemma seed_in_image_masked (cv : OpenCV) (params : gmap string Z) (image : Bgr) (x : nat) :
  rectangular (shape1 image) image -> (x < shape1 image)%nat ->
  is_seed (background_mask cv params image) (shape0 image) x = true ->
  is_Some (at2 (image_masked_of cv params image) (Z.of_nat (shape0 image / 2)) (Z.of_nat x)).
Proof.
  intros Hrect Hx Hseed. unfold image_masked_of, bitwise_and_bgr. rewrite at2_zip_with.
  destruct (at2_rectangular image (Z.of_nat (shape0 image / 2)) (Z.of_nat x)) as [p ->].
  - intros ->. unfold shape1 in Hx. simpl in Hx. lia.
  - done.
  - assert (0 < shape0 image)%nat.
    { destruct image; unfold shape0, shape1 in *; simpl in *; lia. }
    split; [lia|]. apply Nat2Z.inj_lt. apply Nat.div_lt; lia.
  - lia.
  - unfold is_seed in Hseed. apply negb_true_iff, bool_decide_eq_false in Hseed.
    unfold cvtColor_GRAY2BGR. rewrite (at2_fmap (fun v : Z => (v, v, v))).
    destruct (at2 (background_mask cv params image) _ _); [eauto|done].
Qed.

(** X7.  On a rectangular image every rectangle the sweep collects lies
    within the image, is not empty, crosses the middle row and holds the
    column it was grown from, which is an accepting column. *)
Theorem X7_rectangles_cross_the_scan_row (cv : OpenCV) (params : gmap string Z)
    (debug : bool) (image : Bgr) (st : scan_state) :
  rectangular (shape1 image) image ->
  scan cv params debug image = Return st ->
  Forall (fun r =>
            (0 <= rect_x r /\ 0 < rect_w r /\ rect_x r + rect_w r <= Z.of_nat (shape1 image))
            /\ (0 <= rect_y r /\ rect_y r + rect_h r <= Z.of_nat (shape0 image))
            /\ (rect_y r <= Z.of_nat (shape0 image / 2) < rect_y r + rect_h r)
            /\ exists x, (x < shape1 image)%nat
                         /\ column_accepts cv params image x = true
                         /\ rect_x r <= Z.of_nat x < rect_x r + rect_w r)
         (rects st).
Proof.
  intros Hrect Hscan. rewrite scan_is_sweep in Hscan.
  apply sweep_returns in Hscan as [-> _]. simpl. unfold accepted_rects.
  apply Forall_fmap, Forall_forall. intros x [Ha Hx%elem_of_seq]%list_elem_of_filter.
  unfold compose. cbv beta.
  pose proof Ha as Hacc. unfold accepts in Ha. apply andb_prop in Ha as [Hseed _].
  destruct (candidate_rect_spec params (image_masked_of cv params image)
              (background_mask cv params image) (shape1 image) (shape0 image) x
              (shape1 image) (shape0 image)) as (H1 & H2 & H3 & H4 & H5 & H6).
  - intros y' x' H. by apply (image_masked_domain cv params).
  - apply seed_in_image_masked; [done|lia|done].
  - split; [lia|]. split; [lia|]. split; [exact H2|].
    exists x. split; [lia|]. split; [exact Hacc|exact H1].
Qed.

Lemma X7_witness :
  Forall (fun r =>
            (0 <= rect_x r /\ 0 < rect_w r /\ rect_x r + rect_w r <= 1)
            /\ (0 <= rect_y r /\ rect_y r + rect_h r <= 5)
            /\ (rect_y r <= 2 < rect_y r + rect_h r)
            /\ exists x, (x < 1)%nat
                         /\ column_accepts TwoLevel.cv Stroke.resolved Stroke.captcha x = true
                         /\ rect_x r <= Z.of_nat x < rect_x r + rect_w r)
         [mkRect 0 2 1 1].
Proof.
  apply (X7_rectangles_cross_the_scan_row TwoLevel.cv Stroke.resolved false Stroke.captcha
           (mkScan [mkRect 0 2 1 1] Stroke.aggregate 0)).
  - vm_compute. repeat constructor.
  - vm_compute. reflexivity.
Defined.

(** ** The dictionary of the dataset *)

Lemma dataset_add_keys (dataset : list (Label * list Gray)) (sample : Label * Gray) :
  (dataset_add dataset sample).*1
  = if bool_decide (sample.1 ∈ dataset.*1) then dataset.*1 else dataset.*1 ++ [sample.1].
Proof.
  destruct sample as [label character]. unfold dataset_add. simpl.
  destruct (bool_decide (label ∈ dataset.*1)).
  - rewrite <-list_fmap_compose. apply list_fmap_ext. intros i [lb imgs] _. simpl.
    by destruct (bool_decide (lb = label)).
  - by rewrite fmap_app.
Qed.

Lemma dataset_get_missing (dataset : list (Label * list Gray)) (label : Label) :
  label ∉ dataset.*1 -> dataset_get dataset label = [].
Proof.
  induction dataset as [|[lb imgs] dataset IH]; simpl; [done|].
  intros H. rewrite bool_decide_eq_false_2.
  - apply IH. intros ?. apply H. by right.
  - intros ->. apply H. by left.
Qed.

Lemma dataset_get_app (d1 d2 : list (Label * list Gray)) (label : Label) :
  dataset_get (d1 ++ d2) label
  = if bool_decide (label ∈ d1.*1) then dataset_get d1 label else dataset_get d2 label.
Proof.
  induction d1 as [|[lb imgs] d1 IH]; simpl; [done|].
  destruct (decide (lb = label)) as [->|Hne].
  - rewrite !bool_decide_eq_true_2; [done|by left|done].
  - rewrite (bool_decide_eq_false_2 (lb = label)) by done. rewrite IH.
    destruct (decide (label ∈ d1.*1)) as [Hin|Hin].
    + rewrite !bool_decide_eq_true_2; [done|by right|done].
    + rewrite !bool_decide_eq_false_2; [done| |done].
      intros [->|]%elem_of_cons; done.
Qed.

Lemma dataset_get_append_to (dataset : list (Label * list Gray)) (lb label : Label)
    (character : Gray) :
  dataset_get ((fun entry : Label * list Gray =>
                  if bool_decide (entry.1 = lb) then (entry.1, entry.2 ++ [character])
                  else entry) <$> dataset) label
  = dataset_get dataset label
    ++ (if bool_decide (lb = label) && bool_decide (lb ∈ dataset.*1) then [character] else []).
Proof.
  induction dataset as [|[lb' imgs] dataset IH].
  - simpl. by rewrite andb_false_r.
  - rewrite !fmap_cons. cbn [dataset_get fst snd].
    destruct (decide (lb' = lb)) as [->|Hne].
    + rewrite (bool_decide_eq_true_2 (lb = lb)) by done. cbn [fst snd].
      rewrite (bool_decide_eq_true_2 (lb ∈ lb :: dataset.*1)) by (by left).
      rewrite andb_true_r.
      destruct (decide (lb = label)) as [->|Hne'].
      * by rewrite !(bool_decide_eq_true_2 (label = label)) by done.
      * rewrite !(bool_decide_eq_false_2 (lb = label)) by done.
        rewrite IH. by rewrite (bool_decide_eq_false_2 (lb = label)) by done.
    + rewrite (bool_decide_eq_false_2 (lb' = lb)) by done. cbn [fst snd].
      destruct (decide (lb' = label)) as [->|Hne'].
      * rewrite (bool_decide_eq_true_2 (label = label)) by done.
        rewrite (bool_decide_eq_false_2 (lb = label)) by done. simpl.
        by rewrite app_nil_r.
      * rewrite (bool_decide_eq_false_2 (lb' = label)) by done. rewrite IH.
        replace (bool_decide (lb ∈ lb' :: dataset.*1))
          with (bool_decide (lb ∈ dataset.*1)); [done|].
        apply bool_decide_ext. rewrite elem_of_cons.
        split; [by right|]. intros [E|?]; [congruence|done].
Qed.

Lemma dataset_get_add (dataset : list (Label * list Gray)) (sample : Label * Gray)
    (label : Label) :
  dataset_get (dataset_add dataset sample) label
  = dataset_get dataset label ++ (if bool_decide (sample.1 = label) then [sample.2] else []).
Proof.
  destruct sample as [lb character]. unfold dataset_add. simpl.
  destruct (decide (lb ∈ dataset.*1)) as [Hin|Hin].
  - rewrite (bool_decide_eq_true_2 _ Hin). rewrite dataset_get_append_to.
    rewrite (bool_decide_eq_true_2 _ Hin). by rewrite andb_true_r.
  - rewrite (bool_decide_eq_false_2 _ Hin). rewrite dataset_get_app. simpl.
    destruct (decide (lb = label)) as [->|Hne].
    + rewrite (bool_decide_eq_false_2 _ Hin), (dataset_get_missing _ _ Hin).
      by rewrite bool_decide_eq_true_2.
    + rewrite (bool_decide_eq_false_2 (lb = label)) by done.
      destruct (decide (label ∈ dataset.*1)) as [Hl|Hl].
      * rewrite (bool_decide_eq_true_2 _ Hl). by rewrite app_nil_r.
      * rewrite (bool_decide_eq_false_2 _ Hl), (dataset_get_missing _ _ Hl). done.
Qed.

(** The dictionary after a run of additions: each key holds its old
    images followed by the added ones, in order. *)
Lemma dataset_get_foldl (samples : list (Label * Gray)) (dataset : list (Label * list Gray))
    (label : Label) :
  dataset_get (foldl dataset_add dataset samples) label
  = dataset_get dataset label ++ (filter (fun s => s.1 = label) samples).*2.
Proof.
  revert dataset. induction samples as [|s samples IH]; intros dataset; simpl.
  - by rewrite app_nil_r.
  - rewrite IH, dataset_get_add, <-app_assoc. f_equal.
    rewrite filter_cons. destruct (decide (s.1 = label)) as [E|E].
    + by rewrite bool_decide_eq_true_2.
    + by rewrite bool_decide_eq_false_2.
Qed.

(** ** The loop over the files *)

Section DatasetFacts.

Context (cv : OpenCV) (lower : Label -> str).
Context (sto : store) (debug : bool) (params : option loc).

Local Abbreviation resolves_alike := (resolves_alike sto params).

Lemma resolves_alike_call (s : store) (image : Bgr) (ow oh : option Z) :
  resolves_alike s ->
  extract_characters cv s image ow oh debug params
  = extract_characters cv sto image ow oh debug params.
Proof. unfold resolves_alike, extract_characters. by intros ->. Qed.

Lemma resolves_alike_after : resolves_alike (resolve_params sto params).1.
Proof. apply resolve_params_twice. Qed.

Lemma add_file_samples (s : store) (dataset : list (Label * list Gray)) (n : Z)
    (file : dataset_file) :
  resolves_alike s ->
  add_file cv debug params (s, dataset, n) file
  = (if reaches_call file then (resolve_params sto params).1 else s,
     foldl dataset_add dataset (file_samples cv sto debug params file),
     n + Z.of_nat (length (file_samples cv sto debug params file))).
Proof.
  intros Hs. unfold add_file, file_samples, reaches_call.
  destruct (file_content file) as [| |image].
  - simpl. by rewrite Z.add_0_r.
  - simpl. by rewrite Hs, Z.add_0_r.
  - rewrite (resolves_alike_call s) by done.
    pose proof (extract_characters_store cv sto image (Some INPUT_WIDTH) (Some INPUT_HEIGHT)
                  debug params) as Hsto.
    destruct (extract_characters cv sto image _ _ debug params) as [s' [characters|e]].
    + simpl in Hsto. subst s'. cbn [snd].
      destruct (decide (characters = [])) as [->|Hne].
      * rewrite bool_decide_eq_true_2 by done.
        rewrite zip_with_nil_r.
        destruct (bool_decide _); simpl; by rewrite Z.add_0_r.
      * rewrite (bool_decide_eq_false_2 _ Hne).
        destruct (decide (length (file_labels file) = length characters)) as [E|E].
        -- rewrite (bool_decide_eq_false_2 (length (file_labels file) <> length characters))
             by (intros H; by apply H).
           rewrite (bool_decide_eq_true_2 _ E).
           rewrite length_zip_with. do 2 f_equal. lia.
        -- rewrite (bool_decide_eq_true_2 (length (file_labels file) <> length characters))
             by done.
           rewrite (bool_decide_eq_false_2 _ E). simpl. by rewrite Z.add_0_r.
    + simpl in Hsto. subst s'. simpl. by rewrite Z.add_0_r.
Qed.

Lemma add_files_samples (files : list dataset_file) (s : store)
    (dataset : list (Label * list Gray)) (n : Z) :
  resolves_alike s ->
  foldl (add_file cv debug params) (s, dataset, n) files
  = (if existsb reaches_call files then (resolve_params sto params).1 else s,
     foldl dataset_add dataset (all_samples cv sto debug params files),
     n + Z.of_nat (length (all_samples cv sto debug params files))).
Proof.
  revert s dataset n. induction files as [|file files IH]; intros s dataset n Hs.
  - simpl. by rewrite Z.add_0_r.
  - cbn [foldl]. rewrite add_file_samples by done.
    rewrite IH.
    + unfold all_samples. cbn [existsb mbind list_bind]. fold (@mbind list _).
      rewrite foldl_app, length_app.
      f_equal; [f_equal|lia].
      destruct (reaches_call file); simpl; [|done]. by destruct (existsb _ _).
    + destruct (reaches_call file); [apply resolves_alike_after|done].
Qed.

End DatasetFacts.

(** ** The order of the labels *)

Lemma str_lt_irrefl (a : list N) : str_lt a a = false.
Proof.
  induction a as [|x a IH]; simpl; [done|].
  rewrite N.ltb_irrefl, N.eqb_refl, IH. done.
Qed.

Lemma str_lt_trans (a b c : list N) :
  str_lt a b = true -> str_lt b c = true -> str_lt a c = true.
Proof.
  revert b c. induction a as [|x a IH]; intros [|y b] [|z c]; simpl; try done.
  intros H1 H2.
  apply orb_true_iff in H1 as [H1|[H1 H1']%andb_true_iff];
    apply orb_true_iff in H2 as [H2|[H2 H2']%andb_true_iff];
    try apply N.ltb_lt in H1; try apply N.ltb_lt in H2;
    try apply N.eqb_eq in H1; try apply N.eqb_eq in H2; subst;
    apply orb_true_iff.
  - left. apply N.ltb_lt. lia.
  - left. by apply N.ltb_lt.
  - left. by apply N.ltb_lt.
  - right. rewrite N.eqb_refl. simpl. by eapply IH.
Qed.

Lemma str_lt_connected (a b : list N) :
  str_lt a b = false -> str_lt b a = false -> a = b.
Proof.
  revert b. induction a as [|x a IH]; intros [|y b]; simpl; try done.
  intros H1 H2.
  apply orb_false_iff in H1 as [H1 H1']. apply orb_false_iff in H2 as [H2 H2'].
  apply N.ltb_ge in H1, H2. assert (x = y) as -> by lia.
  rewrite N.eqb_refl in H1', H2'. simpl in *. f_equal. by apply IH.
Qed.

Lemma str_lt_asym (a b : list N) : str_lt a b = true -> str_lt b a = false.
Proof.
  intros H. destruct (str_lt b a) eqn:E; [|done].
  pose proof (str_lt_trans _ _ _ H E) as Ha. by rewrite str_lt_irrefl in Ha.
Qed.

Section Sorting.

Context (lower : Label -> str).

Local Abbreviation key_le := (key_le lower).

Lemma key_le_trans (a b c : Label) : key_le a b -> key_le b c -> key_le a c.
Proof.
  unfold key_le. intros Hab Hbc.
  destruct (str_lt (lower c) (lower a)) eqn:Hca; [|done]. exfalso.
  destruct (str_lt (lower a) (lower b)) eqn:E.
  - pose proof (str_lt_trans _ _ _ Hca E). congruence.
  - pose proof (str_lt_connected _ _ E Hab) as Heq. rewrite Heq in Hca. congruence.
Qed.

Lemma sorted_insert_perm (x : Label) (l : list Label) :
  sorted_insert lower x l ≡ₚ x :: l.
Proof.
  induction l as [|y l IH]; simpl; [done|].
  destruct (str_lt (lower y) (lower x)); [|done].
  rewrite IH. apply Permutation_swap.
Qed.

Lemma sorted_by_lower_perm (keys : list Label) : sorted_by_lower lower keys ≡ₚ keys.
Proof.
  induction keys as [|x keys IH]; simpl; [done|].
  by rewrite sorted_insert_perm, IH.
Qed.

Lemma sorted_insert_sorted (x : Label) (l : list Label) :
  StronglySorted key_le l -> StronglySorted key_le (sorted_insert lower x l).
Proof.
  induction 1 as [|y l Hl IH Hy]; simpl.
  - repeat constructor.
  - destruct (str_lt (lower y) (lower x)) eqn:E.
    + constructor; [done|].
      rewrite sorted_insert_perm. constructor; [|done].
      unfold key_le. by apply str_lt_asym.
    + constructor; [by constructor|]. constructor; [done|].
      eapply Forall_impl; [exact Hy|]. intros z Hz. by apply (key_le_trans x y z).
Qed.

Lemma sorted_by_lower_sorted (keys : list Label) :
  StronglySorted key_le (sorted_by_lower lower keys).
Proof.
  induction keys as [|x keys IH]; simpl; [constructor|].
  by apply sorted_insert_sorted.
Qed.

(** The sort is stable: labels with the same key keep their order. *)
Lemma sorted_insert_filter (k : list N) (x : Label) (l : list Label) :
  filter (fun y => lower y = k) (sorted_insert lower x l)
  = filter (fun y => lower y = k) (x :: l).
Proof.
  induction l as [|y l IH]; simpl; [done|].
  destruct (str_lt (lower y) (lower x)) eqn:E; [|done].
  rewrite (filter_cons _ y), IH, !(filter_cons _ x), (filter_cons _ y).
  destruct (decide (lower y = k)) as [Hy|Hy]; [|done].
  destruct (decide (lower x = k)) as [Hx|Hx]; [|done].
  rewrite Hx, Hy, str_lt_irrefl in E. done.
Qed.

Lemma sorted_by_lower_stable (k : list N) (keys : list Label) :
  filter (fun y => lower y = k) (sorted_by_lower lower keys)
  = filter (fun y => lower y = k) keys.
Proof.
  induction keys as [|x keys IH]; simpl; [done|].
  rewrite sorted_insert_filter, !filter_cons, IH. done.
Qed.

End Sorting.

(** ** The lists built from the sorted dictionary *)

Lemma dataset_keys_first_seen (samples : list (Label * Gray))
    (dataset : list (Label * list Gray)) :
  (foldl dataset_add dataset samples).*1
  = foldl (fun seen label => if bool_decide (label ∈ seen) then seen else seen ++ [label])
          dataset.*1 samples.*1.
Proof.
  revert dataset. induction samples as [|s samples IH]; intros dataset; simpl; [done|].
  by rewrite IH, dataset_add_keys.
Qed.

Lemma first_seen_spec (labels : list Label) :
  NoDup (first_seen labels) /\ forall label, label ∈ first_seen labels <-> label ∈ labels.
Proof.
  unfold first_seen.
  assert (forall seen, NoDup seen ->
            NoDup (foldl (fun seen label =>
                            if bool_decide (label ∈ seen) then seen else seen ++ [label])
                         seen labels)
            /\ forall label,
                 label ∈ foldl (fun seen label =>
                                  if bool_decide (label ∈ seen) then seen else seen ++ [label])
                               seen labels
                 <-> label ∈ seen \/ label ∈ labels) as H.
  { induction labels as [|x labels IH]; intros seen Hnd; simpl.
    - split; [done|]. intros label. rewrite elem_of_nil. tauto.
    - destruct (IH (if bool_decide (x ∈ seen) then seen else seen ++ [x])) as [H1 H2].
      + case_bool_decide; [done|]. apply NoDup_app. split; [done|].
        split; [|apply NoDup_singleton]. intros y Hy ->%list_elem_of_singleton. done.
      + split; [done|]. intros label. rewrite H2, elem_of_cons.
        case_bool_decide as E.
        * split; [tauto|]. intros [?|[->|?]]; auto.
        * rewrite elem_of_app, list_elem_of_singleton. tauto. }
  destruct (H [] (NoDup_nil_2)) as [H1 H2]. split; [done|].
  intros label. rewrite H2, elem_of_nil. tauto.
Qed.

Lemma int16_small (i : Z) : -32768 <= i <= 32767 -> int16 i = i.
Proof. intros Hi. unfold int16. rewrite Z.mod_small by lia. lia. Qed.

Lemma int16_range (i : Z) : -32768 <= int16 i <= 32767.
Proof. unfold int16. pose proof (Z.mod_pos_bound (i + 32768) 65536). lia. Qed.

Section Lists.

Local Abbreviation indices k ds :=
  (concat (imap (fun i (entry : Label * list Gray) =>
                   replicate (length entry.2) (Z.of_nat (k + i))) ds)).
Local Abbreviation scaled ds :=
  (concat ((fun entry : Label * list Gray => scale_image <$> entry.2) <$> ds)).

Lemma indices_cons (k : nat) (entry : Label * list Gray) (ds : list (Label * list Gray)) :
  indices k (entry :: ds)
  = replicate (length entry.2) (Z.of_nat k) ++ indices (S k) ds.
Proof.
  cbn [imap concat]. rewrite Nat.add_0_r. do 2 f_equal.
  apply imap_ext. intros i e _. simpl. do 2 f_equal. lia.
Qed.

Lemma indices_length (k : nat) (ds : list (Label * list Gray)) :
  length (indices k ds) = length (scaled ds).
Proof.
  revert k. induction ds as [|entry ds IH]; intros k; [done|].
  rewrite indices_cons. cbn [fmap list_fmap concat].
  rewrite !length_app, length_replicate, length_fmap. f_equal. apply IH.
Qed.

Lemma indices_range (k : nat) (ds : list (Label * list Gray)) :
  Forall (fun i => Z.of_nat k <= i < Z.of_nat (k + length ds)) (indices k ds).
Proof.
  revert k. induction ds as [|entry ds IH]; intros k; [constructor|].
  rewrite indices_cons. apply Forall_app. split.
  - apply Forall_replicate. simpl. lia.
  - eapply Forall_impl; [apply IH|]. intros i Hi. simpl in *. lia.
Qed.

Lemma indices_sorted (k : nat) (ds : list (Label * list Gray)) :
  StronglySorted Z.le (indices k ds).
Proof.
  revert k. induction ds as [|entry ds IH]; intros k; [constructor|].
  rewrite indices_cons. set (rest := indices (S k) ds).
  assert (Hs : StronglySorted Z.le rest) by apply IH.
  assert (Hr : Forall (fun i => Z.of_nat k <= i) rest).
  { eapply Forall_impl; [apply indices_range|]. intros i Hi. simpl in *. lia. }
  clearbody rest.
  induction (length entry.2) as [|n IHn]; simpl; [done|].
  constructor; [done|]. apply Forall_app. split; [|done].
  apply Forall_replicate. lia.
Qed.

Lemma indices_cover (k : nat) (ds : list (Label * list Gray)) (i : nat) :
  Forall (fun entry => entry.2 <> []) ds ->
  (i < length ds)%nat -> Z.of_nat (k + i) ∈ indices k ds.
Proof.
  revert k i. induction ds as [|entry ds IH]; intros k i Hne Hi; simpl in Hi; [lia|].
  apply Forall_cons_1 in Hne as [He Hne].
  rewrite indices_cons, elem_of_app. destruct i as [|i].
  - left. rewrite Nat.add_0_r. destruct entry.2 as [|c cs]; [done|]. simpl. by left.
  - right. replace (k + S i)%nat with (S k + i)%nat by lia. apply IH; [done|lia].
Qed.

(** Up to 32768 entries the cast to [np.int16] leaves the indices as they
    are. *)
Lemma indices_int16 (k : nat) (ds : list (Label * list Gray)) :
  Z.of_nat (k + length ds) <= 32768 -> int16 <$> indices k ds = indices k ds.
Proof.
  intros Hk. rewrite <-(list_fmap_id (indices k ds)) at 2.
  apply Forall_fmap_ext. eapply Forall_impl; [apply indices_range|].
  intros i Hi. simpl in *. apply int16_small. lia.
Qed.

(** Reading the two lists side by side gives back each label with its
    images. *)
Lemma indices_pairs (labels : list Label) (k : nat) (ds : list (Label * list Gray)) :
  (forall i entry, ds !! i = Some entry -> labels !! (k + i)%nat = Some entry.1) ->
  (fun p : Z * Image32 => (labels !! Z.to_nat p.1, p.2)) <$> zip (indices k ds) (scaled ds)
  = ds ≫= (fun entry => (fun c => (Some entry.1, scale_image c)) <$> entry.2).
Proof.
  revert k. induction ds as [|entry ds IH]; intros k Hl; [done|].
  rewrite indices_cons. cbn [fmap list_fmap concat mbind list_bind].
  rewrite zip_with_app by (by rewrite length_replicate, length_fmap).
  rewrite fmap_app. f_equal.
  - pose proof (Hl 0%nat entry eq_refl) as H0. rewrite Nat.add_0_r in H0.
    clear -H0. induction entry.2 as [|c cs IHc]; simpl; [done|].
    rewrite Nat2Z.id, H0. f_equal. apply IHc.
  - apply IH. intros i e Hi. replace (S k + i)%nat with (k + S i)%nat by lia.
    by apply Hl.
Qed.

End Lists.

Lemma filter_label_length (labels : list Label) (samples : list (Label * Gray)) :
  NoDup labels -> (forall s, s ∈ samples -> s.1 ∈ labels) ->
  length (labels ≫= (fun label => images_of samples label)) = length samples.
Proof.
  intros Hnd. induction samples as [|s samples IH]; intros Hin.
  - clear. induction labels as [|l labels IHl]; [done|]. exact IHl.
  - assert (forall ls, NoDup ls ->
              length (ls ≫= (fun label => images_of (s :: samples) label))
              = (length (ls ≫= (fun label => images_of samples label))
                 + (if bool_decide (s.1 ∈ ls) then 1 else 0))%nat) as H.
    { clear. induction ls as [|l ls IHl]; intros Hnd; [done|].
      apply NoDup_cons in Hnd as [Hl Hnd]. rewrite !bind_cons.
      rewrite !length_app, (IHl Hnd). unfold images_of at 1. rewrite filter_cons.
      destruct (decide (s.1 = l)) as [E|E].
      - rewrite (bool_decide_eq_true_2 (s.1 ∈ l :: ls)) by (rewrite E; by left).
        rewrite (bool_decide_eq_false_2 (s.1 ∈ ls)) by (by rewrite E).
        rewrite fmap_cons. cbn [length]. unfold images_of. lia.
      - fold (images_of samples l).
        replace (bool_decide (s.1 ∈ l :: ls)) with (bool_decide (s.1 ∈ ls)); [lia|].
        apply bool_decide_ext. rewrite elem_of_cons. split; [by right|].
        intros [?|?]; [congruence|done]. }
    rewrite (H labels Hnd), IH.
    + rewrite bool_decide_eq_true_2; [simpl; lia|]. apply Hin. by left.
    + intros s' Hs'. apply Hin. by right.
Qed.

(** ** [generate_dataset] *)

Section GenerateDataset.

Context (cv : OpenCV) (lower : Label -> str).
Context (sto : store) (files : list dataset_file) (debug : bool) (params : option loc).

Local Abbreviation samples := (all_samples cv sto debug params files).

(** The function in one equation: the store after the call, and the lists
    built from the samples grouped by label. *)
Lemma generate_dataset_grouped :
  generate_dataset cv lower sto files debug params
  = (if existsb reaches_call files then (resolve_params sto params).1 else sto,
     dataset_lists (grouped lower samples)).
Proof.
  unfold generate_dataset.
  rewrite (add_files_samples cv sto debug params files sto [] 0) by done.
  pose proof (dataset_keys_first_seen samples []) as Hkeys. simpl in Hkeys.
  fold (first_seen samples.*1) in Hkeys.
  case_bool_decide as Hlen.
  - f_equal. apply length_zero_iff_nil in Hlen.
    rewrite Hlen in Hkeys. simpl in Hkeys.
    unfold grouped. by rewrite <-Hkeys.
  - f_equal. f_equal. unfold grouped. rewrite Hkeys.
    apply list_fmap_ext. intros i label _. f_equal.
    by rewrite dataset_get_foldl.
Qed.

Lemma grouped_keys : (grouped lower samples).*1 = sorted_by_lower lower (first_seen samples.*1).
Proof.
  unfold grouped. rewrite <-list_fmap_compose. apply list_fmap_id.
Qed.

Lemma grouped_labels :
  NoDup (grouped lower samples).*1
  /\ forall label, label ∈ (grouped lower samples).*1 <-> label ∈ samples.*1.
Proof.
  rewrite grouped_keys. destruct (first_seen_spec samples.*1) as [Hnd Hin]. split.
  - by rewrite sorted_by_lower_perm.
  - intros label. by rewrite sorted_by_lower_perm.
Qed.

Lemma grouped_images (entry : Label * list Gray) :
  entry ∈ grouped lower samples ->
  entry.2 = images_of samples entry.1 /\ entry.2 <> [].
Proof.
  intros Hin. pose proof Hin as (label & -> & Hl)%list_elem_of_fmap.
  split; [done|]. simpl.
  assert (label ∈ samples.*1) as (s & -> & Hs)%list_elem_of_fmap.
  { apply grouped_labels. by apply (list_elem_of_fmap_2 fst) in Hin. }
  unfold images_of. intros Hnil. apply fmap_nil_inv in Hnil.
  assert (s ∈ filter (fun s' : Label * Gray => s'.1 = s.1) samples) as Hf
    by (by apply list_elem_of_filter).
  rewrite Hnil in Hf. by apply elem_of_nil in Hf.
Qed.

End GenerateDataset.

Lemma scaled_length (ds : list (Label * list Gray)) :
  length (concat ((fun entry : Label * list Gray => scale_image <$> entry.2) <$> ds))
  = length (ds ≫= (fun entry : Label * list Gray => entry.2)).
Proof.
  induction ds as [|entry ds IH]; [done|].
  rewrite fmap_cons, bind_cons. cbn [concat].
  by rewrite !length_app, length_fmap, IH.
Qed.

(** The number of labels is at most the number of characters in the names
    of the files. *)
Lemma unique_labels_bound (cv : OpenCV) (lower : Label -> str) (sto : store)
    (files : list dataset_file) (debug : bool) (params : option loc) :
  (generate_dataset cv lower sto files debug params).2.2
  <= Z.of_nat (length (files ≫= file_labels)).
Proof.
  rewrite generate_dataset_grouped. cbn [snd]. unfold dataset_lists. cbn [snd].
  set (samples := all_samples cv sto debug params files).
  apply inj_le. unfold grouped. rewrite length_fmap.
  rewrite (Permutation_length (sorted_by_lower_perm lower _)).
  destruct (first_seen_spec samples.*1) as [Hnd Hin].
  transitivity (length samples.*1).
  { apply submseteq_length, NoDup_submseteq; [done|]. intros x. apply Hin. }
  rewrite length_fmap. unfold samples, all_samples. clear.
  induction files as [|file files IH]; [done|].
  rewrite !bind_cons, !length_app.
  assert (length (file_samples cv sto debug params file) <= length (file_labels file))%nat.
  { unfold file_samples. destruct (file_content file); simpl; try lia.
    destruct (extract_characters _ _ _ _ _ _ _).2; simpl; [|lia].
    case_bool_decide; simpl; [|lia]. rewrite length_zip_with. lia. }
  lia.
Qed.

(** X10.  The images come with their labels: there is one image and one
    index per sample; and, the indices being [np.int16] values, up to 32768
    labels reading the index list against the labels map, image by image,
    gives each label of the map followed by the scaled characters that the
    files hold for it, in file order. *)
Theorem X10_images_keep_their_labels (cv : OpenCV) (lower : Label -> str) (sto : store)
    (files : list dataset_file) (debug : bool) (params : option loc) :
  let samples := all_samples cv sto debug params files in
  let '(images, label_idx, labels_map, unique_labels) :=
    (generate_dataset cv lower sto files debug params).2 in
  length images = length samples
  /\ length label_idx = length samples
  /\ (unique_labels <= 32768 ->
      (fun p : Z * Image32 => (labels_map !! Z.to_nat p.1, p.2)) <$> zip label_idx images
      = labels_map ≫= (fun label =>
          (fun c => (Some label, scale_image c)) <$> images_of samples label)).
Proof.
  cbv zeta. rewrite generate_dataset_grouped. cbn [snd]. unfold dataset_lists.
  destruct (grouped_labels cv lower sto files debug params) as [Hnd Hin].
  rewrite grouped_keys in Hnd, Hin.
  set (samples := all_samples cv sto debug params files) in *.
  set (ds := grouped lower samples).
  assert (Hlen : length (concat ((fun entry : Label * list Gray => scale_image <$> entry.2)
                                 <$> ds)) = length samples).
  { rewrite scaled_length. unfold ds, grouped. rewrite list_fmap_bind.
    rewrite <-(filter_label_length (sorted_by_lower lower (first_seen samples.*1)) samples).
    - done.
    - done.
    - intros s Hs. apply Hin. by apply list_elem_of_fmap_2. }
  split; [done|]. split.
  - rewrite length_fmap, <-Hlen. apply (indices_length 0).
  - intros Hmax. pose proof (indices_int16 0 ds) as Hcast. cbn [Nat.add] in Hcast.
    rewrite Hcast by lia.
    rewrite (indices_pairs ds.*1 0 ds).
    + unfold ds at 2, grouped. rewrite <-list_fmap_compose, list_fmap_id.
      unfold ds, grouped. by rewrite list_fmap_bind.
    + intros i entry Hi. cbn [Nat.add]. by rewrite list_lookup_fmap, Hi.
Qed.

Lemma X10_witness :
  let samples :=
    all_samples TwoLevel.cv TwoLevel.sto0 false (Some TwoLevel.caller) Files.files in
  let '(images, label_idx, labels_map, _) :=
    (generate_dataset TwoLevel.cv Files.ascii_lower TwoLevel.sto0 Files.files false
                      (Some TwoLevel.caller)).2 in
  (fun p : Z * Image32 => (labels_map !! Z.to_nat p.1, p.2)) <$> zip label_idx images
  = labels_map ≫= (fun label =>
      (fun c => (Some label, scale_image c)) <$> images_of samples label).
Proof.
  pose proof (X10_images_keep_their_labels TwoLevel.cv Files.ascii_lower TwoLevel.sto0
                Files.files false (Some TwoLevel.caller)) as H.
  pose proof (unique_labels_bound TwoLevel.cv Files.ascii_lower TwoLevel.sto0
                Files.files false (Some TwoLevel.caller)) as Hb.
  cbv zeta in H |- *.
  destruct (generate_dataset TwoLevel.cv Files.ascii_lower TwoLevel.sto0 Files.files false
                             (Some TwoLevel.caller)).2
    as [[[images label_idx] labels_map] unique_labels].
  destruct H as (_ & _ & H). apply H.
  change (unique_labels <= 3) in Hb. lia.
Defined.

(** X11.  The labels map holds each label of the samples once, sorted by
    lower-case key, labels with the same key in the order in which the
    files first show them; its length is the number of labels returned. *)
Theorem X11_labels_map_sorted (cv : OpenCV) (lower : Label -> str) (sto : store)
    (files : list dataset_file) (debug : bool) (params : option loc) :
  let samples := all_samples cv sto debug params files in
  let '(_, _, labels_map, unique_labels) :=
    (generate_dataset cv lower sto files debug params).2 in
  NoDup labels_map
  /\ (forall label, label ∈ labels_map <-> label ∈ samples.*1)
  /\ StronglySorted (key_le lower) labels_map
  /\ (forall k, filter (fun label => lower label = k) labels_map
                = filter (fun label => lower label = k) (first_seen samples.*1))
  /\ unique_labels = Z.of_nat (length labels_map).
Proof.
  cbv zeta. rewrite generate_dataset_grouped. cbn [snd]. unfold dataset_lists.
  destruct (grouped_labels cv lower sto files debug params) as [Hnd Hin].
  split; [done|]. split; [done|].
  rewrite grouped_keys. split; [apply sorted_by_lower_sorted|].
  split; [intros k; apply sorted_by_lower_stable|].
  by rewrite <-grouped_keys, length_fmap.
Qed.

(** X12.  The label indices are [np.int16] values; up to 32768 labels they
    are the class numbers below the number of labels, in non-decreasing
    order, and every class has at least one image. *)
Theorem X12_label_indices_are_classes (cv : OpenCV) (lower : Label -> str) (sto : store)
    (files : list dataset_file) (debug : bool) (params : option loc) :
  let '(_, label_idx, _, unique_labels) :=
    (generate_dataset cv lower sto files debug params).2 in
  Forall (fun i => -32768 <= i <= 32767) label_idx
  /\ (unique_labels <= 32768 ->
      Forall (fun i => 0 <= i < unique_labels) label_idx
      /\ StronglySorted Z.le label_idx
      /\ forall i, 0 <= i < unique_labels -> i ∈ label_idx).
Proof.
  rewrite generate_dataset_grouped. cbn [snd]. unfold dataset_lists.
  set (ds := grouped lower _).
  split.
  { apply Forall_fmap, Forall_forall. intros i _. apply int16_range. }
  intros Hmax. pose proof (indices_int16 0 ds) as Hcast. cbn [Nat.add] in Hcast.
  rewrite Hcast by lia.
  split; [|split].
  - eapply Forall_impl; [apply (indices_range 0 ds)|]. intros i Hi. simpl in Hi. lia.
  - apply (indices_sorted 0 ds).
  - intros i Hi. rewrite <-(Z2Nat.id i) by lia.
    apply (indices_cover 0 ds (Z.to_nat i)); [|lia].
    apply Forall_forall. intros entry Hentry.
    by apply (grouped_images cv lower sto files debug params).
Qed.

Lemma X12_witness :
  let '(_, label_idx, _, unique_labels) :=
    (generate_dataset TwoLevel.cv Files.ascii_lower TwoLevel.sto0 Files.files false
                      (Some TwoLevel.caller)).2 in
  Forall (fun i => 0 <= i < unique_labels) label_idx.
Proof.
  pose proof (X12_label_indices_are_classes TwoLevel.cv Files.ascii_lower TwoLevel.sto0
                Files.files false (Some TwoLevel.caller)) as H.
  pose proof (unique_labels_bound TwoLevel.cv Files.ascii_lower TwoLevel.sto0
                Files.files false (Some TwoLevel.caller)) as Hb.
  destruct (generate_dataset TwoLevel.cv Files.ascii_lower TwoLevel.sto0 Files.files false
                             (Some TwoLevel.caller)).2
    as [[[images label_idx] labels_map] unique_labels].
  destruct H as (_ & H). apply H.
  change (unique_labels <= 3) in Hb. lia.
Defined.

(** ** What the images are *)

Lemma returned_characters_shape (cv : OpenCV) (sto : store) (image : Bgr) (ow oh : Z)
    (debug : bool) (params : option loc) (chars : list Gray) :
  0 < ow -> 0 < oh ->
  (extract_characters cv sto image (Some ow) (Some oh) debug params).2 = Return chars ->
  Forall (fun c => Z.of_nat (length c) = oh
                   /\ Forall (fun row => Z.of_nat (length row) = ow) c) chars.
Proof.
  intros Hw Hh Hrun.
  apply extract_characters_returned in Hrun as (st & _ & _ & ->).
  apply Forall_fmap, Forall_forall. intros [x y w h] _.
  unfold compose, cut_character. cbv beta iota zeta.
  destruct (resize_shape (slice2 (refine (characters_mask st)) y (y + h) x (x + w)) ow oh)
    as [H0 H1].
  unfold shape0 in H0. rewrite H0. split; [lia|].
  eapply Forall_impl; [exact H1|]. intros row Hrow. simpl in Hrow. lia.
Qed.

Lemma elem_of_zip_r {A B} (l : list A) (k : list B) (p : A * B) :
  p ∈ zip l k -> p.2 ∈ k.
Proof.
  revert k. induction l as [|a l IH]; intros [|b k]; simpl; try by intros ?%elem_of_nil.
  intros [->|H]%elem_of_cons; [by left|]. right. by apply IH.
Qed.

Section Samples.

Context (cv : OpenCV) (lower : Label -> str).
Context (sto : store) (files : list dataset_file) (debug : bool) (params : option loc).

(** Every sample is a character that [extract_characters] returned for
    one of the files, asked for the input size of the network. *)
Lemma sample_origin (s : Label * Gray) :
  s ∈ all_samples cv sto debug params files ->
  exists file image chars,
    file ∈ files /\ file_content file = Decoded image
    /\ (extract_characters cv sto image (Some INPUT_WIDTH) (Some INPUT_HEIGHT)
                           debug params).2 = Return chars
    /\ length (file_labels file) = length chars
    /\ s ∈ zip (file_labels file) chars.
Proof.
  unfold all_samples. intros (file & Hs & Hfile)%list_elem_of_bind.
  unfold file_samples in Hs.
  destruct (file_content file) as [| |image] eqn:Hc; try by apply elem_of_nil in Hs.
  destruct (extract_characters cv sto image _ _ debug params).2 as [chars|e] eqn:Hrun;
    [|by apply elem_of_nil in Hs].
  case_bool_decide as Hlen; [|by apply elem_of_nil in Hs].
  exists file, image, chars. done.
Qed.

Lemma image_origin (image : Image32) :
  image ∈ (generate_dataset cv lower sto files debug params).2.1.1.1 ->
  exists s, s ∈ all_samples cv sto debug params files /\ image = scale_image s.2.
Proof.
  rewrite generate_dataset_grouped. cbn [fst snd]. unfold dataset_lists. cbn [fst].
  intros (l & Himg & (entry & -> & Hentry)%list_elem_of_fmap)%elem_of_concat.
  apply list_elem_of_fmap in Himg as (c & -> & Hc).
  destruct (grouped_images cv lower sto files debug params entry Hentry) as [He _].
  rewrite He in Hc. unfold images_of in Hc.
  apply list_elem_of_fmap in Hc as (s & -> & [_ Hs]%list_elem_of_filter).
  by exists s.
Qed.

End Samples.

(** X13.  Every image of the dataset has the input size of the network:
    [INPUT_HEIGHT] rows of [INPUT_WIDTH] values. *)
Theorem X13_images_have_input_size (cv : OpenCV) (lower : Label -> str) (sto : store)
    (files : list dataset_file) (debug : bool) (params : option loc) :
  let '(images, _, _, _) := (generate_dataset cv lower sto files debug params).2 in
  Forall (fun image : Image32 =>
            Z.of_nat (length image) = INPUT_HEIGHT
            /\ Forall (fun row => Z.of_nat (length row) = INPUT_WIDTH) image) images.
Proof.
  pose proof (image_origin cv lower sto files debug params) as Horigin.
  destruct (generate_dataset cv lower sto files debug params).2 as [[[images ?] ?] ?].
  cbn [fst] in Horigin. apply Forall_forall. intros image Himage.
  destruct (Horigin image Himage) as (s & Hs & ->).
  destruct (sample_origin cv sto files debug params s Hs)
    as (file & img & chars & _ & _ & Hrun & _ & Hzip).
  apply returned_characters_shape in Hrun; [|done..].
  rewrite Forall_forall in Hrun.
  destruct (Hrun s.2 (elem_of_zip_r _ _ _ Hzip)) as [Hh Hw].
  unfold scale_image. rewrite length_fmap. split; [done|].
  apply Forall_fmap. eapply Forall_impl; [exact Hw|].
  intros row Hrow. simpl. by rewrite length_fmap.
Qed.

(** ** No sample, no model *)

Lemma grouped_nil (lower : Label -> str) (samples : list (Label * Gray)) :
  grouped lower samples = [] <-> samples = [].
Proof.
  unfold grouped. split.
  - intros H%fmap_nil_inv.
    destruct samples as [|s samples]; [done|]. exfalso.
    assert (s.1 ∈ sorted_by_lower lower (first_seen (s :: samples).*1)) as Hin.
    { rewrite sorted_by_lower_perm. apply first_seen_spec. by left. }
    rewrite H in Hin. by apply elem_of_nil in Hin.
  - by intros ->.
Qed.

(** X14.  The dataset is empty exactly when no file gives a sample; [main]
    then asks for a model with no label and the constructor raises.  With
    at least one sample the model is made with as many outputs as the
    labels map has entries. *)
Theorem X14_no_sample_no_model (cv : OpenCV) (lower : Label -> str) (sto : store)
    (files : list dataset_file) (debug : bool) (params : option loc) :
  let samples := all_samples cv sto debug params files in
  let result := (generate_dataset cv lower sto files debug params).2 in
  (result = ([], [], [], 0) <-> samples = [])
  /\ (new_model_for_dataset cv lower sto files debug params
      = Raise (Exception "labels must be > 0 or provide from_file") <-> samples = [])
  /\ (samples <> [] ->
      new_model_for_dataset cv lower sto files debug params
      = Return (Z.of_nat (length result.1.2), result.1.2)
      /\ result.1.2 <> [] /\ result.2 = Z.of_nat (length result.1.2)).
Proof.
  cbv zeta. unfold new_model_for_dataset. rewrite generate_dataset_grouped. cbn [snd].
  set (samples := all_samples cv sto debug params files).
  pose proof (grouped_nil lower samples) as Hnil.
  unfold dataset_lists. cbn [fst snd]. unfold Model_new.
  destruct (grouped lower samples) as [|entry ds] eqn:Hg.
  - assert (samples = []) as -> by (by apply Hnil). simpl. done.
  - assert (samples <> []) as Hne by (intros H; apply Hnil in H; done).
    rewrite length_fmap.
    destruct (Z.leb_spec (Z.of_nat (length (entry :: ds))) 0) as [Hle|Hgt];
      [simpl in Hle; lia|].
    split; [|split].
    + split; [|done]. intros [=].
    + split; [|done]. simpl. intros [=].
    + intros _. split; [done|]. split; [|done]. simpl. done.
Qed.

(** ** The dictionary shared by the calls *)

Lemma all_samples_alike (cv : OpenCV) (sto s : store) (debug : bool) (params : option loc)
    (files : list dataset_file) :
  resolves_alike sto params s ->
  all_samples cv s debug params files = all_samples cv sto debug params files.
Proof.
  intros Hs. unfold all_samples. induction files as [|file files IH]; [done|].
  rewrite !bind_cons, IH. f_equal. unfold file_samples.
  destruct (file_content file) as [| |image]; try done.
  by rewrite (resolves_alike_call cv sto debug params s).
Qed.

(** X15.  All files are segmented with the dictionary object that the
    caller passed.  The first file that gets to [extract_characters]
    completes it; after the loop the store is the one that this single
    completion gives (or the initial one when no file could be opened),
    and the dataset is the one that a dictionary complete from the start
    would have given. *)
Theorem X15_one_dictionary_for_all_files (cv : OpenCV) (lower : Label -> str)
    (sto : store) (files : list dataset_file) (debug : bool) (params : option loc) :
  let sto1 := (resolve_params sto params).1 in
  (generate_dataset cv lower sto files debug params).1
  = (if existsb reaches_call files then sto1 else sto)
  /\ generate_dataset cv lower sto1 files debug params
     = (sto1, (generate_dataset cv lower sto files debug params).2)
  /\ all_samples cv sto1 debug params files = all_samples cv sto debug params files.
Proof.
  cbv zeta. rewrite !generate_dataset_grouped. cbn [fst snd].
  pose proof (resolve_params_twice sto params) as Htwice.
  rewrite (all_samples_alike cv sto (resolve_params sto params).1) by exact Htwice.
  split; [done|]. split; [|done].
  rewrite Htwice. by destruct (existsb reaches_call files).
Qed.

(** ** The values of the images *)

Lemma scale_pixel_binary (v : Z) :
  binary v -> scale_pixel v = zero32 \/ scale_pixel v = one32.
Proof. intros [->| ->]; [left|right]; vm_compute; reflexivity. Qed.

(** X16.  When the threshold routine returns only 0 and 255, every value
    of every image of the dataset is 0.0 or 1.0. *)
Theorem X16_images_hold_zero_and_one (cv : OpenCV) (lower : Label -> str) (sto : store)
    (files : list dataset_file) (debug : bool) (params : option loc) :
  (forall src thresh, all2 binary (threshold_BINARY_INV_OTSU cv src thresh 255)) ->
  let '(images, _, _, _) := (generate_dataset cv lower sto files debug params).2 in
  Forall (all2 (fun v => v = zero32 \/ v = one32)) images.
Proof.
  intros Hcv.
  pose proof (image_origin cv lower sto files debug params) as Horigin.
  destruct (generate_dataset cv lower sto files debug params).2 as [[[images ?] ?] ?].
  cbn [fst] in Horigin. apply Forall_forall. intros image Himage.
  destruct (Horigin image Himage) as (s & Hs & ->).
  destruct (sample_origin cv sto files debug params s Hs)
    as (file & img & chars & _ & _ & Hrun & _ & Hzip).
  apply (returned_characters_binary cv Hcv) in Hrun.
  rewrite Forall_forall in Hrun. specialize (Hrun s.2 (elem_of_zip_r _ _ _ Hzip)).
  unfold scale_image. apply (all2_fmap2 binary); [apply scale_pixel_binary|done].
Qed.

Lemma X16_witness :
  let '(images, _, _, _) :=
    (generate_dataset TwoLevel.cv Files.ascii_lower TwoLevel.sto0 Files.files false
                      (Some TwoLevel.caller)).2 in
  Forall (all2 (fun v => v = zero32 \/ v = one32)) images.
Proof.
  apply (X16_images_hold_zero_and_one TwoLevel.cv Files.ascii_lower TwoLevel.sto0
           Files.files false (Some TwoLevel.caller)).
  apply TwoLevel_threshold_binary.
Defined.

(** X17.  A pixel is scaled to the same binary32 value when the dataset is
    built ([image / 255.0] in binary64, then cast) and when a character is
    recognised (binary32 division); the value lies between 0.0 and 1.0,
    and grows with the pixel. *)
Theorem X17_training_and_prediction_scale_alike (v : Z) :
  0 <= v <= 255 ->
  scale_pixel v = predict_pixel v
  /\ SFleb zero32 (scale_pixel v) = true /\ SFleb (scale_pixel v) one32 = true
  /\ (v < 255 -> SFltb (scale_pixel v) (scale_pixel (v + 1)) = true).
Proof.
  intros Hv.
  assert (Hall : forallb (fun n =>
                   let v := Z.of_nat n in
                   bool_decide (scale_pixel v = predict_pixel v)
                   && SFleb zero32 (scale_pixel v) && SFleb (scale_pixel v) one32
                   && ((255 <=? v) || SFltb (scale_pixel v) (scale_pixel (v + 1))))
                 (seq 0 256) = true) by (vm_compute; reflexivity).
  rewrite forallb_forall in Hall.
  assert (Hin : In (Z.to_nat v) (seq 0 256)) by (apply in_seq; lia).
  specialize (Hall (Z.to_nat v) Hin). rewrite Z2Nat.id in Hall by lia.
  cbv zeta in Hall.
  apply andb_true_iff in Hall as [Hall H4]. apply andb_true_iff in Hall as [Hall H3].
  apply andb_true_iff in Hall as [H1 H2]. apply bool_decide_eq_true in H1.
  split; [done|]. split; [done|]. split; [done|].
  intros Hlt. apply orb_true_iff in H4 as [H4|H4]; [|done].
  apply Z.leb_le in H4. lia.
Qed.

Lemma X17_witness : scale_pixel 128 = predict_pixel 128.
Proof.
  refine (proj1 (X17_training_and_prediction_scale_alike 128 _)). lia.
Defined.

(** ** Files that give nothing *)

Lemma all_samples_app (cv : OpenCV) (sto : store) (debug : bool) (params : option loc)
    (files1 files2 : list dataset_file) :
  all_samples cv sto debug params (files1 ++ files2)
  = all_samples cv sto debug params files1 ++ all_samples cv sto debug params files2.
Proof. unfold all_samples. apply bind_app. Qed.

Lemma small_image_no_samples (cv : OpenCV) (sto : store) (debug : bool)
    (params : option loc) (labels : list Label) (image : Bgr) :
  (shape1 image < 64)%nat \/ (shape0 image < 64)%nat ->
  file_samples cv sto debug params (mkFile labels (Decoded image)) = [].
Proof.
  intros Hsmall. unfold file_samples. simpl.
  destruct (located_characters_too_big cv (resolve_params sto params).2 image
              (Some INPUT_WIDTH) (Some INPUT_HEIGHT) debug) as (msg & _ & Hl).
  { unfold too_big, exceeds, INPUT_WIDTH, INPUT_HEIGHT. apply orb_true_iff.
    destruct Hsmall; [left|right]; apply Z.ltb_lt; lia. }
  rewrite extract_characters_outcome, Hl. done.
Qed.

(** X22.  A file that cannot be opened, that does not decode to an image,
    whose image is narrower or lower than the input size of the network
    (the size exception is caught), or whose characters are not as many
    as the characters of its name, leaves no trace in the result: the
    dataset is the one the other files give. *)
Theorem X22_unusable_files_leave_no_trace (cv : OpenCV) (lower : Label -> str) (sto : store)
    (files1 files2 : list dataset_file) (file : dataset_file) (debug : bool)
    (params : option loc) :
  match file_content file with
  | Unreadable | Undecodable => True
  | Decoded image =>
      (shape1 image < 64)%nat \/ (shape0 image < 64)%nat
      \/ exists characters,
           (extract_characters cv sto image (Some INPUT_WIDTH) (Some INPUT_HEIGHT)
                               debug params).2 = Return characters
           /\ length characters <> length (file_labels file)
  end ->
  (generate_dataset cv lower sto (files1 ++ file :: files2) debug params).2
  = (generate_dataset cv lower sto (files1 ++ files2) debug params).2.
Proof.
  intros Hfile. rewrite !generate_dataset_grouped. cbn [snd].
  rewrite !all_samples_app. unfold all_samples at 2. rewrite bind_cons.
  fold (all_samples cv sto debug params files2).
  assert (file_samples cv sto debug params file = []) as ->; [|done].
  destruct file as [labels content]. simpl in Hfile.
  destruct content as [| |image]; [done..|].
  destruct Hfile as [Hw|[Hh|(characters & Hrun & Hlen)]].
  - apply small_image_no_samples. by left.
  - apply small_image_no_samples. by right.
  - unfold file_samples. simpl. rewrite Hrun.
    by rewrite bool_decide_eq_false_2 by (intros E; by rewrite E in Hlen).
Qed.

Lemma X22_witness :
  (generate_dataset TwoLevel.cv Files.ascii_lower TwoLevel.sto0
                    ([] ++ mkFile [97%N] (Decoded TwoLevel.captcha) :: []) false
                    (Some TwoLevel.caller)).2
  = ([], [], [], 0).
Proof.
  rewrite (X22_unusable_files_leave_no_trace TwoLevel.cv Files.ascii_lower TwoLevel.sto0 [] []
             (mkFile [97%N] (Decoded TwoLevel.captcha)) false (Some TwoLevel.caller)).
  - reflexivity.
  - left. vm_compute. lia.
Defined.

(** ** The order of the files *)

Lemma sorted_unique (lower : Label -> str) (l1 l2 : list Label) :
  StronglySorted (key_le lower) l1 -> StronglySorted (key_le lower) l2 ->
  NoDup l1 -> NoDup l2 -> (forall x, x ∈ l1 <-> x ∈ l2) ->
  (forall a b, a ∈ l1 -> b ∈ l1 -> lower a = lower b -> a = b) ->
  l1 = l2.
Proof.
  intros Hs1. revert l2. induction Hs1 as [|a l1 Hs1 IH Ha]; intros l2 Hs2 Hn1 Hn2 Hin Hinj.
  - destruct l2 as [|b l2]; [done|]. exfalso.
    assert (b ∈ @nil Label) as H by (apply Hin; by left). by apply elem_of_nil in H.
  - destruct Hs2 as [|b l2 Hs2 Hb].
    { exfalso. assert (a ∈ @nil Label) as H by (apply Hin; by left).
      by apply elem_of_nil in H. }
    apply NoDup_cons in Hn1 as [Ha1 Hn1]. apply NoDup_cons in Hn2 as [Hb2 Hn2].
    assert (a = b) as ->.
    { assert (a ∈ b :: l2) as [->|Ha2]%elem_of_cons by (apply Hin; by left); [done|].
      assert (b ∈ a :: l1) as [->|Hb1]%elem_of_cons by (apply Hin; by left); [done|].
      rewrite Forall_forall in Ha, Hb.
      pose proof (Ha b Hb1) as Hab. pose proof (Hb a Ha2) as Hba.
      unfold key_le in Hab, Hba.
      apply Hinj; [by left|by right|]. by apply str_lt_connected. }
    f_equal. apply IH; [done..| |].
    + intros x. split; intros Hx.
      * assert (x ∈ b :: l2) as [->|]%elem_of_cons by (apply Hin; by right); done.
      * assert (x ∈ b :: l1) as [->|]%elem_of_cons by (apply Hin; by right); done.
    + intros x y Hx Hy. apply Hinj; by right.
Qed.

Lemma all_samples_perm (cv : OpenCV) (sto : store) (debug : bool) (params : option loc)
    (files files' : list dataset_file) :
  files ≡ₚ files' ->
  all_samples cv sto debug params files ≡ₚ all_samples cv sto debug params files'.
Proof. intros H. unfold all_samples. by rewrite H. Qed.

Lemma images_of_perm (samples samples' : list (Label * Gray)) (label : Label) :
  samples ≡ₚ samples' -> images_of samples label ≡ₚ images_of samples' label.
Proof. intros H. unfold images_of. by rewrite H. Qed.

Lemma indices_counts (ds ds' : list (Label * list Gray)) (k : nat) :
  Forall2 (fun e e' : Label * list Gray => length e.2 = length e'.2) ds ds' ->
  concat (imap (fun i (entry : Label * list Gray) =>
                  replicate (length entry.2) (Z.of_nat (k + i))) ds)
  = concat (imap (fun i (entry : Label * list Gray) =>
                    replicate (length entry.2) (Z.of_nat (k + i))) ds').
Proof.
  intros H. revert k. induction H as [|e e' ds ds' He _ IH]; intros k; [done|].
  rewrite !indices_cons, He. f_equal. apply IH.
Qed.

(** X23.  [glob.glob] returns the files in no particular order.  When no
    two labels of the samples share a lower-case key, the order does not
    matter for the classes: the labels map, the number of labels and the
    list of label indices are the same for any order of the files, and the
    images are the same up to their order. *)
Theorem X23_classes_do_not_depend_on_file_order (cv : OpenCV) (lower : Label -> str)
    (sto : store) (files files' : list dataset_file) (debug : bool) (params : option loc) :
  files ≡ₚ files' ->
  (forall a b, a ∈ (all_samples cv sto debug params files).*1 ->
               b ∈ (all_samples cv sto debug params files).*1 ->
               lower a = lower b -> a = b) ->
  let '(images, label_idx, labels_map, unique_labels) :=
    (generate_dataset cv lower sto files debug params).2 in
  let '(images', label_idx', labels_map', unique_labels') :=
    (generate_dataset cv lower sto files' debug params).2 in
  labels_map = labels_map' /\ unique_labels = unique_labels'
  /\ label_idx = label_idx' /\ images ≡ₚ images'.
Proof.
  intros Hperm Hinj. rewrite !generate_dataset_grouped. cbn [snd]. unfold dataset_lists.
  pose proof (all_samples_perm cv sto debug params files files' Hperm) as Hs.
  set (samples := all_samples cv sto debug params files) in *.
  set (samples' := all_samples cv sto debug params files') in *.
  destruct (first_seen_spec samples.*1) as [Hn1 Hi1].
  destruct (first_seen_spec samples'.*1) as [Hn2 Hi2].
  assert (Hkeys : sorted_by_lower lower (first_seen samples.*1)
                  = sorted_by_lower lower (first_seen samples'.*1)).
  { apply (sorted_unique lower); try apply sorted_by_lower_sorted.
    - by rewrite sorted_by_lower_perm.
    - by rewrite sorted_by_lower_perm.
    - intros x. rewrite !sorted_by_lower_perm, Hi1, Hi2. by rewrite Hs.
    - intros a b. rewrite !sorted_by_lower_perm, !Hi1. apply Hinj. }
  assert (Hlabels : (grouped lower samples).*1 = (grouped lower samples').*1).
  { unfold grouped. rewrite <-!list_fmap_compose, !list_fmap_id. exact Hkeys. }
  split; [done|]. split; [by rewrite <-!(length_fmap fst), Hlabels|].
  split.
  - f_equal. apply (indices_counts _ _ 0). unfold grouped. rewrite Hkeys.
    apply Forall2_fmap, Forall_Forall2_diag, Forall_forall. intros label _. simpl.
    apply Permutation_length. by apply images_of_perm.
  - unfold grouped. rewrite Hkeys, <-!list_fmap_compose. clear Hkeys Hlabels.
    induction (sorted_by_lower lower (first_seen samples'.*1)) as [|label labels IH];
      [done|].
    rewrite !fmap_cons. cbn [concat]. apply Permutation_app; [|apply IH].
    unfold compose. simpl. apply fmap_Permutation. by apply images_of_perm.
Qed.

Lemma X23_witness :
  let '(images, label_idx, labels_map, unique_labels) :=
    (generate_dataset TwoLevel.cv Files.ascii_lower TwoLevel.sto0 Files.files false
                      (Some TwoLevel.caller)).2 in
  let '(images', label_idx', labels_map', unique_labels') :=
    (generate_dataset TwoLevel.cv Files.ascii_lower TwoLevel.sto0 (rev Files.files) false
                      (Some TwoLevel.caller)).2 in
  labels_map = labels_map' /\ unique_labels = unique_labels'
  /\ label_idx = label_idx' /\ images ≡ₚ images'.
Proof.
  apply (X23_classes_do_not_depend_on_file_order TwoLevel.cv Files.ascii_lower TwoLevel.sto0
           Files.files (rev Files.files) false (Some TwoLevel.caller)).
  - apply Permutation_rev.
  - assert (Hone : forall a,
               a ∈ (all_samples TwoLevel.cv TwoLevel.sto0 false (Some TwoLevel.caller)
                                Files.files).*1 -> a = 97%N).
    { intros a (s & -> & Hs)%list_elem_of_fmap.
      destruct (sample_origin _ _ _ _ _ s Hs)
        as (file & image & chars & Hfile & Hc & _ & _ & Hz).
      unfold Files.files in Hfile.
      apply elem_of_cons in Hfile as [->|Hfile]; [done|].
      apply elem_of_cons in Hfile as [->|Hfile]; [done|].
      apply elem_of_cons in Hfile as [->|Hfile]; [|by apply elem_of_nil in Hfile].
      simpl in Hz. destruct chars as [|c chars]; [by apply elem_of_nil in Hz|].
      simpl in Hz. apply elem_of_cons in Hz as [->|Hz]; [done|].
      by apply elem_of_nil in Hz. }
    intros a b Ha Hb _. by rewrite (Hone a Ha), (Hone b Hb).
Defined.

(** ** The order of floats *)

Ltac sf_cases :=
  repeat match goal with
         | s : bool |- _ => destruct s
         end;
  simpl;
  repeat match goal with
         | |- context [PosDef.Pos.compare_cont Eq ?a ?b] =>
             change (PosDef.Pos.compare_cont Eq a b) with (a ?= b)%positive
         | |- context [(?a ?= ?b)] => destruct (Z.compare_spec a b); simpl
         | |- context [(?a ?= ?b)%positive] => destruct (Pos.compare_spec a b); simpl
         end;
  try done; try lia.

Lemma SFleb_refl (a : spec_float) : isnan a = false -> SFleb a a = true.
Proof.
  destruct a as [s|s| |s m e]; intros H; try done; unfold SFleb; sf_cases.
Qed.

Lemma SFleb_total (a b : spec_float) :
  isnan a = false -> isnan b = false -> SFleb a b = false -> SFltb b a = true.
Proof.
  destruct a as [s|s| |s m e], b as [s'|s'| |s' m' e']; intros Ha Hb; try done;
    unfold SFleb, SFltb; sf_cases.
Qed.

Lemma SFltb_leb (a b : spec_float) : SFltb a b = true -> SFleb a b = true.
Proof. unfold SFltb, SFleb. by destruct (SFcompare a b) as [[]|]. Qed.

Lemma SFleb_ltb_trans (a b c : spec_float) :
  SFleb a b = true -> SFltb b c = true -> SFltb a c = true.
Proof.
  destruct a as [s|s| |s m e], b as [s'|s'| |s' m' e'], c as [s''|s''| |s'' m'' e''];
    unfold SFleb, SFltb; try done; sf_cases.
Qed.

(** ** The first maximum *)

Lemma argmax_from_spec (row pre : list spec_float) (best : spec_float) (best_i : nat) :
  Forall (fun v => isnan v = false) (pre ++ row) ->
  pre !! best_i = Some best ->
  (forall j v, pre !! j = Some v ->
               SFleb v best = true /\ ((j < best_i)%nat -> SFltb v best = true)) ->
  first_maximum (pre ++ row) (argmax_from best best_i (length pre) row).
Proof.
  revert pre best best_i. induction row as [|v row IH]; intros pre best best_i Hnan Hbest Hpre.
  - simpl. rewrite app_nil_r. by exists best.
  - simpl. pose proof (lookup_lt_Some _ _ _ Hbest) as Hlt.
    assert (Hv : isnan v = false).
    { rewrite Forall_app in Hnan. destruct Hnan as [_ Hnan].
      by apply Forall_cons_1 in Hnan as [? _]. }
    assert (Hb : isnan best = false).
    { rewrite Forall_app in Hnan. destruct Hnan as [Hnan _].
      rewrite Forall_forall in Hnan. apply Hnan. by eapply list_elem_of_lookup_2. }
    replace (pre ++ v :: row) with ((pre ++ [v]) ++ row) in * by (by rewrite <-app_assoc).
    replace (S (length pre)) with (length (pre ++ [v])) by (rewrite length_app; simpl; lia).
    destruct (SFleb v best) eqn:Hle.
    + apply IH; [done|by apply lookup_app_l_Some|].
      intros j u Hj. apply lookup_app_Some in Hj as [Hj|[Hge Hj]]; [by apply Hpre|].
      apply list_lookup_singleton_Some in Hj as [_ <-]. split; [done|lia].
    + rewrite Hv. apply SFleb_total in Hle; [|done..].
      apply IH; [done| |].
      * rewrite lookup_app_r by lia. by rewrite Nat.sub_diag.
      * intros j u Hj. apply lookup_app_Some in Hj as [Hj|[Hge Hj]].
        -- destruct (Hpre j u Hj) as [Hu _].
           pose proof (SFleb_ltb_trans _ _ _ Hu Hle) as Hs.
           split; [by apply SFltb_leb|done].
        -- apply list_lookup_singleton_Some in Hj as [_ <-].
           split; [by apply SFleb_refl|lia].
Qed.

Lemma argmax_first_maximum (row : list spec_float) (i : nat) :
  Forall (fun v => isnan v = false) row -> argmax row = Some i -> first_maximum row i.
Proof.
  destruct row as [|v row]; [done|]. intros Hnan. simpl.
  pose proof Hnan as [Hv _]%Forall_cons_1. rewrite Hv. intros [= <-].
  apply (argmax_from_spec row [v] v 0); [done|done|].
  intros j u Hj. apply list_lookup_singleton_Some in Hj as [-> <-].
  split; [by apply SFleb_refl|lia].
Qed.

(** ** Recognition *)

Lemma argmax_from_bound (row : list spec_float) (best : spec_float) (best_i i : nat) :
  (best_i < i)%nat -> (argmax_from best best_i i row < i + length row)%nat.
Proof.
  revert best best_i i. induction row as [|v row IH]; intros best best_i i Hi; simpl.
  - lia.
  - destruct (SFleb v best).
    + specialize (IH best best_i (S i)). lia.
    + destruct (isnan v); [lia|]. specialize (IH v i (S i)). lia.
Qed.

Lemma argmax_bound (row : list spec_float) (i : nat) :
  argmax row = Some i -> (i < length row)%nat.
Proof.
  destruct row as [|v row]; [done|]. simpl. intros [= <-].
  destruct (isnan v); [lia|].
  pose proof (argmax_from_bound row v 0 1). lia.
Qed.

Lemma argmax_is_Some (row : list spec_float) : row <> [] -> is_Some (argmax row).
Proof. destruct row; [done|]. simpl. eauto. Qed.

(** X18.  [predict] returns one label per row of the network's answer, and
    raises neither [IndexError] nor [ValueError], when every row has at
    least one score and at most as many scores as the labels map has
    labels; the label is the one at the position [np.argmax] gives, which
    on a row without NaN is the position of the first maximum.  It raises
    when a row's best score stands at a position the map does not have. *)
Theorem X18_one_label_per_prediction (labels_map : list str)
    (network : list Image32 -> list (list spec_float)) (images : list Gray) :
  let predictions := network (predict_input images) in
  (Forall (fun row => (0 < length row <= length labels_map)%nat) predictions ->
   exists characters,
     predict labels_map network images = inr characters
     /\ length characters = length predictions
     /\ Forall2 (fun row character =>
                   exists i, argmax row = Some i /\ labels_map !! i = Some character
                             /\ (Forall (fun v => isnan v = false) row ->
                                 first_maximum row i))
                predictions characters)
  /\ (forall row i, row ∈ predictions -> argmax row = Some i ->
                    (length labels_map <= i)%nat ->
                    exists e, predict labels_map network images = inl e).
Proof.
  intros predictions. unfold predict. fold predictions. clearbody predictions. split.
  - induction 1 as [|row rows [Hpos Hlen] _ IH]; simpl.
    + exists []. repeat split. constructor.
    + destruct (argmax_is_Some row) as [i Hi]; [by destruct row; simpl in *; [lia|]|].
      rewrite Hi. pose proof (argmax_bound row i Hi) as Hb.
      destruct (lookup_lt_is_Some_2 labels_map i) as [label Hl]; [lia|].
      rewrite Hl. destruct IH as (characters & -> & Hn & Hall).
      exists (label :: characters). split; [done|]. split; [simpl; lia|].
      constructor; [|done]. exists i. split; [done|]. split; [done|].
      intros Hnan. by apply argmax_first_maximum.
  - intros row i Hrow Hi Hout.
    induction predictions as [|row' rows IH]; [by apply elem_of_nil in Hrow|]. simpl.
    apply elem_of_cons in Hrow as [<-|Hrow].
    + rewrite Hi. rewrite (lookup_ge_None_2 labels_map i) by lia. eauto.
    + destruct (argmax row') as [j|]; [|eauto].
      destruct (labels_map !! j); [|eauto].
      destruct (IH Hrow) as [e ->]. eauto.
Qed.

(** ** The server *)

Lemma split_comma_plain (data : str) : 44%N ∉ data -> split_comma data = [data].
Proof.
  induction data as [|c data IH]; simpl; [done|]. intros Hc.
  destruct (N.eqb_spec c 44) as [->|Hne]; [exfalso; apply Hc; by left|].
  rewrite IH; [done|]. intros ?. apply Hc. by right.
Qed.

Lemma split_comma_app (head rest : str) :
  44%N ∉ head -> split_comma (head ++ 44%N :: rest) = head :: split_comma rest.
Proof.
  induction head as [|c head IH]; simpl; [done|]. intros Hc.
  destruct (N.eqb_spec c 44) as [->|Hne]; [exfalso; apply Hc; by left|].
  rewrite IH; [done|]. intros ?. apply Hc. by right.
Qed.

(** X21.  What is decoded: the whole text when it holds no comma; otherwise
    what stands between the first comma and the second one (or the end),
    so the payload of a data URI, and nothing of what follows a second
    comma. *)
Theorem X21_payload_of_a_data_uri (head piece : str) :
  44%N ∉ head -> 44%N ∉ piece ->
  payload head = head
  /\ payload (head ++ 44%N :: piece) = piece
  /\ forall rest, payload (head ++ 44%N :: piece ++ 44%N :: rest) = piece.
Proof.
  intros Hh Hp. unfold payload. split; [|split].
  - by rewrite bool_decide_eq_false_2.
  - rewrite bool_decide_eq_true_2 by (rewrite elem_of_app; right; by left).
    by rewrite split_comma_app, split_comma_plain.
  - intros rest.
    rewrite bool_decide_eq_true_2 by (rewrite elem_of_app; right; by left).
    by rewrite split_comma_app, split_comma_app.
Qed.

Lemma X21_witness :
  payload (str_of "data:image/png;base64,iVBORw0KGgo=") = str_of "iVBORw0KGgo=".
Proof.
  refine (proj1 (proj2 (X21_payload_of_a_data_uri (str_of "data:image/png;base64")
                          (str_of "iVBORw0KGgo=") _ _))).
  - vm_compute. intros H. repeat (apply elem_of_cons in H as [H|H]; [done|]).
    by apply elem_of_nil in H.
  - vm_compute. intros H. repeat (apply elem_of_cons in H as [H|H]; [done|]).
    by apply elem_of_nil in H.
Defined.

Section ServerFacts.

Context (cv : OpenCV).
Context (decode_image : str -> uploaded).
Context (model_predict : list Gray -> str + list str).
Context (write_png : str -> Bgr -> option str).
Context (zero_division_text : str).
Context (save_results segmentation_debug : bool) (segmentation_params : option loc).

Local Abbreviation try_solve_at :=
  (try_solve cv decode_image model_predict write_png zero_division_text
             save_results segmentation_debug segmentation_params).
Local Abbreviation solve_at :=
  (solve cv decode_image model_predict write_png zero_division_text
         save_results segmentation_debug segmentation_params).

Lemma try_solve_status (st : server_state) (data : str) :
  let r := (try_solve_at st data).2 in
  (status r = 200 \/ status r = 500) /\ mimetype r = None /\ headers r = [].
Proof.
  unfold try_solve.
  destruct (decode_image (payload data)) as [message| |image]; simpl; [auto..|].
  destruct (extract_characters cv _ image _ _ _ _) as [sto' [segments|e]]; simpl; [|auto].
  destruct (model_predict segments) as [message|characters]; simpl; [auto|].
  destruct save_results; simpl; [|auto].
  destruct (write_png _ image); simpl; auto.
Qed.

Lemma solve_nonempty (st : server_state) (data : str) :
  data <> [] ->
  solve_at st data
  = ((try_solve_at st data).1,
     mkResponse (status (try_solve_at st data).2) (body (try_solve_at st data).2)
                (Some "text/plain"%string)
                [("Access-Control-Allow-Origin"%string, "*"%string)]).
Proof.
  intros Hd. unfold solve. rewrite bool_decide_eq_false_2 by done.
  destruct (try_solve_status st data) as (_ & _ & Hh).
  destruct (try_solve _ _ _ _ _ _ _ _ st data) as [st' r]. simpl in *. by rewrite Hh.
Qed.

End ServerFacts.

(** X19.  What the status of the answer says.  An empty request is
    answered 400 with nothing else done, as Flask's default content type
    and without the CORS header; every other request is answered 200 or 500
    as [text/plain] with the CORS header; and the answer is 200 exactly when
    the text decodes to an image, the segmentation returns, the model
    returns and, if results are saved, the file is written: its body is
    then the characters joined. *)
Theorem X19_what_the_status_says (cv : OpenCV) (decode_image : str -> uploaded)
    (model_predict : list Gray -> str + list str) (write_png : str -> Bgr -> option str)
    (zero_division_text : str) (save_results segmentation_debug : bool)
    (segmentation_params : option loc) (st : server_state) (data : str) :
  let '(st', r) :=
    solve cv decode_image model_predict write_png zero_division_text
          save_results segmentation_debug segmentation_params st data in
  (data = [] -> st' = st /\ r = mkResponse 400 [] None [])
  /\ (data <> [] ->
      (status r = 200 \/ status r = 500)
      /\ mimetype r = Some "text/plain"%string
      /\ headers r = [("Access-Control-Allow-Origin"%string, "*"%string)])
  /\ (status r = 200 <->
      data <> []
      /\ exists image segments characters,
           decode_image (payload data) = Image image
           /\ (extract_characters cv (server_store st) image (Some INPUT_WIDTH)
                                  (Some INPUT_HEIGHT) segmentation_debug
                                  segmentation_params).2 = Return segments
           /\ model_predict segments = inr characters
           /\ (save_results = true -> write_png (concat characters) image = None)
           /\ body r = concat characters).
Proof.
  destruct (decide (data = [])) as [->|Hd].
  - unfold solve. rewrite bool_decide_eq_true_2 by done.
    split; [done|]. split; [done|]. simpl. split; [done|]. by intros [? _].
  - rewrite (solve_nonempty _ _ _ _ _ _ _ _ _ _ Hd).
    destruct (try_solve_status cv decode_image model_predict write_png zero_division_text
                save_results segmentation_debug segmentation_params st data)
      as (Hs & _ & _).
    split; [done|]. split; [done|]. cbn [status body]. clear Hs.
    unfold try_solve.
    destruct (decode_image (payload data)) as [message| |image] eqn:Hdec; simpl.
    + split; [done|]. intros (_ & im & sg & ch & Hi & _). congruence.
    + split; [done|]. intros (_ & im & sg & ch & Hi & _). congruence.
    + destruct (extract_characters cv _ image _ _ _ _) as [sto' [segments|e]] eqn:Hrun;
        simpl.
      * destruct (model_predict segments) as [message|characters] eqn:Hp; simpl.
        -- split; [done|]. intros (_ & im & sg & ch & Hi & Hs & Hp' & _).
           simplify_eq. rewrite Hrun in Hs. simpl in Hs. simplify_eq. congruence.
        -- destruct save_results; simpl.
           ++ destruct (write_png (concat characters) image) as [message|] eqn:Hw; simpl.
              ** split; [done|]. intros (_ & im & sg & ch & Hi & Hs & Hp' & Hw' & _).
                 simplify_eq. rewrite Hrun in Hs. simpl in Hs. simplify_eq.
                 specialize (Hw' eq_refl). congruence.
              ** split; [|done]. intros _. split; [done|].
                 exists image, segments, characters. by rewrite Hrun.
           ++ split; [|done]. intros _. split; [done|].
              exists image, segments, characters. by rewrite Hrun.
      * split; [done|]. intros (_ & im & sg & ch & Hi & Hs & _).
        simplify_eq. rewrite Hrun in Hs. simpl in Hs. simplify_eq.
Qed.

(** X20.  An image that is narrower or lower than the input size of the
    network is answered 500 with the text of the size exception, whatever
    the model and the file system would do; nothing is saved, and the
    server's dictionary has been completed all the same. *)
Theorem X20_small_image_is_refused (cv : OpenCV) (decode_image : str -> uploaded)
    (model_predict : list Gray -> str + list str) (write_png : str -> Bgr -> option str)
    (zero_division_text : str) (save_results segmentation_debug : bool)
    (segmentation_params : option loc) (st : server_state) (data : str) (image : Bgr) :
  data <> [] -> decode_image (payload data) = Image image ->
  (shape1 image < 64)%nat \/ (shape0 image < 64)%nat ->
  solve cv decode_image model_predict write_png zero_division_text
        save_results segmentation_debug segmentation_params st data
  = (mkServer (resolve_params (server_store st) segmentation_params).1 (saved st),
     mkResponse 500
       (str_of (if (shape1 image <? 64)%nat
                then "output_width must be less or equal to the image width"
                else "output_height must be less or equal to the image height"))
       (Some "text/plain"%string)
       [("Access-Control-Allow-Origin"%string, "*"%string)]).
Proof.
  intros Hd Himg Hsmall. rewrite solve_nonempty by done.
  unfold try_solve. rewrite Himg.
  pose proof (extract_characters_store cv (server_store st) image (Some INPUT_WIDTH)
                (Some INPUT_HEIGHT) segmentation_debug segmentation_params) as Hsto.
  pose proof (extract_characters_outcome cv (server_store st) image (Some INPUT_WIDTH)
                (Some INPUT_HEIGHT) segmentation_debug segmentation_params) as Hout.
  destruct (extract_characters cv _ image _ _ _ _) as [sto' out]. simpl in Hsto, Hout.
  subst sto' out. unfold located_characters, check_output_size, exceeds, INPUT_WIDTH,
    INPUT_HEIGHT.
  destruct (Nat.ltb_spec (shape1 image) 64) as [Hw|Hw].
  - rewrite (proj2 (Z.ltb_lt _ _)) by lia. reflexivity.
  - rewrite (proj2 (Z.ltb_ge _ _)) by lia.
    rewrite (proj2 (Z.ltb_lt (Z.of_nat (shape0 image)) 64)) by lia. reflexivity.
Qed.

Lemma X20_witness :
  status (solve TwoLevel.cv (fun _ => Image TwoLevel.captcha) (fun _ => inr []) (fun _ _ => None)
                [] false false None (mkServer ∅ []) [65%N]).2 = 500.
Proof.
  rewrite (X20_small_image_is_refused TwoLevel.cv (fun _ => Image TwoLevel.captcha)
             (fun _ => inr []) (fun _ _ => None) [] false false None (mkServer ∅ []) [65%N]
             TwoLevel.captcha); [reflexivity|done|reflexivity|].
  left. vm_compute. lia.
Defined.
